(** * RADOS Block Device driver (cinder/volume/drivers/rbd.py)

    A shallow embedding of the driver: the stream wrapper
    [RBDImageIOWrapper], the location parser [_parse_location], and the
    connection discipline of [RBDDriver] ([_connect_to_rados],
    [RADOSClient], [RBDVolumeProxy] and the operations built on them).

    Python integers are unbounded, so they are [Z].  Python 2 [str] values
    are byte strings, so they are [string]; a value that can also be a
    [unicode] object is a [text].  The librados / librbd bindings
    are injected into the driver ("allow overrides for testing"), so they
    are interfaces (type classes) here, with an in-memory cluster as the
    test double. *)

From Stdlib Require Import ZArith List String Ascii Bool Lia DecimalString.
Import ListNotations.

Open Scope string_scope.
Open Scope list_scope.
Open Scope Z_scope.

(** ** Exceptions *)

(** Subclasses of [rbd.Error] the driver tells apart, and the rest. *)
Inductive rbd_error : Type :=
| ImageBusy
| ImageHasSnapshots
| ImageNotFound
| InvalidArgument
| RbdOther.

(** Everything the modelled code can raise. [RadosError] is [rados.Error]
    with all its subclasses: the driver never tells them apart. *)
Inductive exn : Type :=
| RadosError
| RbdError (e : rbd_error)
| VolumeIsBusy (volume_name : string)
| SnapshotIsBusy (snapshot_name : string)
| ImageUnacceptable (image_id reason : string)
| VolumeBackendAPIException (data : string)
| IOError (msg : string)
| AttributeError (attrib : string)
| OtherException (what : string).

Inductive result (E A : Type) : Type :=
| Ok (a : A)
| Err (e : E).
Arguments Ok {E A} a.
Arguments Err {E A} e.

(** ** Python 2 strings

    Python 2 has two string types, [str] (bytes) and [unicode].  What the
    driver makes itself (configuration values, volume and snapshot names)
    is a [str], or converts to one; what arrives from outside, an image
    location and the pieces cut from it, can be either.  A [unicode]
    value is given by its code points, here those below 256, which is
    what [urllib.unquote] produces; larger ones fail [str()] as those
    from 128 to 255 do. *)
Inductive text : Type :=
| Str (s : string)
| Unicode (s : string).

Coercion Str : string >-> text.

Definition chars (t : text) : string :=
  match t with Str s | Unicode s => s end.

(** A string of the kind of [t]: slices, [split] and [unquote] of a
    [unicode] object are [unicode] objects. *)
Definition same_kind (t : text) (s : string) : text :=
  match t with Str _ => Str s | Unicode _ => Unicode s end.

Fixpoint is_ascii (s : string) : bool :=
  match s with
  | EmptyString => true
  | String c rest => (N_of_ascii c <? 128)%N && is_ascii rest
  end.

(** Raised by [str()]; no [except] clause of the driver names it. *)
Definition UnicodeEncodeError : exn := OtherException "UnicodeEncodeError".

(** [str(t)]: the identity on a [str], the ASCII encoding of a
    [unicode]. *)
Definition str (t : text) : result exn string :=
  match t with
  | Str s => Ok s
  | Unicode s => if is_ascii s then Ok s else Err UnicodeEncodeError
  end.

(** [ascii_str(string)] *)
Definition ascii_str (t : option text) : result exn (option string) :=
  match t with
  | None => Ok None
  | Some x =>
      match str x with
      | Ok s => Ok (Some s)
      | Err e => Err e
      end
  end.

(** Whether [str(t)], and [ascii_str(t)], return. *)
Definition converts (t : text) : bool :=
  match str t with Ok _ => true | Err _ => false end.

Definition converts_opt (t : option text) : bool :=
  match t with Some x => converts x | None => true end.

(** [a == b] for a [str] and either kind of string: a byte string that
    is not ASCII equals no [unicode] object. *)
Definition str_eqb (a : string) (b : text) : bool :=
  match b with
  | Str s => String.eqb a s
  | Unicode s => is_ascii a && String.eqb a s
  end.

(** ['%s' % n] for an integer. *)
Definition decimal (n : Z) : string := NilZero.string_of_int (Z.to_int n).

(** ** Python string helpers *)

(** [s[n:]] *)
Fixpoint drop (n : nat) (s : string) : string :=
  match n, s with
  | O, _ => s
  | S _, EmptyString => EmptyString
  | S n', String _ rest => drop n' rest
  end.

(** [s[:n]] *)
Fixpoint take (n : nat) (s : string) : string :=
  match n, s with
  | O, _ => EmptyString
  | S _, EmptyString => EmptyString
  | S n', String c rest => String c (take n' rest)
  end.

(** [s.startswith(p)] *)
Definition startswith (p s : string) : bool := String.prefix p s.

(** [s.split(sep)] for a one-character separator: never the empty list. *)
Fixpoint split (sep : ascii) (s : string) : list string :=
  match s with
  | EmptyString => [EmptyString]
  | String c rest =>
      if Ascii.eqb c sep then EmptyString :: split sep rest
      else match split sep rest with
           | [] => [String c EmptyString]
           | p :: ps => String c p :: ps
           end
  end.

(** [''.join(l)] *)
Fixpoint join (l : list string) : string :=
  match l with
  | [] => EmptyString
  | x :: xs => String.append x (join xs)
  end.

(** ** urllib.unquote (Python 2 standard library)

    [_hexdig = '0123456789ABCDEFabcdef'];
    [_hextochr] maps every two-character string of hex digits to the
    character with that code.  [unquote] splits on ['%'], returns the
    input when there is no ['%'], and otherwise replaces the first two
    characters of every later item by the decoded character when they are
    a key of [_hextochr], and puts the ['%'] back when they are not. *)

Definition hexval (c : ascii) : option N :=
  let n := N_of_ascii c in
  if (48 <=? n)%N && (n <=? 57)%N then Some (n - 48)%N
  else if (65 <=? n)%N && (n <=? 70)%N then Some (n - 55)%N
  else if (97 <=? n)%N && (n <=? 102)%N then Some (n - 87)%N
  else None.

Definition _hextochr (key : string) : option ascii :=
  match key with
  | String a (String b EmptyString) =>
      match hexval a, hexval b with
      | Some x, Some y => Some (ascii_of_N (16 * x + y))
      | _, _ => None
      end
  | _ => None
  end.

Definition unquote_item (item : string) : string :=
  match _hextochr (take 2 item) with
  | Some c => String c (drop 2 item)
  | None => String "%"%char item
  end.

Definition unquote (s : string) : string :=
  match split "%"%char s with
  | [] => s
  | [_] => s
  | first :: items => String.append first (join (map unquote_item items))
  end.

(** ** RBDDriver._parse_location *)

Definition prefix : string := "rbd://".

(** The path components of a location: [location[len(prefix):].split('/')]. *)
Definition components (location : string) : list string :=
  split "/"%char (drop (String.length prefix) location).

Definition _parse_location (location : string) : result exn (list string) :=
  if negb (startswith prefix location) then
    Err (ImageUnacceptable location "Not stored in rbd")
  else
    let pieces := map unquote (components location) in
    if existsb (fun p => String.eqb p "") pieces then
      Err (ImageUnacceptable location "Blank components")
    else if negb (Nat.eqb (List.length pieces) 4) then
      Err (ImageUnacceptable location "Not an rbd snapshot")
    else Ok pieces.

(** [_parse_location] on either kind of string: the checks are made on
    the characters, and the pieces are of the kind of the location. *)
Definition _parse_location_text (location : text) : result exn (list text) :=
  match _parse_location (chars location) with
  | Ok pieces => Ok (map (same_kind location) pieces)
  | Err e => Err e
  end.

(** ** RBDImageIOWrapper *)

(** What the wrapper asks of the image object it wraps. *)
Class ImageAPI (I : Type) : Type := {
  image_size : I -> result exn Z;
  image_read : I -> Z -> Z -> result exn string;
  image_write : I -> string -> Z -> result exn I
}.

Module RBDImageIOWrapper.
Section Wrapper.
Context {I : Type} `{ImageAPI I}.

(** The instance attributes.  [__init__] sets [rbd_image] and [_offset]
    only: [volume], which [seek] reads, is set by nobody in this class,
    so it is absent ([None]) unless a caller adds it. *)
Record t : Type := mk {
  rbd_image : I;
  _offset : Z;
  volume : option I
}.

Definition __init__ (img : I) : t :=
  {| rbd_image := img; _offset := 0; volume := None |}.

Definition _inc_offset (self : t) (length : Z) : t :=
  {| rbd_image := rbd_image self;
     _offset := _offset self + length;
     volume := volume self |}.

Definition set_offset (self : t) (new_offset : Z) : t :=
  {| rbd_image := rbd_image self;
     _offset := new_offset;
     volume := volume self |}.

(** [read(length=None)]: the result and the wrapper afterwards.  The
    offset is moved before the image is read. *)
Definition read (self : t) (length : option Z) : result exn string * t :=
  let offset := _offset self in
  match image_size (rbd_image self) with
  | Err e => (Err e, self)
  | Ok total =>
      if offset =? total then (Ok "", self)
      else
        let length := match length with None => total | Some l => l end in
        let length := if (offset + length) >? total then total - offset
                      else length in
        let self' := _inc_offset self length in
        (image_read (rbd_image self') offset length, self')
  end.

(** The length [read] passes to the image, when it gets that far. *)
Definition read_request (self : t) (length : option Z) : option Z :=
  match image_size (rbd_image self) with
  | Err _ => None
  | Ok total =>
      if _offset self =? total then None
      else
        let length := match length with None => total | Some l => l end in
        Some (if (_offset self + length) >? total
              then total - _offset self else length)
  end.

Definition write (self : t) (data : string) : result exn unit * t :=
  match image_write (rbd_image self) data (_offset self) with
  | Err e => (Err e, self)
  | Ok img' =>
      (Ok tt,
       _inc_offset {| rbd_image := img'; _offset := _offset self;
                      volume := volume self |}
                   (Z.of_nat (String.length data)))
  end.

Definition seekable (self : t) : bool := true.

(** The offset [seek] computes before the sign check. *)
Definition new_offset (self : t) (offset whence : Z) : result exn Z :=
  if whence =? 0 then Ok offset
  else if whence =? 1 then Ok (_offset self + offset)
  else if whence =? 2 then
    match volume self with
    | None => Err (AttributeError "volume")
    | Some v =>
        match image_size v with
        | Err e => Err e
        | Ok sz => Ok (sz - 1 + offset)
        end
    end
  else Err (IOError (String.append "Invalid argument - whence="
                       (String.append (decimal whence) " not supported"))).

Definition seek (self : t) (offset whence : Z) : result exn unit * t :=
  match new_offset self offset whence with
  | Err e => (Err e, self)
  | Ok n =>
      if n <? 0 then (Err (IOError "Invalid argument"), self)
      else (Ok tt, set_offset self n)
  end.

Definition tell (self : t) : Z := _offset self.

Definition close (self : t) : t := self.

End Wrapper.
Arguments t I : clear implicits.
End RBDImageIOWrapper.

(** An in-memory image: its bytes.  Reads outside the image fail, as
    librbd's do. *)
Record mem_image : Type := { mem_data : string }.

Definition mem_size (i : mem_image) : Z := Z.of_nat (String.length (mem_data i)).

#[export] Instance mem_image_api : ImageAPI mem_image := {
  image_size i := Ok (mem_size i);
  image_read i offset length :=
    if (0 <=? offset) && (0 <=? length) && (offset + length <=? mem_size i)
    then Ok (String.substring (Z.to_nat offset) (Z.to_nat length) (mem_data i))
    else Err (RbdError InvalidArgument);
  image_write i data offset :=
    if (0 <=? offset)
       && (offset + Z.of_nat (String.length data) <=? mem_size i)
    then Ok {| mem_data :=
                 String.append (take (Z.to_nat offset) (mem_data i))
                   (String.append data
                      (drop (Z.to_nat offset + String.length data)
                            (mem_data i))) |}
    else Err (RbdError InvalidArgument)
}.

(** ** The librados / librbd interface of the driver *)

(** [rados.Error] (all subclasses alike). *)
Inductive rados_error : Type := Rados_Error.

(** An open pool handle and a [rbd.Image] object, named by what they were
    opened with.  Clients are numbered by the driver as it creates them. *)
Record ioctx : Type := { ioctx_client : nat; ioctx_pool : string }.

Record image : Type := {
  image_ioctx : ioctx;
  image_name : string;
  image_snapshot : option string;
  image_read_only : bool
}.

(** Methods of [rbd.RBD()]. *)
Inductive rbd_op : Type :=
| Create (io : ioctx) (name : string) (size : Z) (old_format : bool)
         (features : Z)
| Remove (io : ioctx) (name : string)
| Clone (src : ioctx) (src_image src_snap : string) (dest : ioctx)
        (dest_name : string) (features : Z).

(** Methods of [rbd.Image] that the proxy forwards. *)
Inductive image_op : Type :=
| Copy (dest : ioctx) (dest_name : string)
| Flatten
| Resize (size : Z)
| Create_snap (snap : string)
| Protect_snap (snap : string)
| Unprotect_snap (snap : string)
| Remove_snap (snap : string).

(** Calls to the external collaborators: the shell, the temporary-file
    module, the image service, the backup service, the database. *)
Inductive ext_op : Type :=
| Ensure_tmp_exists
| Tmp_open (dir : option string)
| Tmp_close
| Fetch_to_raw (image_id path : string)
| Try_execute (args : list string)
| Db_volume_get (volume_id : string)
| Backup_service_backup (img : image)
| Backup_service_restore (volume_id : string) (img : image).

(** The environment the driver runs against, as a state machine on [B].
    librados calls raise [rados.Error] only and librbd calls raise
    [rbd.Error] subclasses only; [ioctx.close()] and [shutdown()] cannot
    raise (the source says so); the collaborators can raise anything. *)
Class Backend (B : Type) : Type := {
  rados_Rados : option string -> string -> B -> result rados_error unit * B;
  rados_connect : nat -> B -> result rados_error unit * B;
  rados_open_ioctx : nat -> string -> B -> result rados_error unit * B;
  rados_shutdown : nat -> B -> B;
  rados_get_fsid : nat -> B -> result rados_error string * B;
  rados_get_cluster_stats : nat -> B -> result rados_error (Z * Z) * B;
  ioctx_close : ioctx -> B -> B;
  rbd_Image : image -> B -> result rbd_error unit * B;
  rbd_Image_close : image -> B -> result rbd_error unit * B;
  rbd_Image_call : image -> image_op -> B -> result rbd_error unit * B;
  rbd_RBD_call : rbd_op -> B -> result rbd_error unit * B;
  external : ext_op -> B -> result exn string * B
}.

(** What a counting test double would record: every librados / librbd
    call the driver makes, with its outcome. *)
Inductive event : Type :=
| EvConnect (c : nat) (ok : bool)
| EvOpenIoctx (c : nat) (pool : string) (ok : bool)
| EvIoctxClose (io : ioctx)
| EvShutdown (c : nat)
| EvGetFsid (c : nat) (ok : bool)
| EvGetClusterStats (c : nat) (ok : bool)
| EvImageOpen (img : image) (r : option rbd_error)
| EvImageClose (img : image) (r : option rbd_error)
| EvImageCall (img : image) (op : image_op) (r : option rbd_error)
| EvRBDCall (op : rbd_op) (r : option rbd_error).

Definition is_ok {E A} (r : result E A) : bool :=
  match r with Ok _ => true | Err _ => false end.

Definition error_of {E A} (r : result E A) : option E :=
  match r with Ok _ => None | Err e => Some e end.

(** ** The driver's monad: backend state, exceptions, call trace *)

Record state (B : Type) : Type := { backend : B; next_client : nat }.
Arguments backend {B} s.
Arguments next_client {B} s.

Definition M (B A : Type) : Type :=
  state B -> result exn A * state B * list event.

Definition ret {B A} (a : A) : M B A := fun s => (Ok a, s, []).

Definition raise {B A} (e : exn) : M B A := fun s => (Err e, s, []).

Definition bind {B A C} (m : M B A) (f : A -> M B C) : M B C :=
  fun s =>
    match m s with
    | (Err e, s1, t1) => (Err e, s1, t1)
    | (Ok a, s1, t1) =>
        match f a s1 with
        | (r, s2, t2) => (r, s2, t1 ++ t2)
        end
    end.

Notation "x <- m ;; k" := (bind m (fun x => k))
  (at level 61, m at next level, right associativity).
Notation "m ;;; k" := (bind m (fun _ => k))
  (at level 61, right associativity).

(** [try: m except <classes>: h]: [handler e] is the clause that matches
    [e], if one does. *)
Definition try_except {B A} (m : M B A) (handler : exn -> option (M B A))
  : M B A :=
  fun s =>
    match m s with
    | (Ok a, s1, t1) => (Ok a, s1, t1)
    | (Err e, s1, t1) =>
        match handler e with
        | None => (Err e, s1, t1)
        | Some h =>
            match h s1 with
            | (r, s2, t2) => (r, s2, t1 ++ t2)
            end
        end
    end.

(** [try: m finally: fin]: an exception of [fin] replaces the outcome. *)
Definition try_finally {B A} (m : M B A) (fin : M B unit) : M B A :=
  fun s =>
    match m s with
    | (r, s1, t1) =>
        match fin s1 with
        | (Ok _, s2, t2) => (r, s2, t1 ++ t2)
        | (Err e, s2, t2) => (Err e, s2, t1 ++ t2)
        end
    end.

(** [with enter as r: body]: [__exit__] runs on every way out of the
    body, and is not run when the constructor raises. *)
Definition with_ {B R A} (enter : M B R) (exit : R -> M B unit)
  (body : R -> M B A) : M B A :=
  r <- enter ;; try_finally (body r) (exit r).

Definition trace {B A} (x : result exn A * state B * list event) : list event :=
  snd x.

Definition outcome {B A} (x : result exn A * state B * list event)
  : result exn A := fst (fst x).

Definition final {B A} (x : result exn A * state B * list event) : state B :=
  snd (fst x).

(** ** Driver data *)

Record configuration : Type := {
  rbd_pool : string;
  rbd_user : option string;
  rbd_ceph_conf : string;
  rbd_flatten_volume_from_snapshot : bool;
  rbd_secret_uuid : option string;
  volume_tmp_dir : option string;
  volume_backend_name : option string
}.

(** The driver object: its configuration, whether the [rados] module was
    imported, and the [RBD_FEATURE_LAYERING] attribute of the [rbd] module
    (absent in bindings without layering). *)
Record driver : Type := {
  conf : configuration;
  rados_imported : bool;
  RBD_FEATURE_LAYERING : option Z
}.

(** [volume['name']], [volume['size']], [volume['id']]. *)
Record volume_ref : Type := {
  vol_name : string;
  vol_size : Z;
  vol_id : string
}.

(** [snapshot['volume_name']], [snapshot['name']]. *)
Record snapshot_ref : Type := {
  snap_volume_name : string;
  snap_name : string
}.

Record stats : Type := {
  stats_backend_name : string;
  total_capacity_gb : option Z;
  free_capacity_gb : option Z
}.

(** Modelled from the spec: [cinder.units.GiB] is not in the source; the
    spec speaks of whole gibibytes, [2^30] bytes. *)
Definition GiB : Z := 1024 ^ 3.

(** Python truthiness of an optional string, and [a or b]. *)
Definition truthy (s : option string) : bool :=
  match s with
  | None => false
  | Some x => negb (String.eqb x "")
  end.

Definition or_else (s : option string) (d : string) : string :=
  match s with
  | Some x => if String.eqb x "" then d else x
  | None => d
  end.

(** [pool or self.configuration.rbd_pool] *)
Definition text_or (t : option text) (d : string) : text :=
  match t with
  | Some x => if String.eqb (chars x) "" then Str d else x
  | None => Str d
  end.

(** ** Backend calls, logged *)

Section Driver.
Context {B : Type} `{Backend B}.

Definition lift_rados {A} (r : result rados_error A) : result exn A :=
  match r with Ok a => Ok a | Err _ => Err RadosError end.

Definition lift_rbd {A} (r : result rbd_error A) : result exn A :=
  match r with Ok a => Ok a | Err e => Err (RbdError e) end.

Definition with_backend (s : state B) (b : B) : state B :=
  {| backend := b; next_client := next_client s |}.

(** [self.rados.Rados(rados_id=..., conffile=...)]: a new client. *)
Definition Rados (rados_id : option string) (conffile : string) : M B nat :=
  fun s =>
    match rados_Rados rados_id conffile (backend s) with
    | (Ok _, b) =>
        (Ok (next_client s),
         {| backend := b; next_client := S (next_client s) |}, [])
    | (Err _, b) => (Err RadosError, with_backend s b, [])
    end.

Definition connect (c : nat) : M B unit :=
  fun s =>
    let (r, b) := rados_connect c (backend s) in
    (lift_rados r, with_backend s b, [EvConnect c (is_ok r)]).

Definition open_ioctx (c : nat) (pool : string) : M B ioctx :=
  fun s =>
    let (r, b) := rados_open_ioctx c pool (backend s) in
    (match r with
     | Ok _ => Ok {| ioctx_client := c; ioctx_pool := pool |}
     | Err _ => Err RadosError
     end, with_backend s b, [EvOpenIoctx c pool (is_ok r)]).

Definition shutdown (c : nat) : M B unit :=
  fun s => (Ok tt, with_backend s (rados_shutdown c (backend s)),
            [EvShutdown c]).

Definition close_ioctx (io : ioctx) : M B unit :=
  fun s => (Ok tt, with_backend s (ioctx_close io (backend s)),
            [EvIoctxClose io]).

Definition get_fsid (c : nat) : M B string :=
  fun s =>
    let (r, b) := rados_get_fsid c (backend s) in
    (lift_rados r, with_backend s b, [EvGetFsid c (is_ok r)]).

Definition get_cluster_stats (c : nat) : M B (Z * Z) :=
  fun s =>
    let (r, b) := rados_get_cluster_stats c (backend s) in
    (lift_rados r, with_backend s b, [EvGetClusterStats c (is_ok r)]).

(** [self.rbd.Image(ioctx, name, snapshot=..., read_only=...)] *)
Definition Image (img : image) : M B image :=
  fun s =>
    let (r, b) := rbd_Image img (backend s) in
    (match r with Ok _ => Ok img | Err e => Err (RbdError e) end,
     with_backend s b, [EvImageOpen img (error_of r)]).

Definition Image_close (img : image) : M B unit :=
  fun s =>
    let (r, b) := rbd_Image_close img (backend s) in
    (lift_rbd r, with_backend s b, [EvImageClose img (error_of r)]).

Definition Image_call (img : image) (op : image_op) : M B unit :=
  fun s =>
    let (r, b) := rbd_Image_call img op (backend s) in
    (lift_rbd r, with_backend s b, [EvImageCall img op (error_of r)]).

Definition RBD_call (op : rbd_op) : M B unit :=
  fun s =>
    let (r, b) := rbd_RBD_call op (backend s) in
    (lift_rbd r, with_backend s b, [EvRBDCall op (error_of r)]).

(** The collaborators are not part of the bindings: what they do is
    not in the trace. *)
Definition ext (op : ext_op) : M B string :=
  fun s =>
    let (r, b) := external op (backend s) in (r, with_backend s b, []).

(** A computation that calls nothing, such as [str(name)]. *)
Definition eval {A} (r : result exn A) : M B A := fun s => (r, s, []).

(** ** RBDDriver: connection management *)

Definition _supports_layering (self : driver) : bool :=
  match RBD_FEATURE_LAYERING self with Some _ => true | None => false end.

Definition _ceph_args (self : driver) : list string :=
  (if truthy (rbd_user (conf self))
   then ["--id"; or_else (rbd_user (conf self)) ""] else [])
  ++ (if String.eqb (rbd_ceph_conf (conf self)) "" then []
      else ["--conf"; rbd_ceph_conf (conf self)]).

(** The configuration values are [str], so [ascii_str] returns them as
    they are.  [str(pool or ...)] is called inside the [try], after
    [connect()]; the handler is for [rados.Error] only. *)
Definition _connect_to_rados (self : driver) (pool : option text)
  : M B (nat * ioctx) :=
  client <- Rados (rbd_user (conf self)) (rbd_ceph_conf (conf self)) ;;
  try_except
    (connect client ;;;
     pool_to_open <- eval (str (text_or pool (rbd_pool (conf self)))) ;;
     io <- open_ioctx client pool_to_open ;;
     ret (client, io))
    (fun e =>
       match e with
       | RadosError => Some (shutdown client ;;; raise RadosError)
       | _ => None
       end).

Definition _disconnect_from_rados (self : driver) (client : nat)
  (io : ioctx) : M B unit :=
  close_ioctx io ;;; shutdown client.

End Driver.

(** ** RADOSClient: the connection as a context manager *)

Module RADOSClient.
Section Client.
Context {B : Type} `{Backend B}.

Record t : Type := { driver_ : driver; cluster : nat; ioctx_ : ioctx }.

Definition __init__ (drv : driver) (pool : option text) : M B t :=
  p <- _connect_to_rados drv pool ;;
  ret {| driver_ := drv; cluster := fst p; ioctx_ := snd p |}.

Definition __exit__ (self : t) : M B unit :=
  _disconnect_from_rados (driver_ self) (cluster self) (ioctx_ self).

End Client.
End RADOSClient.

(** ** RBDVolumeProxy: an open image with its own connection *)

Module RBDVolumeProxy.
Section Proxy.
Context {B : Type} `{Backend B}.

Record t : Type := {
  volume : image;
  driver_ : driver;
  client : nat;
  ioctx_ : ioctx
}.

(** The arguments of [rbd.Image] are converted inside the [try], whose
    handler is for [rbd.Error] only. *)
Definition __init__ (drv : driver) (name : text) (pool : option text)
  (snapshot : option text) (read_only : bool) : M B t :=
  p <- _connect_to_rados drv pool ;;
  let client := fst p in
  let io := snd p in
  vol <- try_except
           (name' <- eval (str name) ;;
            snapshot' <- eval (ascii_str snapshot) ;;
            Image {| image_ioctx := io; image_name := name';
                     image_snapshot := snapshot';
                     image_read_only := read_only |})
           (fun e =>
              match e with
              | RbdError _ =>
                  Some (_disconnect_from_rados drv client io ;;; raise e)
              | _ => None
              end) ;;
  ret {| volume := vol; driver_ := drv; client := client; ioctx_ := io |}.

Definition __exit__ (self : t) : M B unit :=
  try_finally
    (Image_close (volume self))
    (_disconnect_from_rados (driver_ self) (client self) (ioctx_ self)).

(** [__getattr__]: every other attribute is the image's. *)
Definition call (self : t) (op : image_op) : M B unit :=
  Image_call (volume self) op.

End Proxy.
End RBDVolumeProxy.

(** ** RBDDriver: the volume operations *)

Section Operations.
Context {B : Type} `{Backend B}.

Definition with_client {A} (self : driver) (pool : option text)
  (body : RADOSClient.t -> M B A) : M B A :=
  with_ (RADOSClient.__init__ self pool) RADOSClient.__exit__ body.

Definition with_proxy {A} (self : driver) (name : text)
  (pool snapshot : option text) (read_only : bool)
  (body : RBDVolumeProxy.t -> M B A) : M B A :=
  with_ (RBDVolumeProxy.__init__ self name pool snapshot read_only)
        RBDVolumeProxy.__exit__ body.

Definition check_for_setup_error (self : driver) : M B unit :=
  if negb (rados_imported self) then
    raise (VolumeBackendAPIException
             "rados and rbd python libraries not found")
  else
    try_except
      (with_client self None (fun _ => ret tt))
      (fun e =>
         match e with
         | RadosError =>
             Some (raise (VolumeBackendAPIException
                            "error connecting to ceph cluster"))
         | _ => None
         end).

Definition _update_volume_stats (self : driver) : M B stats :=
  let name := or_else (volume_backend_name (conf self)) "RBD" in
  try_except
    (new_stats <- with_client self None
                    (fun client =>
                       get_cluster_stats (RADOSClient.cluster client)) ;;
     ret {| stats_backend_name := name;
            total_capacity_gb := Some (fst new_stats / 1024 ^ 2);
            free_capacity_gb := Some (snd new_stats / 1024 ^ 2) |})
    (fun e =>
       match e with
       | RadosError =>
           Some (ret {| stats_backend_name := name;
                        total_capacity_gb := None;
                        free_capacity_gb := None |})
       | _ => None
       end).

Definition get_volume_stats (self : driver) (_stats : stats)
  (refresh : bool) : M B stats :=
  if refresh then _update_volume_stats self else ret _stats.

Definition create_cloned_volume (self : driver)
  (volume src_vref : volume_ref) : M B unit :=
  with_proxy self (vol_name src_vref) None None true
    (fun vol =>
       RBDVolumeProxy.call vol
         (Copy (RBDVolumeProxy.ioctx_ vol) (vol_name volume))).

Definition create_volume (self : driver) (volume : volume_ref) : M B unit :=
  let size := if vol_size volume =? 0 then 100 * 1024 ^ 2
              else vol_size volume * 1024 ^ 3 in
  let old_format := negb (_supports_layering self) in
  let features := match RBD_FEATURE_LAYERING self with
                  | Some f => f
                  | None => 0
                  end in
  with_client self None
    (fun client =>
       RBD_call (Create (RADOSClient.ioctx_ client) (vol_name volume)
                        size old_format features)).

Definition _flatten (self : driver) (pool : string) (volume_name : string)
  : M B unit :=
  with_proxy self volume_name (Some (Str pool)) None false
    (fun vol => RBDVolumeProxy.call vol Flatten).

(** The positional arguments of [clone] are evaluated before the
    keyword argument [features]. *)
Definition _clone (self : driver) (volume : volume_ref)
  (src_pool : option text) (src_image src_snap : text) : M B unit :=
  with_client self src_pool
    (fun src_client =>
       with_client self None
         (fun dest_client =>
            src_image' <- eval (str src_image) ;;
            src_snap' <- eval (str src_snap) ;;
            match RBD_FEATURE_LAYERING self with
            | None => raise (AttributeError "RBD_FEATURE_LAYERING")
            | Some f =>
                RBD_call (Clone (RADOSClient.ioctx_ src_client)
                                src_image' src_snap'
                                (RADOSClient.ioctx_ dest_client)
                                (vol_name volume) f)
            end)).

Definition _resize (self : driver) (volume : volume_ref) (size : option Z)
  : M B unit :=
  let size := match size with
              | Some n => if n =? 0 then vol_size volume * GiB else n
              | None => vol_size volume * GiB
              end in
  with_proxy self (vol_name volume) None None false
    (fun vol => RBDVolumeProxy.call vol (Resize size)).

Definition create_volume_from_snapshot (self : driver)
  (volume : volume_ref) (snapshot : snapshot_ref) : M B unit :=
  _clone self volume (Some (Str (rbd_pool (conf self))))
         (snap_volume_name snapshot) (snap_name snapshot) ;;;
  (if rbd_flatten_volume_from_snapshot (conf self)
   then _flatten self (rbd_pool (conf self)) (vol_name volume)
   else ret tt) ;;;
  (if vol_size volume =? 0 then ret tt else _resize self volume None).

Definition delete_volume (self : driver) (volume : volume_ref) : M B unit :=
  with_client self None
    (fun client =>
       try_except
         (RBD_call (Remove (RADOSClient.ioctx_ client) (vol_name volume)))
         (fun e =>
            match e with
            | RbdError ImageHasSnapshots =>
                Some (raise (VolumeIsBusy (vol_name volume)))
            | _ => None
            end)).

Definition create_snapshot (self : driver) (snapshot : snapshot_ref)
  : M B unit :=
  with_proxy self (snap_volume_name snapshot) None None false
    (fun volume =>
       let snap := snap_name snapshot in
       RBDVolumeProxy.call volume (Create_snap snap) ;;;
       (if _supports_layering self
        then RBDVolumeProxy.call volume (Protect_snap snap)
        else ret tt)).

Definition delete_snapshot (self : driver) (snapshot : snapshot_ref)
  : M B unit :=
  with_proxy self (snap_volume_name snapshot) None None false
    (fun volume =>
       let snap := snap_name snapshot in
       (if _supports_layering self then
          try_except
            (RBDVolumeProxy.call volume (Unprotect_snap snap))
            (fun e =>
               match e with
               | RbdError ImageBusy => Some (raise (SnapshotIsBusy snap))
               | _ => None
               end)
        else ret tt) ;;;
       RBDVolumeProxy.call volume (Remove_snap snap)).

Definition _get_fsid (self : driver) : M B string :=
  with_client self None
    (fun client => get_fsid (RADOSClient.cluster client)).

Definition _is_cloneable (self : driver) (image_location : text)
  : M B bool :=
  match _parse_location_text image_location with
  | Err (ImageUnacceptable _ _) => ret false
  | Err e => raise e
  | Ok [fsid; pool; image; snapshot] =>
      own <- _get_fsid self ;;
      if negb (str_eqb own fsid) then ret false
      else
        try_except
          (with_proxy self image (Some pool) (Some snapshot) true
             (fun _ => ret true))
          (fun e =>
             match e with
             | RbdError _ => Some (ret false)
             | _ => None
             end)
  | Ok _ => raise (OtherException "ValueError")
  end.

Definition clone_image (self : driver) (volume : volume_ref)
  (image_location : option text) : M B bool :=
  match image_location with
  | None => ret false
  | Some location =>
      ok <- _is_cloneable self location ;;
      if negb ok then ret false
      else
        match _parse_location_text location with
        | Err e => raise e
        | Ok [_; pool; image; snapshot] =>
            _clone self volume (Some pool) image snapshot ;;;
            _resize self volume None ;;;
            ret true
        | Ok _ => raise (OtherException "ValueError")
        end
  end.

Definition copy_image_to_volume (self : driver) (volume : volume_ref)
  (image_id : string) : M B unit :=
  ext Ensure_tmp_exists ;;;
  with_ (ext (Tmp_open (volume_tmp_dir (conf self))))
        (fun _ => ext Tmp_close ;;; ret tt)
        (fun tmp_name =>
           ext (Fetch_to_raw image_id tmp_name) ;;;
           delete_volume self volume ;;;
           let args :=
             ["rbd"; "import"; "--pool"; rbd_pool (conf self);
              tmp_name; vol_name volume]
             ++ (if _supports_layering self then ["--new-format"] else [])
             ++ _ceph_args self in
           ext (Try_execute args) ;;; ret tt) ;;;
  _resize self volume None.

Definition backup_volume (self : driver) (backup_volume_id : string)
  : M B unit :=
  volname <- ext (Db_volume_get backup_volume_id) ;;
  with_proxy self volname (Some (Str (rbd_pool (conf self)))) None true
    (fun rbd_image =>
       ext (Backup_service_backup (RBDVolumeProxy.volume rbd_image)) ;;;
       ret tt).

Definition restore_backup (self : driver) (volume : volume_ref) : M B unit :=
  with_proxy self (vol_name volume) (Some (Str (rbd_pool (conf self)))) None
    false
    (fun rbd_image =>
       ext (Backup_service_restore (vol_id volume)
              (RBDVolumeProxy.volume rbd_image)) ;;;
       ret tt).

Definition extend_volume (self : driver) (volume : volume_ref)
  (new_size : Z) : M B unit :=
  try_except
    (_resize self volume (Some (new_size * GiB)))
    (fun _ =>
       Some (raise (VolumeBackendAPIException
                      (String.append "Failed to Extend Volume "
                                     (vol_name volume))))).

(** The entry points that open a connection, and a run of one of them
    with its return value dropped. *)
Inductive operation : Type :=
| Check_for_setup_error
| Update_volume_stats
| Create_cloned_volume (volume src_vref : volume_ref)
| Create_volume (volume : volume_ref)
| Flatten_ (pool volume_name : string)
| Clone_ (volume : volume_ref) (src_pool : option text)
         (src_image src_snap : text)
| Resize_ (volume : volume_ref) (size : option Z)
| Create_volume_from_snapshot (volume : volume_ref) (snapshot : snapshot_ref)
| Delete_volume (volume : volume_ref)
| Create_snapshot (snapshot : snapshot_ref)
| Delete_snapshot (snapshot : snapshot_ref)
| Get_fsid
| Is_cloneable (image_location : text)
| Clone_image (volume : volume_ref) (image_location : option text)
| Copy_image_to_volume (volume : volume_ref) (image_id : string)
| Backup_volume (backup_volume_id : string)
| Restore_backup (volume : volume_ref)
| Extend_volume (volume : volume_ref) (new_size : Z).

Definition run (self : driver) (op : operation) : M B unit :=
  match op with
  | Check_for_setup_error => check_for_setup_error self
  | Update_volume_stats => _update_volume_stats self ;;; ret tt
  | Create_cloned_volume v src => create_cloned_volume self v src
  | Create_volume v => create_volume self v
  | Flatten_ pool name => _flatten self pool name
  | Clone_ v pool img snap => _clone self v pool img snap
  | Resize_ v size => _resize self v size
  | Create_volume_from_snapshot v snap =>
      create_volume_from_snapshot self v snap
  | Delete_volume v => delete_volume self v
  | Create_snapshot snap => create_snapshot self snap
  | Delete_snapshot snap => delete_snapshot self snap
  | Get_fsid => _get_fsid self ;;; ret tt
  | Is_cloneable loc => _is_cloneable self loc ;;; ret tt
  | Clone_image v loc => clone_image self v loc ;;; ret tt
  | Copy_image_to_volume v image_id => copy_image_to_volume self v image_id
  | Backup_volume id => backup_volume self id
  | Restore_backup v => restore_backup self v
  | Extend_volume v new_size => extend_volume self v new_size
  end.

End Operations.

(** The names an operation hands to [str()] convert: the pieces of an
    image location, and the source pool of [_clone]. *)
Definition location_converts (location : text) : bool :=
  match _parse_location_text location with
  | Ok pieces => forallb converts pieces
  | Err _ => true
  end.

Definition names_convert (op : operation) : bool :=
  match op with
  | Clone_ _ src_pool _ _ => converts_opt src_pool
  | Is_cloneable location => location_converts location
  | Clone_image _ (Some location) => location_converts location
  | _ => true
  end.

(** ** Counting acquisitions and releases *)

(** A connection is acquired by a [connect()] call on a client and
    released by [shutdown()] on it. *)
Definition acquires (c : nat) (ev : event) : nat :=
  match ev with
  | EvConnect c' _ => if Nat.eqb c c' then 1%nat else 0%nat
  | _ => 0%nat
  end.

Definition releases (c : nat) (ev : event) : nat :=
  match ev with
  | EvShutdown c' => if Nat.eqb c c' then 1%nat else 0%nat
  | _ => 0%nat
  end.

Definition acquired (c : nat) (t : list event) : nat :=
  list_sum (map (acquires c) t).

Definition released (c : nat) (t : list event) : nat :=
  list_sum (map (releases c) t).

(** Every client is shut down as often as it was connected. *)
Definition balanced_trace (t : list event) : Prop :=
  forall c, acquired c t = released c t.

Definition balanced {B A} (m : M B A) : Prop :=
  forall s, balanced_trace (trace (m s)).

(** ** An in-memory cluster: the test double for the bindings *)

Record fake_snap : Type := {
  fs_name : string;
  fs_protected : bool;
  fs_children : nat
}.

Record fake_image : Type := {
  fi_pool : string;
  fi_name : string;
  fi_size : Z;
  fi_snaps : list fake_snap
}.

Record cluster : Type := {
  cl_fsid : string;
  cl_up : bool;
  cl_pools : list string;
  cl_images : list fake_image
}.

Definition is_image (pool name : string) (fi : fake_image) : bool :=
  String.eqb (fi_pool fi) pool && String.eqb (fi_name fi) name.

Definition find_image (pool name : string) (cl : cluster) : option fake_image :=
  find (is_image pool name) (cl_images cl).

Definition find_snap (snap : string) (fi : fake_image) : option fake_snap :=
  find (fun s => String.eqb (fs_name s) snap) (fi_snaps fi).

Definition set_images (cl : cluster) (imgs : list fake_image) : cluster :=
  {| cl_fsid := cl_fsid cl; cl_up := cl_up cl; cl_pools := cl_pools cl;
     cl_images := imgs |}.

Definition put_image (fi : fake_image) (cl : cluster) : cluster :=
  set_images cl
    (fi :: filter (fun x => negb (is_image (fi_pool fi) (fi_name fi) x))
                  (cl_images cl)).

Definition drop_image (pool name : string) (cl : cluster) : cluster :=
  set_images cl (filter (fun x => negb (is_image pool name x)) (cl_images cl)).

Definition set_snaps (fi : fake_image) (snaps : list fake_snap) : fake_image :=
  {| fi_pool := fi_pool fi; fi_name := fi_name fi; fi_size := fi_size fi;
     fi_snaps := snaps |}.

Definition without_snap (snap : string) (fi : fake_image) : list fake_snap :=
  filter (fun s => negb (String.eqb (fs_name s) snap)) (fi_snaps fi).

Definition cluster_image_call (img : image) (op : image_op) (cl : cluster)
  : result rbd_error unit * cluster :=
  match find_image (ioctx_pool (image_ioctx img)) (image_name img) cl with
  | None => (Err ImageNotFound, cl)
  | Some fi =>
      match op with
      | Copy dest dest_name =>
          (Ok tt, put_image {| fi_pool := ioctx_pool dest;
                               fi_name := dest_name;
                               fi_size := fi_size fi;
                               fi_snaps := [] |} cl)
      | Flatten => (Ok tt, cl)
      | Resize n =>
          (Ok tt, put_image {| fi_pool := fi_pool fi; fi_name := fi_name fi;
                               fi_size := n; fi_snaps := fi_snaps fi |} cl)
      | Create_snap snap =>
          match find_snap snap fi with
          | Some _ => (Err RbdOther, cl)
          | None =>
              (Ok tt,
               put_image
                 (set_snaps fi ({| fs_name := snap; fs_protected := false;
                                   fs_children := 0 |} :: fi_snaps fi)) cl)
          end
      | Protect_snap snap =>
          match find_snap snap fi with
          | None => (Err ImageNotFound, cl)
          | Some s =>
              (Ok tt,
               put_image
                 (set_snaps fi ({| fs_name := snap; fs_protected := true;
                                   fs_children := fs_children s |}
                                  :: without_snap snap fi)) cl)
          end
      | Unprotect_snap snap =>
          match find_snap snap fi with
          | None => (Err ImageNotFound, cl)
          | Some s =>
              if negb (fs_protected s) then (Err InvalidArgument, cl)
              else if Nat.ltb 0 (fs_children s) then (Err ImageBusy, cl)
              else
                (Ok tt,
                 put_image
                   (set_snaps fi ({| fs_name := snap; fs_protected := false;
                                     fs_children := 0 |}
                                    :: without_snap snap fi)) cl)
          end
      | Remove_snap snap =>
          match find_snap snap fi with
          | None => (Err ImageNotFound, cl)
          | Some s =>
              if fs_protected s then (Err ImageBusy, cl)
              else (Ok tt, put_image (set_snaps fi (without_snap snap fi)) cl)
          end
      end
  end.

Definition cluster_RBD_call (op : rbd_op) (cl : cluster)
  : result rbd_error unit * cluster :=
  match op with
  | Create io name size _ _ =>
      match find_image (ioctx_pool io) name cl with
      | Some _ => (Err RbdOther, cl)
      | None =>
          (Ok tt, put_image {| fi_pool := ioctx_pool io; fi_name := name;
                               fi_size := size; fi_snaps := [] |} cl)
      end
  | Remove io name =>
      match find_image (ioctx_pool io) name cl with
      | None => (Err ImageNotFound, cl)
      | Some fi =>
          match fi_snaps fi with
          | [] => (Ok tt, drop_image (ioctx_pool io) name cl)
          | _ :: _ => (Err ImageHasSnapshots, cl)
          end
      end
  | Clone src src_image src_snap dest dest_name _ =>
      match find_image (ioctx_pool src) src_image cl with
      | None => (Err ImageNotFound, cl)
      | Some fi =>
          match find_snap src_snap fi with
          | None => (Err ImageNotFound, cl)
          | Some s =>
              if negb (fs_protected s) then (Err InvalidArgument, cl)
              else
                (Ok tt,
                 put_image {| fi_pool := ioctx_pool dest;
                              fi_name := dest_name;
                              fi_size := fi_size fi; fi_snaps := [] |}
                   (put_image
                      (set_snaps fi
                         ({| fs_name := src_snap; fs_protected := true;
                             fs_children := S (fs_children s) |}
                            :: without_snap src_snap fi)) cl))
          end
      end
  end.

#[export] Instance cluster_backend : Backend cluster := {
  rados_Rados _ _ cl := (Ok tt, cl);
  rados_connect _ cl := (if cl_up cl then Ok tt else Err Rados_Error, cl);
  rados_open_ioctx _ pool cl :=
    (if existsb (String.eqb pool) (cl_pools cl) then Ok tt
     else Err Rados_Error, cl);
  rados_shutdown _ cl := cl;
  rados_get_fsid _ cl := (Ok (cl_fsid cl), cl);
  rados_get_cluster_stats _ cl := (Ok (0, 0), cl);
  ioctx_close _ cl := cl;
  rbd_Image img cl :=
    (match find_image (ioctx_pool (image_ioctx img)) (image_name img) cl with
     | None => Err ImageNotFound
     | Some fi =>
         match image_snapshot img with
         | None => Ok tt
         | Some snap =>
             match find_snap snap fi with
             | Some _ => Ok tt
             | None => Err ImageNotFound
             end
         end
     end, cl);
  rbd_Image_close _ cl := (Ok tt, cl);
  rbd_Image_call := cluster_image_call;
  rbd_RBD_call := cluster_RBD_call;
  external _ cl := (Ok "", cl)
}.

(** A cluster with one pool, a volume with a protected snapshot that has a
    clone, and a volume without snapshots. *)
Definition demo_cluster : cluster := {|
  cl_fsid := "abc";
  cl_up := true;
  cl_pools := ["rbd"];
  cl_images :=
    [ {| fi_pool := "rbd"; fi_name := "volume-1"; fi_size := GiB;
         fi_snaps := [ {| fs_name := "snap-1"; fs_protected := true;
                          fs_children := 1 |} ] |};
      {| fi_pool := "rbd"; fi_name := "volume-2"; fi_size := GiB;
         fi_snaps := [] |} ]
|}.

Definition demo_conf : configuration := {|
  rbd_pool := "rbd";
  rbd_user := None;
  rbd_ceph_conf := "";
  rbd_flatten_volume_from_snapshot := false;
  rbd_secret_uuid := None;
  volume_tmp_dir := None;
  volume_backend_name := None
|}.

Definition demo_driver : driver := {|
  conf := demo_conf;
  rados_imported := true;
  RBD_FEATURE_LAYERING := Some 1
|}.

Definition legacy_driver : driver := {|
  conf := demo_conf;
  rados_imported := true;
  RBD_FEATURE_LAYERING := None
|}.

Definition start (cl : cluster) : state cluster :=
  {| backend := cl; next_client := 0 |}.

(** The calls of a successful [_connect_to_rados] and of
    [_disconnect_from_rados]. *)
Definition connect_trace (c : nat) (pool : string) : list event :=
  [EvConnect c true; EvOpenIoctx c pool true].

Definition disconnect_trace (c : nat) (io : ioctx) : list event :=
  [EvIoctxClose io; EvShutdown c].

Definition one_if (b : bool) : nat := if b then 1%nat else 0%nat.

(** [m] leaves exactly the connection of client [key r] open when it
    returns [r], and none when it raises. *)
Definition opens {B R} (key : R -> nat) (m : M B R) : Prop :=
  forall s,
    match outcome (m s) with
    | Ok r =>
        forall c, acquired c (trace (m s))
                  = (released c (trace (m s)) + one_if (Nat.eqb c (key r)))%nat
    | Err _ => balanced_trace (trace (m s))
    end.

(** [exit r] releases exactly the connection of client [key r]. *)
Definition closes {B R} (key : R -> nat) (exit : R -> M B unit) : Prop :=
  forall r s c,
    (acquired c (trace (exit r s)) + one_if (Nat.eqb c (key r)))%nat
    = released c (trace (exit r s)).

(** Inputs used below. *)
Definition ten_bytes : mem_image := {| mem_data := "0123456789" |}.

Definition two_bytes : mem_image := {| mem_data := "ab" |}.

Definition volume_1 : volume_ref :=
  {| vol_name := "volume-1"; vol_size := 1; vol_id := "1" |}.

Definition volume_2 : volume_ref :=
  {| vol_name := "volume-2"; vol_size := 1; vol_id := "2" |}.

Definition volume_3 : volume_ref :=
  {| vol_name := "volume-3"; vol_size := 0; vol_id := "3" |}.


Definition snap_1 : snapshot_ref :=
  {| snap_volume_name := "volume-1"; snap_name := "snap-1" |}.

(** Names no ASCII codec encodes, as [unquote] makes them from a
    [unicode] location, and locations on the demo cluster with such a
    pool and such an image. *)
Definition odd_pool : text := Unicode (unquote "p%E9").

Definition odd_image : text := Unicode (unquote "im%E9").

Definition odd_pool_location : text :=
  Unicode "rbd://abc/p%E9/volume-1/snap-1".

Definition odd_image_location : text :=
  Unicode "rbd://abc/rbd/im%E9/snap-1".

(** The outcome of a [with RBDVolumeProxy(...)] block: the body's, unless
    the image's [close()] raises in [__exit__]. *)
Definition after_close {A} (r : result exn A) (rc : result rbd_error unit)
  : result exn A :=
  match rc with
  | Ok _ => r
  | Err e => Err (RbdError e)
  end.

(** The calls of [RBDVolumeProxy.__exit__], given what [close()] did. *)
Definition proxy_exit_trace (p : RBDVolumeProxy.t)
  (rc : result rbd_error unit) : list event :=
  [EvImageClose (RBDVolumeProxy.volume p) (error_of rc);
   EvIoctxClose (RBDVolumeProxy.ioctx_ p);
   EvShutdown (RBDVolumeProxy.client p)].

(** Calls that only manage the connection. *)
Definition is_connection_event (ev : event) : bool :=
  match ev with
  | EvConnect _ _ | EvOpenIoctx _ _ _ | EvIoctxClose _ | EvShutdown _ => true
  | _ => false
  end.

(** The image check of [_is_cloneable]: the [try] around the [with]. *)
Definition open_check {B : Type} `{Backend B} (self : driver)
  (pool image snapshot : text) : M B bool :=
  try_except
    (with_proxy self image (Some pool) (Some snapshot) true
       (fun _ => ret true))
    (fun e =>
       match e with
       | RbdError _ => Some (ret false)
       | _ => None
       end).

Definition rbd_io (c : nat) : ioctx :=
  {| ioctx_client := c; ioctx_pool := "rbd" |}.

Definition connected (c : nat) : state cluster :=
  {| backend := demo_cluster; next_client := S c |}.

Definition volume_1_proxy : RBDVolumeProxy.t :=
  {| RBDVolumeProxy.volume :=
       {| image_ioctx := rbd_io 0; image_name := "volume-1";
          image_snapshot := None; image_read_only := false |};
     RBDVolumeProxy.driver_ := demo_driver;
     RBDVolumeProxy.client := 0;
     RBDVolumeProxy.ioctx_ := rbd_io 0 |}.


(** ** Pool handles and images, counted *)

(** The sum of a weight over a trace: [+1] for a handle that was opened,
    [-1] for one that was closed. *)
Definition tally (w : event -> Z) (t : list event) : Z :=
  fold_right (fun ev acc => w ev + acc) 0 t.

(** Pool handles: [open_ioctx] that returned one, and [ioctx.close()]. *)
Definition ioctx_weight (ev : event) : Z :=
  match ev with
  | EvOpenIoctx _ _ true => 1
  | EvIoctxClose _ => -1
  | _ => 0
  end.

(** Images: [rbd.Image(...)] that returned one, and [image.close()]. *)
Definition image_weight (ev : event) : Z :=
  match ev with
  | EvImageOpen _ None => 1
  | EvImageClose _ _ => -1
  | _ => 0
  end.

(** [m] closes what it opens. *)
Definition settles {B A} (w : event -> Z) (m : M B A) : Prop :=
  forall s, tally w (trace (m s)) = 0.

(** [m] leaves [k] handles open when it returns and none when it raises. *)
Definition holds {B R} (w : event -> Z) (k : Z) (m : M B R) : Prop :=
  forall s,
    tally w (trace (m s))
    = match outcome (m s) with Ok _ => k | Err _ => 0 end.

(** [exit r] closes [k] handles. *)
Definition drops {B R} (w : event -> Z) (k : Z) (exit : R -> M B unit) : Prop :=
  forall r s, tally w (trace (exit r s)) = - k.

(** ** What an operation calls, and what it raises *)

(** Every call [m] makes satisfies [Q]. *)
Definition emits_only {B A} (Q : event -> Prop) (m : M B A) : Prop :=
  forall s, Forall Q (trace (m s)).

(** Every exception [m] raises satisfies [P]. *)
Definition raises_only {B A} (P : exn -> Prop) (m : M B A) : Prop :=
  forall s e, outcome (m s) = Err e -> P e.

(** Every value [m] returns satisfies [P]. *)
Definition returns_only {B A} (P : A -> Prop) (m : M B A) : Prop :=
  forall s a, outcome (m s) = Ok a -> P a.

Definition is_rados_error (e : exn) : Prop := e = RadosError.


Definition is_api_exception (e : exn) : Prop :=
  exists data, e = VolumeBackendAPIException data.




(** A proxy as [RBDVolumeProxy.__init__] builds it for these arguments. *)
Definition proxy_for (self : driver) (name : text)
  (pool snapshot : option text) (read_only : bool)
  (p : RBDVolumeProxy.t) : Prop :=
  image_name (RBDVolumeProxy.volume p) = chars name
  /\ image_snapshot (RBDVolumeProxy.volume p) = option_map chars snapshot
  /\ image_read_only (RBDVolumeProxy.volume p) = read_only
  /\ image_ioctx (RBDVolumeProxy.volume p) = RBDVolumeProxy.ioctx_ p
  /\ ioctx_pool (RBDVolumeProxy.ioctx_ p)
     = chars (text_or pool (rbd_pool (conf self)))
  /\ ioctx_client (RBDVolumeProxy.ioctx_ p) = RBDVolumeProxy.client p
  /\ RBDVolumeProxy.driver_ p = self.

(** A client as [RADOSClient.__init__] builds it for this pool. *)
Definition client_for (self : driver) (pool : option text)
  (r : RADOSClient.t) : Prop :=
  ioctx_pool (RADOSClient.ioctx_ r)
  = chars (text_or pool (rbd_pool (conf self)))
  /\ ioctx_client (RADOSClient.ioctx_ r) = RADOSClient.cluster r
  /\ RADOSClient.driver_ r = self.

(** The calls of [create_volume]: connection management and one kind of
    [create], in the legacy format exactly when the layering attribute is
    absent. *)
Definition create_volume_call (self : driver) (volume : volume_ref)
  (ev : event) : Prop :=
  match ev with
  | EvConnect _ _ | EvOpenIoctx _ _ _ | EvIoctxClose _ | EvShutdown _ => True
  | EvRBDCall (Create io name _ old_format features) _ =>
      name = vol_name volume
      /\ ioctx_pool io = rbd_pool (conf self)
      /\ (RBD_FEATURE_LAYERING self = None ->
          old_format = true /\ features = 0)
      /\ (forall f, RBD_FEATURE_LAYERING self = Some f ->
                    old_format = false /\ features = f)
  | _ => False
  end.

(** The calls of [_resize]: the volume's image opened for writing in the
    configured pool, and [resize] to [bytes]. *)
Definition resize_call (self : driver) (volume : volume_ref) (bytes : Z)
  (ev : event) : Prop :=
  match ev with
  | EvConnect _ _ | EvOpenIoctx _ _ _ | EvIoctxClose _ | EvShutdown _ => True
  | EvImageOpen img _ | EvImageClose img _ =>
      image_name img = vol_name volume /\ image_read_only img = false
      /\ image_snapshot img = None
      /\ ioctx_pool (image_ioctx img) = rbd_pool (conf self)
  | EvImageCall img (Resize n) _ =>
      image_name img = vol_name volume /\ n = bytes
  | _ => False
  end.

(** Calls that change nothing in the cluster: connection management,
    reading the fsid or the statistics, and opening or closing an image
    read-only. *)
Definition read_only_call (ev : event) : Prop :=
  match ev with
  | EvConnect _ _ | EvOpenIoctx _ _ _ | EvIoctxClose _ | EvShutdown _ => True
  | EvGetFsid _ _ | EvGetClusterStats _ _ => True
  | EvImageOpen img _ | EvImageClose img _ => image_read_only img = true
  | EvImageCall _ _ _ | EvRBDCall _ _ => False
  end.

(** Calls that remove nothing: everything but [remove] and [remove_snap]. *)
Definition keeps_everything (ev : event) : Prop :=
  match ev with
  | EvRBDCall (Remove _ _) _ => False
  | EvImageCall _ (Remove_snap _) _ => False
  | _ => True
  end.

(** The calls of [create_cloned_volume]: the source opened read-only, and
    one kind of [copy], into the pool handle of the same connection. *)
Definition cloned_volume_call (volume src_vref : volume_ref) (ev : event)
  : Prop :=
  match ev with
  | EvConnect _ _ | EvOpenIoctx _ _ _ | EvIoctxClose _ | EvShutdown _ => True
  | EvImageOpen img _ | EvImageClose img _ =>
      image_name img = vol_name src_vref /\ image_read_only img = true
  | EvImageCall img (Copy dest dest_name) _ =>
      image_name img = vol_name src_vref
      /\ dest = image_ioctx img /\ dest_name = vol_name volume
  | _ => False
  end.

(** Calls that open or close neither a pool handle nor an image. *)
Definition neutral (w : event -> Z) : Prop :=
  (forall c ok, w (EvGetFsid c ok) = 0)
  /\ (forall c ok, w (EvGetClusterStats c ok) = 0)
  /\ (forall img op r, w (EvImageCall img op r) = 0)
  /\ (forall op r, w (EvRBDCall op r) = 0).

(** A weight for which both context managers close what they open, the
    proxy for image and snapshot names that convert. *)
Definition managed {B : Type} `{Backend B} (w : event -> Z) : Prop :=
  neutral w
  /\ (exists k, (forall self pool,
                    holds w k (RADOSClient.__init__ (B:=B) self pool))
                /\ drops w k (RADOSClient.__exit__ (B:=B)))
  /\ (exists k, (forall self name pool snapshot read_only,
                    converts name = true -> converts_opt snapshot = true ->
                    holds w k (RBDVolumeProxy.__init__ (B:=B) self name pool
                                                       snapshot read_only))
                /\ drops w k (RBDVolumeProxy.__exit__ (B:=B))).

(** ** The rest of RBDImageIOWrapper *)

(** [rbd_image.flush()]: absent in old bindings, where the attribute
    lookup raises [AttributeError]. *)
Class ImageFlush (I : Type) : Type := {
  image_flush : I -> result exn I
}.

Module RBDImageIOWrapperCalls.
Import RBDImageIOWrapper.
Section Calls.
Context {I : Type} `{ImageAPI I}.

(** [flush()]: an [AttributeError] of the image is logged and dropped.
    The log line reads the version from the module-level [rbd], which is
    [None] when the import failed: the handler then raises
    [AttributeError] itself. *)
Definition flush {F : ImageFlush I} (rbd_module_imported : bool) (self : t I)
  : result exn unit * t I :=
  match image_flush (rbd_image self) with
  | Ok img =>
      (Ok tt, {| rbd_image := img; _offset := _offset self;
                 volume := volume self |})
  | Err (AttributeError _) =>
      if rbd_module_imported then (Ok tt, self)
      else (Err (AttributeError "RBD"), self)
  | Err e => (Err e, self)
  end.

Definition fileno (self : t I) : result exn Z :=
  Err (IOError "fileno() not supported by RBD()").

(** A caller's use of the stream: a sequence of calls, results dropped. *)
Inductive io_call : Type :=
| Read (length : option Z)
| Write (data : string)
| Seek (offset whence : Z).

Definition step (self : t I) (c : io_call) : t I :=
  match c with
  | Read length => snd (read self length)
  | Write data => snd (write self data)
  | Seek offset whence => snd (seek self offset whence)
  end.

Definition run_calls (self : t I) (calls : list io_call) : t I :=
  fold_left step calls self.

(** A call that does not ask to read a negative number of bytes. *)
Definition sane (c : io_call) : Prop :=
  match c with
  | Read (Some length) => 0 <= length
  | _ => True
  end.

End Calls.
End RBDImageIOWrapperCalls.

(** A binding without [flush]. *)
Definition old_librbd : ImageFlush mem_image :=
  {| image_flush := fun _ => Err (AttributeError "flush") |}.

(** ** RBDDriver._get_mon_addrs *)

(** [c in s] *)
Fixpoint has_char (c : ascii) (s : string) : bool :=
  match s with
  | EmptyString => false
  | String x rest => Ascii.eqb x c || has_char c rest
  end.

(** [sep.join(l)] *)
Fixpoint join_with (sep : string) (l : list string) : string :=
  match l with
  | [] => EmptyString
  | [x] => x
  | x :: rest => String.append x (String.append sep (join_with sep rest))
  end.

(** [s.rindex(c)]: the last position of [c], [None] for the
    [ValueError] of a missing one. *)
Fixpoint rindex (c : ascii) (s : string) : option nat :=
  match s with
  | EmptyString => None
  | String x rest =>
      match rindex c rest with
      | Some i => Some (S i)
      | None => if Ascii.eqb x c then Some O else None
      end
  end.

(** [s.rsplit(c, 1)] *)
Definition rsplit1 (c : ascii) (s : string) : list string :=
  match rindex c s with
  | None => [s]
  | Some i => [take i s; drop (S i) s]
  end.

(** [s.lstrip(chars)], [s.rstrip(chars)], [s.strip(chars)] *)
Fixpoint lstrip (chars : string) (s : string) : string :=
  match s with
  | EmptyString => EmptyString
  | String x rest => if has_char x chars then lstrip chars rest else s
  end.

Fixpoint rstrip (chars : string) (s : string) : string :=
  match s with
  | EmptyString => EmptyString
  | String x rest =>
      match rstrip chars rest with
      | EmptyString => if has_char x chars then EmptyString
                       else String x EmptyString
      | r => String x r
      end
  end.

Definition strip (chars : string) (s : string) : string :=
  rstrip chars (lstrip chars s).

Definition newline : ascii := "010"%char.

Definition banner : string := "dumped monmap epoch".

(** What is handed to [json.loads]: the output without its first line
    when that line is the banner. *)
Definition monmap_text (out : string) : string :=
  let lines := split newline out in
  let lines := if startswith banner (hd EmptyString lines) then tl lines
               else lines in
  join_with (String newline EmptyString) lines.

Definition ValueError : exn := OtherException "ValueError".

(** The body of the loop over the monitors' addresses. *)
Definition mon_host_port (addr : string) : result exn (string * string) :=
  match rindex "/" addr with
  | None => Err ValueError
  | Some i =>
      let host_port := take i addr in
      match rsplit1 ":" host_port with
      | [host; port] => Ok (strip "[]" host, port)
      | _ => Err ValueError
      end
  end.

Fixpoint mon_hosts_ports (addrs : list string)
  : result exn (list string * list string) :=
  match addrs with
  | [] => Ok ([], [])
  | addr :: rest =>
      match mon_host_port addr with
      | Err e => Err e
      | Ok (host, port) =>
          match mon_hosts_ports rest with
          | Err e => Err e
          | Ok (hosts, ports) => Ok (host :: hosts, port :: ports)
          end
      end
  end.

Section MonAddrs.
(** [self._execute] on the argument list, returning [(out, err)], and
    [[mon['addr'] for mon in json.loads(text)['mons']]]: the shell and
    the JSON parser are the driver's collaborators. *)
Variable _execute : list string -> result exn (string * string).
Variable json_mon_addrs : string -> result exn (list string).

Definition _get_mon_addrs (self : driver)
  : result exn (list string * list string) :=
  let args := ["ceph"; "mon"; "dump"; "--format=json"] ++ _ceph_args self in
  match _execute args with
  | Err e => Err e
  | Ok (out, _) =>
      match json_mon_addrs (monmap_text out) with
      | Err e => Err e
      | Ok addrs => mon_hosts_ports addrs
      end
  end.

(** [initialize_connection]: the connection information of a volume. *)
Record connection_data : Type := {
  cd_name : string;
  cd_hosts : list string;
  cd_ports : list string;
  cd_auth_enabled : bool;
  cd_auth_username : option string;
  cd_secret_type : string;
  cd_secret_uuid : option string
}.

Definition initialize_connection (self : driver) (volume : volume_ref)
  : result exn (string * connection_data) :=
  match _get_mon_addrs self with
  | Err e => Err e
  | Ok (hosts, ports) =>
      Ok ("rbd",
          {| cd_name := String.append (rbd_pool (conf self))
                          (String.append "/" (vol_name volume));
             cd_hosts := hosts;
             cd_ports := ports;
             cd_auth_enabled := match rbd_user (conf self) with
                                | Some _ => true
                                | None => false
                                end;
             cd_auth_username := rbd_user (conf self);
             cd_secret_type := "ceph";
             cd_secret_uuid := rbd_secret_uuid (conf self) |})
  end.

End MonAddrs.

(** A monitor dump with a banner. *)
Definition demo_dump : string :=
  String.append "dumped monmap epoch 1" (String newline "{}").

(** More inputs used below. *)
Definition volume_9 : volume_ref :=
  {| vol_name := "volume-9"; vol_size := 1; vol_id := "9" |}.

Definition snap_2 : snapshot_ref :=
  {| snap_volume_name := "volume-2"; snap_name := "snap-2" |}.

Definition volume_2_proxy : RBDVolumeProxy.t :=
  {| RBDVolumeProxy.volume :=
       {| image_ioctx := rbd_io 0; image_name := "volume-2";
          image_snapshot := None; image_read_only := false |};
     RBDVolumeProxy.driver_ := demo_driver;
     RBDVolumeProxy.client := 0;
     RBDVolumeProxy.ioctx_ := rbd_io 0 |}.

Definition volume_2_reader : RBDVolumeProxy.t :=
  {| RBDVolumeProxy.volume :=
       {| image_ioctx := rbd_io 0; image_name := "volume-2";
          image_snapshot := None; image_read_only := true |};
     RBDVolumeProxy.driver_ := demo_driver;
     RBDVolumeProxy.client := 0;
     RBDVolumeProxy.ioctx_ := rbd_io 0 |}.

Definition client_0 : RADOSClient.t :=
  {| RADOSClient.driver_ := demo_driver; RADOSClient.cluster := 0;
     RADOSClient.ioctx_ := rbd_io 0 |}.

(** An image service that cannot deliver the image. *)
Definition failing_fetch : Backend cluster := {|
  rados_Rados := rados_Rados (Backend:=cluster_backend);
  rados_connect := rados_connect (Backend:=cluster_backend);
  rados_open_ioctx := rados_open_ioctx (Backend:=cluster_backend);
  rados_shutdown := rados_shutdown (Backend:=cluster_backend);
  rados_get_fsid := rados_get_fsid (Backend:=cluster_backend);
  rados_get_cluster_stats := rados_get_cluster_stats (Backend:=cluster_backend);
  ioctx_close := ioctx_close (Backend:=cluster_backend);
  rbd_Image := rbd_Image (Backend:=cluster_backend);
  rbd_Image_close := rbd_Image_close (Backend:=cluster_backend);
  rbd_Image_call := rbd_Image_call (Backend:=cluster_backend);
  rbd_RBD_call := rbd_RBD_call (Backend:=cluster_backend);
  external := fun op cl =>
    match op with
    | Fetch_to_raw _ _ => (Err (OtherException "ImageNotFound"), cl)
    | Tmp_open _ => (Ok "/tmp/tmpfile", cl)
    | _ => (Ok "", cl)
    end
|}.

(** * The stream wrapper *)

Module StreamFacts.
Import RBDImageIOWrapper.

Section Seek.
Context {I : Type} `{ImageAPI I}.

Lemma seek_start (self : t I) (offset : Z) :
  0 <= offset -> seek self offset 0 = (Ok tt, set_offset self offset).
Proof.
  intros Hpos. unfold seek, new_offset. simpl.
  destruct (offset <? 0) eqn:E; [apply Z.ltb_lt in E; lia | reflexivity].
Qed.

Lemma seek_current (self : t I) (offset : Z) :
  0 <= _offset self + offset ->
  seek self offset 1 = (Ok tt, set_offset self (_offset self + offset)).
Proof.
  intros Hpos. unfold seek, new_offset. simpl.
  destruct (_offset self + offset <? 0) eqn:E;
    [apply Z.ltb_lt in E; lia | reflexivity].
Qed.

(** A failed [seek] leaves the wrapper as it was. *)
Lemma seek_failure_keeps_state (self self' : t I) (offset whence : Z) (e : exn) :
  seek self offset whence = (Err e, self') -> self' = self.
Proof.
  unfold seek. destruct (new_offset self offset whence) as [n|e'].
  - destruct (n <? 0); intros Heq; inversion Heq; reflexivity.
  - intros Heq; inversion Heq; reflexivity.
Qed.

Lemma new_offset_unknown_whence (self : t I) (offset whence : Z) :
  whence <> 0 -> whence <> 1 -> whence <> 2 ->
  new_offset self offset whence
  = Err (IOError (String.append "Invalid argument - whence="
                    (String.append (decimal whence) " not supported"))).
Proof.
  intros H0 H1 H2. unfold new_offset.
  destruct (whence =? 0) eqn:E0; [apply Z.eqb_eq in E0; contradiction|].
  destruct (whence =? 1) eqn:E1; [apply Z.eqb_eq in E1; contradiction|].
  destruct (whence =? 2) eqn:E2; [apply Z.eqb_eq in E2; contradiction|].
  reflexivity.
Qed.

Lemma seek_unknown_whence (self : t I) (offset whence : Z) :
  whence <> 0 -> whence <> 1 -> whence <> 2 ->
  seek self offset whence
  = (Err (IOError (String.append "Invalid argument - whence="
                     (String.append (decimal whence) " not supported"))),
     self).
Proof.
  intros H0 H1 H2. unfold seek.
  rewrite new_offset_unknown_whence by assumption. reflexivity.
Qed.

Lemma seek_start_negative (self : t I) (offset : Z) :
  offset < 0 -> seek self offset 0 = (Err (IOError "Invalid argument"), self).
Proof.
  intros Hneg. unfold seek, new_offset. simpl.
  apply Z.ltb_lt in Hneg. rewrite Hneg. reflexivity.
Qed.

Lemma seek_current_negative (self : t I) (offset : Z) :
  _offset self + offset < 0 ->
  seek self offset 1 = (Err (IOError "Invalid argument"), self).
Proof.
  intros Hneg. unfold seek, new_offset. simpl.
  apply Z.ltb_lt in Hneg. rewrite Hneg. reflexivity.
Qed.

(** On a wrapper as [__init__] builds it, [whence == 2] gets as far as
    [self.volume] and no further. *)
Lemma seek_end_without_volume (img : I) (offset : Z) :
  seek (__init__ img) offset 2
  = (Err (AttributeError "volume"), __init__ img).
Proof. reflexivity. Qed.

End Seek.

Section Read.
Context {I : Type} `{ImageAPI I}.

(** At the end of the image [read] returns the empty string and does
    not touch the image. *)
Lemma read_at_end (self : t I) (length : option Z) (total : Z) :
  image_size (rbd_image self) = Ok total ->
  _offset self = total ->
  read self length = (Ok "", self).
Proof.
  intros Hsize Hoff. unfold read. rewrite Hsize, Hoff, Z.eqb_refl.
  reflexivity.
Qed.

(** Inside the image, the request is the remaining bytes when no length
    is given, and at most the remaining bytes otherwise. *)
Lemma read_request_in_range (self : t I) (length : option Z) (total : Z) :
  image_size (rbd_image self) = Ok total ->
  0 <= _offset self < total ->
  read_request self length
  = Some (match length with
          | None => total - _offset self
          | Some l => if _offset self + l >? total
                      then total - _offset self else l
          end).
Proof.
  intros Hsize Hoff. unfold read_request. rewrite Hsize.
  destruct (_offset self =? total) eqn:E; [apply Z.eqb_eq in E; lia|].
  destruct length as [l|]; [reflexivity|].
  destruct (_offset self + total >? total) eqn:G.
  - reflexivity.
  - rewrite Z.gtb_ltb in G. apply Z.ltb_ge in G. f_equal. lia.
Qed.

(** [read] moves the offset by its request and passes the old offset
    and the request to the image. *)
Lemma read_moves_by_request (self : t I) (length : option Z) (n : Z) :
  read_request self length = Some n ->
  read self length
  = (image_read (rbd_image self) (_offset self) n, _inc_offset self n).
Proof.
  unfold read_request, read.
  destruct (image_size (rbd_image self)) as [total|e]; [|discriminate].
  destruct (_offset self =? total); [discriminate|].
  intros Heq. inversion Heq. reflexivity.
Qed.

(** Inside the image, with a non-negative length and an image that
    returns what it is asked for, the offset advances by the number of
    bytes returned. *)
Lemma read_advances_by_returned (self self' : t I) (length : option Z)
      (total : Z) (data : string) :
  (forall off len d, image_read (rbd_image self) off len = Ok d ->
                     Z.of_nat (String.length d) = len) ->
  image_size (rbd_image self) = Ok total ->
  0 <= _offset self <= total ->
  read self length = (Ok data, self') ->
  _offset self' = _offset self + Z.of_nat (String.length data).
Proof.
  intros Hexact Hsize Hoff Hread.
  destruct (Z.eq_dec (_offset self) total) as [Heq|Hne].
  - rewrite (read_at_end self length total Hsize Heq) in Hread.
    inversion Hread. subst. simpl. lia.
  - assert (Hin : 0 <= _offset self < total) by lia.
    pose proof (read_request_in_range self length total Hsize Hin) as Hreq.
    rewrite (read_moves_by_request _ _ _ Hreq) in Hread.
    inversion Hread as [[Hd Hs]]. simpl.
    apply Hexact in Hd. rewrite Hd. reflexivity.
Qed.

(** Past the end of the image the request is negative, whatever the
    image: [read] only looks for [offset == total]. *)
Lemma read_request_past_end (self : t I) (length : option Z) (total : Z) :
  image_size (rbd_image self) = Ok total ->
  0 <= total < _offset self ->
  (forall l, length = Some l -> 0 <= l) ->
  read_request self length = Some (total - _offset self)
  /\ total - _offset self < 0.
Proof.
  intros Hsize Hoff Hlen. split; [|lia]. unfold read_request. rewrite Hsize.
  destruct (_offset self =? total) eqn:E; [apply Z.eqb_eq in E; lia|].
  destruct length as [l|].
  - specialize (Hlen l eq_refl).
    destruct (_offset self + l >? total) eqn:G; [reflexivity|].
    rewrite Z.gtb_ltb in G. apply Z.ltb_ge in G. lia.
  - destruct (_offset self + total >? total) eqn:G; [reflexivity|].
    rewrite Z.gtb_ltb in G. apply Z.ltb_ge in G. lia.
Qed.

End Read.

(** C9: [seek] raises [IOError] for a [whence] other than 0, 1 and 2,
    and for a negative offset computed from [whence] 0 or 1, and a [seek]
    that raises leaves the wrapper, and so its offset, unchanged.  But
    with [whence == 2] a wrapper as [__init__] builds it raises
    [AttributeError], whatever the offset: [seek(-100, 2)] on a ten-byte
    image, whose resulting offset would be negative, is not answered with
    an input error.  On a wrapper that was given a [volume] attribute,
    [seek(-10, 2)] on that image raises [IOError] although size plus
    offset is 0, and [seek(-9, 2)] goes to offset 0. *)
Theorem seek_end_not_an_input_error :
  (forall (I : Type) (api : ImageAPI I) (self : t I) (offset whence : Z),
      whence <> 0 -> whence <> 1 -> whence <> 2 ->
      seek self offset whence
      = (Err (IOError (String.append "Invalid argument - whence="
                         (String.append (decimal whence) " not supported"))),
         self))
  /\ (forall (I : Type) (api : ImageAPI I) (self : t I) (offset : Z),
        offset < 0 ->
        seek self offset 0 = (Err (IOError "Invalid argument"), self))
  /\ (forall (I : Type) (api : ImageAPI I) (self : t I) (offset : Z),
        _offset self + offset < 0 ->
        seek self offset 1 = (Err (IOError "Invalid argument"), self))
  /\ (forall (I : Type) (api : ImageAPI I) (self self' : t I)
             (offset whence : Z) (e : exn),
        seek self offset whence = (Err e, self') ->
        self' = self /\ _offset self' = _offset self)
  /\ (forall (I : Type) (api : ImageAPI I) (img : I) (offset : Z),
        seek (__init__ img) offset 2
        = (Err (AttributeError "volume"), __init__ img))
  /\ image_size ten_bytes = Ok 10
  /\ seek (__init__ ten_bytes) (-100) 2
     = (Err (AttributeError "volume"), mk ten_bytes 0 None)
  /\ seek (mk ten_bytes 0 (Some ten_bytes)) (-10) 2
     = (Err (IOError "Invalid argument"), mk ten_bytes 0 (Some ten_bytes))
  /\ seek (mk ten_bytes 5 (Some ten_bytes)) (-9) 2
     = (Ok tt, mk ten_bytes 0 (Some ten_bytes)).
Proof.
  split; [|split; [|split; [|split; [|split]]]].
  - intros I api self offset whence. apply seek_unknown_whence.
  - intros I api self offset. apply seek_start_negative.
  - intros I api self offset. apply seek_current_negative.
  - intros I api self self' offset whence e Hseek.
    apply seek_failure_keeps_state in Hseek. subst. split; reflexivity.
  - intros I api img offset. apply seek_end_without_volume.
  - repeat split.
Qed.

(** C9, on a ten-byte image: an unknown origin, a negative absolute
    offset, a negative relative offset, and the unchanged offset. *)
Lemma seek_end_not_an_input_error_witness :
  seek (__init__ ten_bytes) 0 7
  = (Err (IOError "Invalid argument - whence=7 not supported"),
     __init__ ten_bytes)
  /\ seek (__init__ ten_bytes) (-1) 0
     = (Err (IOError "Invalid argument"), __init__ ten_bytes)
  /\ seek (mk ten_bytes 2 None) (-3) 1
     = (Err (IOError "Invalid argument"), mk ten_bytes 2 None)
  /\ _offset (snd (seek (mk ten_bytes 2 None) (-3) 1)) = 2.
Proof.
  pose proof seek_end_not_an_input_error as [Hw [H0 [H1 [Hk _]]]].
  assert (Hrel : seek (mk ten_bytes 2 None) (-3) 1
                 = (Err (IOError "Invalid argument"), mk ten_bytes 2 None)).
  { apply (H1 mem_image mem_image_api (mk ten_bytes 2 None) (-3)).
    simpl. lia. }
  split; [|split; [|split]].
  - apply (Hw mem_image mem_image_api (__init__ ten_bytes) 0 7); lia.
  - apply (H0 mem_image mem_image_api (__init__ ten_bytes) (-1)). lia.
  - exact Hrel.
  - destruct (Hk mem_image mem_image_api _ _ _ _ _ Hrel) as [Heq _].
    rewrite Hrel. reflexivity.
Defined.

(** C2: [seek(offset, 2)] on a wrapper as [__init__] builds it raises
    [AttributeError] and leaves the position where it was, because the
    method reads [self.volume], which the class never sets; and on a
    wrapper that was given a [volume] attribute the position becomes
    [size - 1 + offset], not [size + offset]: on a ten-byte image
    [seek(0, 2)] ends at 9. *)
Theorem seek_end_misses_size :
  (forall (I : Type) (api : ImageAPI I) (img : I) (offset : Z),
      seek (__init__ img) offset 2
      = (Err (AttributeError "volume"), __init__ img))
  /\ seek (__init__ ten_bytes) 0 2
     = (Err (AttributeError "volume"), mk ten_bytes 0 None)
  /\ image_size ten_bytes = Ok 10
  /\ seek (mk ten_bytes 0 (Some ten_bytes)) 0 2
     = (Ok tt, mk ten_bytes 9 (Some ten_bytes)).
Proof.
  repeat split.
Qed.

(** C3: on a two-byte image, after [seek(3, 0)] the wrapper sits at
    offset 3; [read()] then asks the image for [-1] bytes at offset 3 and
    moves the offset back to 2, while nothing is returned. *)
Theorem read_past_end_moves_backwards :
  seek (__init__ two_bytes) 3 0 = (Ok tt, mk two_bytes 3 None)
  /\ image_size two_bytes = Ok 2
  /\ read_request (mk two_bytes 3 None) None = Some (-1)
  /\ read (mk two_bytes 3 None) None
     = (Err (RbdError InvalidArgument), mk two_bytes 2 None)
  /\ read (mk two_bytes 3 None) (Some 1)
     = (Err (RbdError InvalidArgument), mk two_bytes 2 None).
Proof.
  repeat split.
Qed.

End StreamFacts.


(** * Location parsing *)

Module LocationFacts.

Lemma split_not_nil (sep : ascii) (s : string) : split sep s <> [].
Proof.
  destruct s as [|c rest]; simpl; [discriminate|].
  destruct (Ascii.eqb c sep); [discriminate|].
  destruct (split sep rest); discriminate.
Qed.

(** Splitting at a separator splits what is on either side of it. *)
Lemma split_app (sep : ascii) (a r : string) :
  split sep (String.append a (String sep r)) = split sep a ++ split sep r.
Proof.
  induction a as [|c a IH]; simpl.
  - rewrite Ascii.eqb_refl. reflexivity.
  - destruct (Ascii.eqb c sep); [rewrite IH; reflexivity|].
    rewrite IH. destruct (split sep a) eqn:E; [|reflexivity].
    exfalso. exact (split_not_nil _ _ E).
Qed.

Lemma append_empty (a b : string) :
  String.append a b = "" -> a = "" /\ b = "".
Proof.
  destruct a; simpl; [intros ->; split; reflexivity | discriminate].
Qed.

Lemma unquote_item_not_empty (item : string) : unquote_item item <> "".
Proof.
  unfold unquote_item. destruct (_hextochr (take 2 item)); discriminate.
Qed.

(** Decoding never empties a component: every ['%'] leaves at least one
    character behind. *)
Lemma unquote_empty_iff (s : string) : unquote s = "" <-> s = "".
Proof.
  split; [|intros ->; reflexivity].
  unfold unquote. destruct (split "%" s) as [|first [|item items]] eqn:E;
    try (intros; assumption).
  simpl. intros Happ. apply append_empty in Happ as [_ Hjoin].
  apply append_empty in Hjoin as [Hitem _].
  exfalso. exact (unquote_item_not_empty _ Hitem).
Qed.

Lemma blank_after_decoding (l : list string) :
  existsb (fun p => String.eqb p "") (map unquote l) = true <-> In "" l.
Proof.
  rewrite existsb_exists. split.
  - intros (p & Hin & Heq). apply in_map_iff in Hin as (q & Hq & Hin).
    apply String.eqb_eq in Heq. subst p.
    apply (proj1 (unquote_empty_iff q)) in Heq. subst q. exact Hin.
  - intros Hin. exists "". split; [|reflexivity].
    apply in_map_iff. exists "". split; [reflexivity|exact Hin].
Qed.

Lemma four_elements {A} (l : list A) :
  List.length l = 4%nat -> exists a b c d, l = [a; b; c; d].
Proof.
  destruct l as [|a [|b [|c [|d [|e l]]]]]; try discriminate.
  intros _. exists a, b, c, d. reflexivity.
Qed.

(** The three checks of [_parse_location], in the order the code makes
    them. *)
Lemma _parse_location_cases (location : string) :
  (startswith prefix location = false
   /\ _parse_location location
      = Err (ImageUnacceptable location "Not stored in rbd"))
  \/ (startswith prefix location = true /\ In "" (components location)
      /\ _parse_location location
         = Err (ImageUnacceptable location "Blank components"))
  \/ (startswith prefix location = true /\ ~ In "" (components location)
      /\ List.length (components location) <> 4%nat
      /\ _parse_location location
         = Err (ImageUnacceptable location "Not an rbd snapshot"))
  \/ (startswith prefix location = true /\ ~ In "" (components location)
      /\ List.length (components location) = 4%nat
      /\ _parse_location location = Ok (map unquote (components location))).
Proof.
  unfold _parse_location.
  destruct (startswith prefix location) eqn:Hp; simpl; [|left; auto].
  right.
  destruct (existsb _ (map unquote (components location))) eqn:Hblank.
  - left. apply blank_after_decoding in Hblank. auto.
  - right.
    assert (Hno : ~ In "" (components location)).
    { intros Hin. apply blank_after_decoding in Hin. congruence. }
    rewrite length_map.
    destruct (Nat.eqb (List.length (components location)) 4) eqn:Hlen; simpl.
    + right. apply Nat.eqb_eq in Hlen. auto.
    + left. apply Nat.eqb_neq in Hlen. auto.
Qed.

(** C5: [_parse_location] raises [ImageUnacceptable] exactly when the
    location lacks the ['rbd://'] prefix, or one of its path components
    is empty, or it does not have exactly four of them; it raises nothing
    else; and otherwise it returns the four components (decoded). *)
Theorem _parse_location_rejects_iff (location : string) :
  ((exists image_id reason,
       _parse_location location = Err (ImageUnacceptable image_id reason))
   <-> (startswith prefix location = false
        \/ In "" (components location)
        \/ List.length (components location) <> 4%nat))
  /\ (forall e, _parse_location location = Err e ->
                exists reason, e = ImageUnacceptable location reason)
  /\ (startswith prefix location = true ->
      ~ In "" (components location) ->
      List.length (components location) = 4%nat ->
      exists a b c d,
        components location = [a; b; c; d]
        /\ _parse_location location
           = Ok [unquote a; unquote b; unquote c; unquote d]).
Proof.
  pose proof (_parse_location_cases location) as Hcases.
  split; [split|split].
  - intros (image_id & reason & Herr).
    destruct Hcases as [(Hp & _)|[(_ & Hin & _)|[(_ & _ & Hlen & _)|(_ & _ & _ & Hok)]]];
      auto.
    rewrite Hok in Herr. discriminate.
  - intros Hbad.
    destruct Hcases as [(_ & Hr)|[(_ & _ & Hr)|[(_ & _ & _ & Hr)|(Hp & Hno & Hlen & _)]]];
      try (eexists; eexists; exact Hr).
    destruct Hbad as [Hb|[Hb|Hb]]; [congruence|contradiction|contradiction].
  - intros e He.
    destruct Hcases as [(_ & Hr)|[(_ & _ & Hr)|[(_ & _ & _ & Hr)|(_ & _ & _ & Hr)]]];
      rewrite Hr in He; inversion He; eexists; reflexivity.
  - intros Hp Hno Hlen.
    destruct (four_elements _ Hlen) as (a & b & c & d & Hcomp).
    exists a, b, c, d. split; [exact Hcomp|].
    destruct Hcases as [(Hp' & _)|[(_ & Hin & _)|[(_ & _ & Hlen' & _)|(_ & _ & _ & Hr)]]];
      try congruence; try contradiction.
    rewrite Hr, Hcomp. reflexivity.
Qed.

(** C5, both ways on concrete locations: three components are rejected,
    and four non-empty ones come back. *)
Lemma _parse_location_rejects_iff_witness :
  (exists image_id reason,
      _parse_location "rbd://abc/pool/image"
      = Err (ImageUnacceptable image_id reason))
  /\ (exists a b c d,
         components "rbd://abc/pool/image/snap" = [a; b; c; d]
         /\ _parse_location "rbd://abc/pool/image/snap"
            = Ok [unquote a; unquote b; unquote c; unquote d]).
Proof.
  split.
  - apply (proj2 (proj1 (_parse_location_rejects_iff "rbd://abc/pool/image"))).
    right. right. vm_compute. discriminate.
  - apply (proj2 (proj2 (_parse_location_rejects_iff
                           "rbd://abc/pool/image/snap"))).
    + reflexivity.
    + vm_compute. intros [H|[H|[H|[H|[]]]]]; discriminate.
    + reflexivity.
Defined.

Lemma join_keeps_separator (l rest : list string) (item y0 : string) :
  unquote_item item = String "/" y0 ->
  exists x y,
    join (map unquote_item (l ++ item :: rest))
    = String.append x (String "/" y).
Proof.
  intros Hitem. induction l as [|i l IH]; cbn [app map join].
  - rewrite Hitem. exists "", (String.append y0 (join (map unquote_item rest))).
    reflexivity.
  - destruct IH as (x & y & IH). rewrite IH.
    exists (String.append (unquote_item i) x), y.
    clear. induction (unquote_item i) as [|c u IHu]; cbn [String.append].
    + reflexivity.
    + rewrite IHu. reflexivity.
Qed.

(** ['%2F'] decodes to a ['/'] wherever it stands in a component. *)
Lemma unquote_encoded_separator (a b : string) :
  exists x y,
    unquote (String.append a (String.append "%2F" b))
    = String.append x (String "/" y).
Proof.
  unfold unquote.
  change (String.append "%2F" b)
    with (String "%"%char (String "2" (String "F" b))).
  rewrite split_app.
  assert (Hb : exists b0 rest,
             split "%" (String "2" (String "F" b))
             = String "2" (String "F" b0) :: rest).
  { cbn [split]. change (Ascii.eqb "2" "%") with false.
    change (Ascii.eqb "F" "%") with false. cbv iota.
    destruct (split "%" b) as [|b0 rest] eqn:E.
    - exfalso. exact (split_not_nil _ _ E).
    - exists b0, rest. reflexivity. }
  destruct Hb as (b0 & rest & Hb). rewrite Hb.
  assert (Hitem : unquote_item (String "2" (String "F" b0)) = String "/" b0)
    by reflexivity.
  destruct (split "%" a) as [|first items] eqn:Ea.
  - exfalso. exact (split_not_nil _ _ Ea).
  - destruct (join_keeps_separator items rest _ _ Hitem) as (x & y & Hxy).
    assert (Hshape : exists i l, items ++ String "2" (String "F" b0) :: rest
                                 = i :: l).
    { destruct items as [|i l]; cbn [app]; eexists; eexists; reflexivity. }
    destruct Hshape as (i & l & Hshape).
    cbn [app]. rewrite Hshape, <- Hshape, Hxy.
    exists (String.append first x), y.
    clear. induction first as [|c u IHu]; cbn [String.append].
    + reflexivity.
    + rewrite IHu. reflexivity.
Qed.

(** C10: an accepted location's components are split on ['/'] first and
    then each is percent-decoded; the blank check and the count of four
    hold of the decoded strings; a location with the prefix and four
    non-empty raw components is accepted whatever escapes they hold; and
    a component holding ['%2F'] comes back as one component with a ['/']
    in it. *)
Theorem _parse_location_unquotes (location : string) :
  (forall pieces,
      _parse_location location = Ok pieces ->
      pieces = map unquote (components location)
      /\ List.length pieces = 4%nat
      /\ ~ In "" pieces)
  /\ (startswith prefix location = true ->
      List.length (components location) = 4%nat ->
      ~ In "" (components location) ->
      _parse_location location = Ok (map unquote (components location)))
  /\ (forall pieces i a b,
         _parse_location location = Ok pieces ->
         nth_error (components location) i
         = Some (String.append a (String.append "%2F" b)) ->
         exists x y, nth_error pieces i = Some (String.append x (String "/" y))).
Proof.
  pose proof (_parse_location_cases location) as Hcases.
  assert (Hok : forall pieces, _parse_location location = Ok pieces ->
                  pieces = map unquote (components location)
                  /\ List.length (components location) = 4%nat
                  /\ ~ In "" (components location)).
  { intros pieces Hp.
    destruct Hcases as [(_ & Hr)|[(_ & _ & Hr)|[(_ & _ & _ & Hr)|(_ & Hno & Hlen & Hr)]]];
      rewrite Hr in Hp; inversion Hp; auto. }
  split; [|split].
  - intros pieces Hp. destruct (Hok _ Hp) as (-> & Hlen & Hno).
    split; [reflexivity|]. split; [rewrite length_map; exact Hlen|].
    intros Hin. apply in_map_iff in Hin as (q & Hq & Hin).
    apply (proj1 (unquote_empty_iff q)) in Hq. subst q. contradiction.
  - intros Hp Hlen Hno.
    destruct Hcases as [(Hp' & _)|[(_ & Hin & _)|[(_ & _ & Hlen' & _)|(_ & _ & _ & Hr)]]];
      try congruence; contradiction.
  - intros pieces i a b Hp Hnth. destruct (Hok _ Hp) as (-> & _ & _).
    destruct (unquote_encoded_separator a b) as (x & y & Hxy).
    exists x, y. rewrite nth_error_map, Hnth. cbn [option_map]. rewrite Hxy. reflexivity.
Qed.

(** C10 on ['rbd://abc/pool/dir%2Fimage/snap']: accepted, four
    components, the third one ['dir/image']. *)
Lemma _parse_location_unquotes_witness :
  _parse_location "rbd://abc/pool/dir%2Fimage/snap"
  = Ok ["abc"; "pool"; "dir/image"; "snap"]
  /\ exists x y,
      nth_error ["abc"; "pool"; "dir/image"; "snap"] 2
      = Some (String.append x (String "/" y)).
Proof.
  pose proof (_parse_location_unquotes "rbd://abc/pool/dir%2Fimage/snap")
    as (_ & Haccept & Hsep).
  assert (Hrun : _parse_location "rbd://abc/pool/dir%2Fimage/snap"
                 = Ok ["abc"; "pool"; "dir/image"; "snap"]).
  { apply Haccept.
    - reflexivity.
    - reflexivity.
    - vm_compute. intros [H|[H|[H|[H|[]]]]]; discriminate. }
  split; [exact Hrun|].
  apply (Hsep _ 2%nat "dir" "image" Hrun). reflexivity.
Defined.

End LocationFacts.


(** * Connections *)

Lemma acquired_app (c : nat) (t1 t2 : list event) :
  acquired c (t1 ++ t2) = (acquired c t1 + acquired c t2)%nat.
Proof. unfold acquired. rewrite map_app, list_sum_app. reflexivity. Qed.

Lemma released_app (c : nat) (t1 t2 : list event) :
  released c (t1 ++ t2) = (released c t1 + released c t2)%nat.
Proof. unfold released. rewrite map_app, list_sum_app. reflexivity. Qed.

Lemma balanced_trace_nil : balanced_trace [].
Proof. intros c. reflexivity. Qed.

Lemma balanced_trace_app (t1 t2 : list event) :
  balanced_trace t1 -> balanced_trace t2 -> balanced_trace (t1 ++ t2).
Proof.
  intros H1 H2 c. rewrite acquired_app, released_app, (H1 c), (H2 c).
  reflexivity.
Qed.

(** * String conversion *)

(** A name converts: by computation for a [str], by hypothesis otherwise. *)
Ltac converts_ok := first [reflexivity | assumption].

Module StrFacts.

Lemma str_converts (t : text) : converts t = true -> str t = Ok (chars t).
Proof.
  unfold converts. destruct t as [s|s]; cbn; [reflexivity|].
  destruct (is_ascii s); [reflexivity|discriminate].
Qed.

Lemma str_fails (t : text) :
  converts t = false -> str t = Err UnicodeEncodeError.
Proof.
  unfold converts. destruct t as [s|s]; cbn; [discriminate|].
  destruct (is_ascii s); [discriminate|reflexivity].
Qed.

Lemma str_cases (t : text) :
  str t = Ok (chars t) \/ str t = Err UnicodeEncodeError.
Proof.
  destruct (converts t) eqn:E;
    [left; apply str_converts | right; apply str_fails]; exact E.
Qed.

Lemma ascii_str_converts (t : option text) :
  converts_opt t = true -> ascii_str t = Ok (option_map chars t).
Proof.
  destruct t as [x|]; cbn; [|reflexivity].
  intros Hx. rewrite (str_converts x Hx). reflexivity.
Qed.

Lemma ascii_str_fails (t : option text) :
  converts_opt t = false -> ascii_str t = Err UnicodeEncodeError.
Proof.
  destruct t as [x|]; cbn; [|discriminate].
  intros Hx. rewrite (str_fails x Hx). reflexivity.
Qed.

(** [pool or rbd_pool] converts when the pool does. *)
Lemma text_or_converts (pool : option text) (d : string) :
  converts_opt pool = true -> converts (text_or pool d) = true.
Proof.
  destruct pool as [x|]; cbn; [|reflexivity].
  destruct (String.eqb (chars x) ""); [reflexivity|auto].
Qed.

Lemma is_ascii_empty_iff (t : text) :
  chars t = "" -> converts t = true.
Proof. destruct t as [s|s]; cbn; intros ->; reflexivity. Qed.

Lemma text_or_fails (pool : option text) (d : string) :
  converts_opt pool = false -> converts (text_or pool d) = false.
Proof.
  destruct pool as [x|]; cbn; [|discriminate]. intros Hx.
  destruct (String.eqb (chars x) "") eqn:E; [|exact Hx].
  apply String.eqb_eq in E. rewrite (is_ascii_empty_iff x E) in Hx.
  discriminate.
Qed.

End StrFacts.

Module ConnectionFacts.
Section Facts.
Context {B : Type} `{Backend B}.

(** *** [_connect_to_rados], path by path *)

Lemma _connect_to_rados_constructor_raises self pool (s : state B) b1 :
  rados_Rados (rbd_user (conf self)) (rbd_ceph_conf (conf self)) (backend s)
  = (Err Rados_Error, b1) ->
  _connect_to_rados self pool s = (Err RadosError, with_backend s b1, []).
Proof.
  intros H1. unfold _connect_to_rados, bind, Rados. rewrite H1. reflexivity.
Qed.

Lemma _connect_to_rados_connect_raises self pool (s : state B) b1 b2 :
  let c := next_client s in
  rados_Rados (rbd_user (conf self)) (rbd_ceph_conf (conf self)) (backend s)
  = (Ok tt, b1) ->
  rados_connect c b1 = (Err Rados_Error, b2) ->
  _connect_to_rados self pool s
  = (Err RadosError,
     {| backend := rados_shutdown c b2; next_client := S c |},
     [EvConnect c false; EvShutdown c]).
Proof.
  intros c H1 H2.
  unfold _connect_to_rados, bind, try_except, Rados, connect, shutdown, raise.
  rewrite H1. cbn. fold c. rewrite H2. reflexivity.
Qed.

(** [str()] raises after [connect()] returned: the error is not a
    [rados.Error], so the handler does not run and the client is not
    shut down. *)
Lemma _connect_to_rados_str_raises self pool (s : state B) b1 b2 :
  let c := next_client s in
  rados_Rados (rbd_user (conf self)) (rbd_ceph_conf (conf self)) (backend s)
  = (Ok tt, b1) ->
  rados_connect c b1 = (Ok tt, b2) ->
  converts_opt pool = false ->
  _connect_to_rados self pool s
  = (Err UnicodeEncodeError,
     {| backend := b2; next_client := S c |},
     [EvConnect c true]).
Proof.
  intros c H1 H2 H3.
  apply (StrFacts.text_or_fails _ (rbd_pool (conf self))) in H3.
  apply StrFacts.str_fails in H3.
  unfold _connect_to_rados, bind, try_except, Rados, connect, eval.
  rewrite H1. cbn. fold c. rewrite H2. cbn. rewrite H3. reflexivity.
Qed.

Lemma _connect_to_rados_open_ioctx_raises self pool (s : state B) b1 b2 b3 :
  let c := next_client s in
  let pool_to_open := chars (text_or pool (rbd_pool (conf self))) in
  rados_Rados (rbd_user (conf self)) (rbd_ceph_conf (conf self)) (backend s)
  = (Ok tt, b1) ->
  rados_connect c b1 = (Ok tt, b2) ->
  converts_opt pool = true ->
  rados_open_ioctx c pool_to_open b2 = (Err Rados_Error, b3) ->
  _connect_to_rados self pool s
  = (Err RadosError,
     {| backend := rados_shutdown c b3; next_client := S c |},
     [EvConnect c true; EvOpenIoctx c pool_to_open false; EvShutdown c]).
Proof.
  intros c p H1 H2 Hp H3.
  apply (StrFacts.text_or_converts _ (rbd_pool (conf self))) in Hp.
  apply StrFacts.str_converts in Hp.
  unfold _connect_to_rados, bind, try_except, Rados, connect, open_ioctx,
    shutdown, raise, eval.
  rewrite H1. cbn. fold c. rewrite H2. cbn. rewrite Hp. cbn. fold p.
  rewrite H3. reflexivity.
Qed.

Lemma _connect_to_rados_succeeds self pool (s : state B) b1 b2 b3 :
  let c := next_client s in
  let pool_to_open := chars (text_or pool (rbd_pool (conf self))) in
  rados_Rados (rbd_user (conf self)) (rbd_ceph_conf (conf self)) (backend s)
  = (Ok tt, b1) ->
  rados_connect c b1 = (Ok tt, b2) ->
  converts_opt pool = true ->
  rados_open_ioctx c pool_to_open b2 = (Ok tt, b3) ->
  _connect_to_rados self pool s
  = (Ok (c, {| ioctx_client := c; ioctx_pool := pool_to_open |}),
     {| backend := b3; next_client := S c |},
     connect_trace c pool_to_open).
Proof.
  intros c p H1 H2 Hp H3.
  apply (StrFacts.text_or_converts _ (rbd_pool (conf self))) in Hp.
  apply StrFacts.str_converts in Hp.
  unfold _connect_to_rados, bind, try_except, Rados, connect, open_ioctx, ret,
    eval.
  rewrite H1. cbn. fold c. rewrite H2. cbn. rewrite Hp. cbn. fold p.
  rewrite H3. reflexivity.
Qed.

(** The five ways [_connect_to_rados] can go: the last one leaves the
    client connected. *)
Lemma _connect_to_rados_cases self pool (s : state B) :
  let c := next_client s in
  let pool_to_open := chars (text_or pool (rbd_pool (conf self))) in
  let x := _connect_to_rados self pool s in
  (outcome x = Err RadosError /\ trace x = [])
  \/ (outcome x = Err RadosError /\ trace x = [EvConnect c false; EvShutdown c])
  \/ (outcome x = Err RadosError
      /\ trace x = [EvConnect c true; EvOpenIoctx c pool_to_open false;
                    EvShutdown c])
  \/ (outcome x = Ok (c, {| ioctx_client := c; ioctx_pool := pool_to_open |})
      /\ trace x = connect_trace c pool_to_open)
  \/ (converts_opt pool = false
      /\ outcome x = Err UnicodeEncodeError /\ trace x = [EvConnect c true]).
Proof.
  intros c p x. subst x.
  destruct (rados_Rados (rbd_user (conf self)) (rbd_ceph_conf (conf self))
              (backend s)) as [[[]|[]] b1] eqn:H1.
  2:{ left. rewrite (_connect_to_rados_constructor_raises _ _ _ _ H1). auto. }
  destruct (rados_connect c b1) as [[[]|[]] b2] eqn:H2.
  2:{ right; left.
      rewrite (_connect_to_rados_connect_raises _ _ _ _ _ H1 H2). auto. }
  destruct (converts_opt pool) eqn:Hp.
  2:{ do 4 right.
      rewrite (_connect_to_rados_str_raises _ _ _ _ _ H1 H2 Hp). auto. }
  destruct (rados_open_ioctx c p b2) as [[[]|[]] b3] eqn:H3.
  - right; right; right; left.
    rewrite (_connect_to_rados_succeeds _ _ _ _ _ _ H1 H2 Hp H3). auto.
  - right; right; left.
    rewrite (_connect_to_rados_open_ioctx_raises _ _ _ _ _ _ H1 H2 Hp H3).
    auto.
Qed.

(** With a pool name that converts, the four ways that release the
    client or return it. *)
Lemma _connect_to_rados_cases_converts self pool (s : state B) :
  converts_opt pool = true ->
  let c := next_client s in
  let pool_to_open := chars (text_or pool (rbd_pool (conf self))) in
  let x := _connect_to_rados self pool s in
  (outcome x = Err RadosError /\ trace x = [])
  \/ (outcome x = Err RadosError /\ trace x = [EvConnect c false; EvShutdown c])
  \/ (outcome x = Err RadosError
      /\ trace x = [EvConnect c true; EvOpenIoctx c pool_to_open false;
                    EvShutdown c])
  \/ (outcome x = Ok (c, {| ioctx_client := c; ioctx_pool := pool_to_open |})
      /\ trace x = connect_trace c pool_to_open).
Proof.
  intros Hp c p x.
  destruct (_connect_to_rados_cases self pool s)
    as [Hc|[Hc|[Hc|[Hc|[Hn _]]]]]; auto.
  rewrite Hp in Hn. discriminate.
Qed.

Lemma _disconnect_from_rados_run self c io (s : state B) :
  _disconnect_from_rados self c io s
  = (Ok tt,
     with_backend s (rados_shutdown c (ioctx_close io (backend s))),
     disconnect_trace c io).
Proof. reflexivity. Qed.

(** *** [RBDVolumeProxy] *)

Lemma proxy_init_image_raises self name pool snapshot read_only
      (s s1 : state B) c io t1 e b2 :
  let img := {| image_ioctx := io; image_name := chars name;
                image_snapshot := option_map chars snapshot;
                image_read_only := read_only |} in
  _connect_to_rados self pool s = (Ok (c, io), s1, t1) ->
  converts name = true -> converts_opt snapshot = true ->
  rbd_Image img (backend s1) = (Err e, b2) ->
  RBDVolumeProxy.__init__ self name pool snapshot read_only s
  = (Err (RbdError e),
     with_backend s1 (rados_shutdown c (ioctx_close io b2)),
     t1 ++ [EvImageOpen img (Some e); EvIoctxClose io; EvShutdown c]).
Proof.
  intros img H1 Hn Hs H2.
  apply StrFacts.str_converts in Hn. apply StrFacts.ascii_str_converts in Hs.
  unfold RBDVolumeProxy.__init__, bind. rewrite H1. cbn.
  unfold try_except, eval. rewrite Hn, Hs. cbn.
  unfold Image. fold img. rewrite H2. cbn.
  rewrite ?app_nil_r. reflexivity.
Qed.

Lemma proxy_init_succeeds self name pool snapshot read_only
      (s s1 : state B) c io t1 b2 :
  let img := {| image_ioctx := io; image_name := chars name;
                image_snapshot := option_map chars snapshot;
                image_read_only := read_only |} in
  _connect_to_rados self pool s = (Ok (c, io), s1, t1) ->
  converts name = true -> converts_opt snapshot = true ->
  rbd_Image img (backend s1) = (Ok tt, b2) ->
  RBDVolumeProxy.__init__ self name pool snapshot read_only s
  = (Ok {| RBDVolumeProxy.volume := img; RBDVolumeProxy.driver_ := self;
           RBDVolumeProxy.client := c; RBDVolumeProxy.ioctx_ := io |},
     with_backend s1 b2,
     t1 ++ [EvImageOpen img None]).
Proof.
  intros img H1 Hn Hs H2.
  apply StrFacts.str_converts in Hn. apply StrFacts.ascii_str_converts in Hs.
  unfold RBDVolumeProxy.__init__, bind. rewrite H1. cbn.
  unfold try_except, eval. rewrite Hn, Hs. cbn.
  unfold Image. fold img. rewrite H2. cbn.
  rewrite ?app_nil_r. reflexivity.
Qed.

(** [str(name)] or [ascii_str(snapshot)] raises: the error is not a
    [rbd.Error], so the handler does not run and the connection just
    made stays open. *)
Lemma proxy_init_str_raises self name pool snapshot read_only
      (s s1 : state B) c io t1 :
  _connect_to_rados self pool s = (Ok (c, io), s1, t1) ->
  converts name && converts_opt snapshot = false ->
  RBDVolumeProxy.__init__ self name pool snapshot read_only s
  = (Err UnicodeEncodeError, s1, t1).
Proof.
  intros H1 Hn.
  unfold RBDVolumeProxy.__init__, bind. rewrite H1. cbn.
  unfold try_except, eval.
  destruct (converts name) eqn:En.
  - cbn in Hn. rewrite (StrFacts.str_converts _ En),
      (StrFacts.ascii_str_fails _ Hn). cbn. rewrite ?app_nil_r. reflexivity.
  - rewrite (StrFacts.str_fails _ En). cbn. rewrite ?app_nil_r. reflexivity.
Qed.

Lemma proxy_init_connect_raises self name pool snapshot read_only
      (s s1 : state B) e t1 :
  _connect_to_rados self pool s = (Err e, s1, t1) ->
  RBDVolumeProxy.__init__ self name pool snapshot read_only s
  = (Err e, s1, t1).
Proof.
  intros H1. unfold RBDVolumeProxy.__init__, bind. rewrite H1. reflexivity.
Qed.

(** [__exit__] closes the image, then the pool handle, then the
    client, whatever the image's [close()] does. *)
Lemma proxy_exit_run (p : RBDVolumeProxy.t) (s : state B) :
  let r := rbd_Image_close (RBDVolumeProxy.volume p) (backend s) in
  RBDVolumeProxy.__exit__ p s
  = (lift_rbd (fst r),
     with_backend s
       (rados_shutdown (RBDVolumeProxy.client p)
          (ioctx_close (RBDVolumeProxy.ioctx_ p) (snd r))),
     [EvImageClose (RBDVolumeProxy.volume p) (error_of (fst r));
      EvIoctxClose (RBDVolumeProxy.ioctx_ p);
      EvShutdown (RBDVolumeProxy.client p)]).
Proof.
  cbv zeta. unfold RBDVolumeProxy.__exit__, try_finally, Image_close.
  destruct (rbd_Image_close (RBDVolumeProxy.volume p) (backend s))
    as [[[]|e] b1]; reflexivity.
Qed.

End Facts.
End ConnectionFacts.


(** * Every operation releases what it acquires *)

Module BalanceFacts.
Section Facts.
Context {B : Type} `{Backend B}.

Lemma balanced_ret {A} (a : A) : balanced (ret (B:=B) a).
Proof. intros s c. reflexivity. Qed.

Lemma balanced_raise {A} (e : exn) : balanced (raise (B:=B) (A:=A) e).
Proof. intros s c. reflexivity. Qed.

Lemma balanced_bind {A C} (m : M B A) (f : A -> M B C) :
  balanced m -> (forall a, balanced (f a)) -> balanced (bind m f).
Proof.
  intros Hm Hf s. unfold bind, trace.
  pose proof (Hm s) as Hms. unfold trace in Hms.
  destruct (m s) as [[[a|e] s1] t1]; cbn [fst snd] in *; [|exact Hms].
  pose proof (Hf a s1) as Hfs. unfold trace in Hfs.
  destruct (f a s1) as [[r s2] t2]; cbn [fst snd] in *.
  apply balanced_trace_app; assumption.
Qed.

Lemma balanced_try_except {A} (m : M B A) (handler : exn -> option (M B A)) :
  balanced m ->
  (forall e h, handler e = Some h -> balanced h) ->
  balanced (try_except m handler).
Proof.
  intros Hm Hh s. unfold try_except, trace.
  pose proof (Hm s) as Hms. unfold trace in Hms.
  destruct (m s) as [[[a|e] s1] t1]; cbn [fst snd] in *; [exact Hms|].
  destruct (handler e) as [h|] eqn:He; cbn [fst snd]; [|exact Hms].
  pose proof (Hh e h He s1) as Hhs. unfold trace in Hhs.
  destruct (h s1) as [[r s2] t2]; cbn [fst snd] in *.
  apply balanced_trace_app; assumption.
Qed.

Lemma balanced_try_finally {A} (m : M B A) (fin : M B unit) :
  balanced m -> balanced fin -> balanced (try_finally m fin).
Proof.
  intros Hm Hf s. unfold try_finally, trace.
  pose proof (Hm s) as Hms. unfold trace in Hms.
  destruct (m s) as [[r s1] t1]; cbn [fst snd] in *.
  pose proof (Hf s1) as Hfs. unfold trace in Hfs.
  destruct (fin s1) as [[[[]|e] s2] t2]; cbn [fst snd] in *;
    apply balanced_trace_app; assumption.
Qed.

(** A [with] block whose manager opens one connection and whose
    [__exit__] closes that one is balanced when its body is. *)
Lemma balanced_with {R A} (key : R -> nat) (enter : M B R)
      (exit : R -> M B unit) (body : R -> M B A) :
  opens key enter -> closes key exit ->
  (forall r, balanced (body r)) ->
  balanced (with_ enter exit body).
Proof.
  intros Ho Hc Hb s. unfold with_, bind, try_finally, trace.
  pose proof (Ho s) as Hos. unfold outcome, trace in Hos.
  destruct (enter s) as [[[r|e] s1] t1]; cbn [fst snd] in *; [|exact Hos].
  pose proof (Hb r s1) as Hbs. unfold trace in Hbs.
  destruct (body r s1) as [[rb s2] t2]; cbn [fst snd] in *.
  pose proof (Hc r s2) as Hcs. unfold trace in Hcs.
  destruct (exit r s2) as [[[[]|e] s3] t3]; cbn [fst snd] in *; intros c;
    rewrite !acquired_app, !released_app, (Hos c), (Hbs c), <- (Hcs c); lia.
Qed.

(** A [with] block over a manager that touches no connection. *)
Lemma balanced_with_plain {R A} (enter : M B R) (exit : R -> M B unit)
      (body : R -> M B A) :
  balanced enter -> (forall r, balanced (exit r)) ->
  (forall r, balanced (body r)) ->
  balanced (with_ enter exit body).
Proof.
  intros He Hx Hb. unfold with_. apply balanced_bind; [exact He|].
  intros r. apply balanced_try_finally; auto.
Qed.

(** *** The backend calls other than connect and shutdown *)

Lemma balanced_get_fsid c : balanced (get_fsid (B:=B) c).
Proof.
  intros s c'. unfold get_fsid, trace.
  destruct (rados_get_fsid c (backend s)); reflexivity.
Qed.

Lemma balanced_get_cluster_stats c : balanced (get_cluster_stats (B:=B) c).
Proof.
  intros s c'. unfold get_cluster_stats, trace.
  destruct (rados_get_cluster_stats c (backend s)); reflexivity.
Qed.

Lemma balanced_Image_call img op : balanced (Image_call (B:=B) img op).
Proof.
  intros s c'. unfold Image_call, trace.
  destruct (rbd_Image_call img op (backend s)); reflexivity.
Qed.

Lemma balanced_proxy_call p op : balanced (RBDVolumeProxy.call (B:=B) p op).
Proof. apply balanced_Image_call. Qed.

Lemma balanced_RBD_call op : balanced (RBD_call (B:=B) op).
Proof.
  intros s c'. unfold RBD_call, trace.
  destruct (rbd_RBD_call op (backend s)); reflexivity.
Qed.

Lemma balanced_ext op : balanced (ext (B:=B) op).
Proof.
  intros s c'. unfold ext, trace.
  destruct (external op (backend s)); reflexivity.
Qed.

(** *** The two context managers *)

Lemma acquired_connect_trace c' c pool :
  acquired c' (connect_trace c pool) = one_if (Nat.eqb c' c).
Proof. cbn. destruct (Nat.eqb c' c); reflexivity. Qed.

Lemma released_connect_trace c' c pool :
  released c' (connect_trace c pool) = 0%nat.
Proof. reflexivity. Qed.

Lemma balanced_failed_connect c pool ok :
  balanced_trace [EvConnect c ok; EvOpenIoctx c pool false; EvShutdown c].
Proof. intros c'. cbn. destruct (Nat.eqb c' c); reflexivity. Qed.

Lemma _connect_to_rados_opens self pool :
  converts_opt pool = true ->
  opens fst (_connect_to_rados (B:=B) self pool).
Proof.
  intros Hp s.
  destruct (ConnectionFacts._connect_to_rados_cases_converts self pool s Hp)
    as [[Ho Ht]|[[Ho Ht]|[[Ho Ht]|[Ho Ht]]]]; rewrite Ho, Ht.
  - apply balanced_trace_nil.
  - intros c'. cbn. destruct (Nat.eqb c' (next_client s)); reflexivity.
  - apply balanced_failed_connect.
  - intros c'. rewrite acquired_connect_trace, released_connect_trace.
    reflexivity.
Qed.

Lemma _disconnect_from_rados_closes self c io (s : state B) c' :
  (acquired c' (trace (_disconnect_from_rados self c io s))
   + one_if (Nat.eqb c' c))%nat
  = released c' (trace (_disconnect_from_rados self c io s)).
Proof.
  rewrite ConnectionFacts._disconnect_from_rados_run. cbn.
  destruct (Nat.eqb c' c); reflexivity.
Qed.

Lemma RADOSClient_opens self pool :
  converts_opt pool = true ->
  opens RADOSClient.cluster (RADOSClient.__init__ (B:=B) self pool).
Proof.
  intros Hp s. pose proof (_connect_to_rados_opens self pool Hp s) as Ho.
  unfold RADOSClient.__init__, bind, ret, outcome, trace in *.
  destruct (_connect_to_rados self pool s) as [[[[c io]|e] s1] t1];
    cbn [fst snd] in *; [|exact Ho].
  intros c'. rewrite app_nil_r. apply Ho.
Qed.

Lemma RADOSClient_closes :
  closes RADOSClient.cluster (RADOSClient.__exit__ (B:=B)).
Proof. intros r s c'. apply _disconnect_from_rados_closes. Qed.

Lemma RBDVolumeProxy_opens self name pool snapshot read_only :
  converts name = true -> converts_opt pool = true ->
  converts_opt snapshot = true ->
  opens RBDVolumeProxy.client
        (RBDVolumeProxy.__init__ (B:=B) self name pool snapshot read_only).
Proof.
  intros Hn Hp Hs s. pose proof (_connect_to_rados_opens self pool Hp s) as Ho.
  unfold outcome, trace in Ho.
  destruct (_connect_to_rados self pool s) as [[[[c io]|e] s1] t1] eqn:Hc;
    cbn [fst snd] in Ho.
  - destruct (rbd_Image {| image_ioctx := io; image_name := chars name;
                           image_snapshot := option_map chars snapshot;
                           image_read_only := read_only |} (backend s1))
      as [[[]|e] b2] eqn:Hi.
    + rewrite (ConnectionFacts.proxy_init_succeeds
                 _ _ _ _ _ _ _ _ _ _ _ Hc Hn Hs Hi).
      unfold outcome, trace. cbn [fst snd]. intros c'.
      rewrite acquired_app, released_app, (Ho c'). cbn. lia.
    + rewrite (ConnectionFacts.proxy_init_image_raises
                 _ _ _ _ _ _ _ _ _ _ _ _ Hc Hn Hs Hi).
      unfold outcome, trace. cbn [fst snd]. intros c'.
      rewrite acquired_app, released_app, (Ho c'). cbn.
      destruct (Nat.eqb c' c); cbn; lia.
  - rewrite (ConnectionFacts.proxy_init_connect_raises _ _ _ _ _ _ _ _ _ Hc).
    exact Ho.
Qed.

Lemma RBDVolumeProxy_closes :
  closes RBDVolumeProxy.client (RBDVolumeProxy.__exit__ (B:=B)).
Proof.
  intros p s c'. rewrite ConnectionFacts.proxy_exit_run. cbn.
  destruct (Nat.eqb c' (RBDVolumeProxy.client p)); reflexivity.
Qed.

Lemma balanced_with_client {A} self pool (body : RADOSClient.t -> M B A) :
  converts_opt pool = true ->
  (forall r, balanced (body r)) -> balanced (with_client self pool body).
Proof.
  intros Hp Hb. unfold with_client.
  apply (balanced_with RADOSClient.cluster);
    [apply RADOSClient_opens; exact Hp | apply RADOSClient_closes | exact Hb].
Qed.

Lemma balanced_with_proxy {A} self name pool snapshot read_only
      (body : RBDVolumeProxy.t -> M B A) :
  converts name = true -> converts_opt pool = true ->
  converts_opt snapshot = true ->
  (forall r, balanced (body r)) ->
  balanced (with_proxy self name pool snapshot read_only body).
Proof.
  intros Hn Hp Hs Hb. unfold with_proxy.
  apply (balanced_with RBDVolumeProxy.client);
    [apply RBDVolumeProxy_opens; assumption
    | apply RBDVolumeProxy_closes | exact Hb].
Qed.

Lemma balanced_eval {A} (r : result exn A) : balanced (eval (B:=B) r).
Proof. intros s c. reflexivity. Qed.

End Facts.

Create HintDb balance.

#[export] Hint Resolve balanced_ret balanced_raise balanced_get_fsid
  balanced_get_cluster_stats balanced_Image_call balanced_proxy_call
  balanced_RBD_call balanced_ext balanced_eval : balance.

(** Peel an operation down to its calls: sequencing, handlers, [with]
    blocks and branches on the way.  The names handed to the context
    managers must convert. *)
Ltac handler_cases :=
  let e := fresh "e" in
  let h := fresh "h" in
  let Hh := fresh "Hh" in
  intros e h Hh;
  repeat match type of Hh with
         | context [match ?x with _ => _ end] => destruct x
         end;
  first [discriminate Hh | injection Hh as <-].

Ltac balance :=
  repeat first
    [ solve [auto with balance]
    | match goal with
      | |- forall _, _ => intro
      | |- balanced (with_client _ _ _) =>
          apply balanced_with_client; [converts_ok|]
      | |- balanced (with_proxy _ _ _ _ _ _) =>
          apply balanced_with_proxy; [converts_ok|converts_ok|converts_ok|]
      | |- balanced (with_ _ _ _) => apply balanced_with_plain
      | |- balanced (bind _ _) => apply balanced_bind
      | |- balanced (try_finally _ _) => apply balanced_try_finally
      | |- balanced (try_except _ _) =>
          apply balanced_try_except; [|handler_cases]
      | |- balanced (if ?b then _ else _) => destruct b
      | |- balanced (match ?x with _ => _ end) => destruct x
      end ].

Section Operations.
Context {B : Type} `{Backend B}.

Lemma balanced_delete_volume self volume :
  balanced (delete_volume (B:=B) self volume).
Proof. unfold delete_volume. balance. Qed.

Lemma balanced__resize self volume size :
  balanced (_resize (B:=B) self volume size).
Proof. unfold _resize. balance. Qed.

Lemma balanced__clone self volume pool img snap :
  converts_opt pool = true ->
  balanced (_clone (B:=B) self volume pool img snap).
Proof. intros Hp. unfold _clone. balance. Qed.

Lemma balanced__flatten self pool name :
  balanced (_flatten (B:=B) self pool name).
Proof. unfold _flatten. balance. Qed.

Lemma balanced__get_fsid self : balanced (_get_fsid (B:=B) self).
Proof. unfold _get_fsid. balance. Qed.

Lemma balanced__is_cloneable self loc :
  location_converts loc = true ->
  balanced (_is_cloneable (B:=B) self loc).
Proof.
  unfold location_converts, _is_cloneable.
  destruct (_parse_location_text loc) as [[|a [|b [|c [|d [|x l]]]]]|e];
    try (intros _; apply balanced_raise).
  - cbn [forallb]. intros Hall.
    apply andb_prop in Hall as [_ Hall]. apply andb_prop in Hall as [Hb Hall].
    apply andb_prop in Hall as [Hc Hall]. apply andb_prop in Hall as [Hd _].
    apply balanced_bind; [apply balanced__get_fsid|]. balance.
  - intros _. destruct e; balance.
Qed.

Lemma balanced_clone_image self volume loc :
  match loc with
  | Some location => location_converts location = true
  | None => True
  end ->
  balanced (clone_image (B:=B) self volume loc).
Proof.
  unfold clone_image. destruct loc as [loc|]; [|balance].
  intros Hloc.
  apply balanced_bind; [apply balanced__is_cloneable; exact Hloc|].
  intros ok. destruct ok; cbn; [|balance].
  unfold location_converts in Hloc.
  destruct (_parse_location_text loc) as [[|a [|b [|c [|d [|x l]]]]]|e];
    try apply balanced_raise.
  cbn [forallb] in Hloc.
  apply andb_prop in Hloc as [_ Hloc]. apply andb_prop in Hloc as [Hb _].
  apply balanced_bind; [apply balanced__clone; exact Hb|]. intros _.
  apply balanced_bind; [apply balanced__resize|]. balance.
Qed.

Lemma balanced_run self (op : operation) :
  names_convert op = true -> balanced (run (B:=B) self op).
Proof.
  destruct op; cbn [run names_convert]; intros Hn.
  - unfold check_for_setup_error. balance.
  - unfold _update_volume_stats. balance.
  - unfold create_cloned_volume. balance.
  - unfold create_volume. balance.
  - apply balanced__flatten.
  - apply balanced__clone. exact Hn.
  - apply balanced__resize.
  - unfold create_volume_from_snapshot.
    apply balanced_bind; [apply balanced__clone; reflexivity|]. intros _.
    apply balanced_bind.
    + destruct (rbd_flatten_volume_from_snapshot (conf self));
        [apply balanced__flatten | apply balanced_ret].
    + intros _. destruct (vol_size volume =? 0);
        [apply balanced_ret | apply balanced__resize].
  - apply balanced_delete_volume.
  - unfold create_snapshot. balance.
  - unfold delete_snapshot. balance.
  - apply balanced_bind; [apply balanced__get_fsid | balance].
  - apply balanced_bind; [apply balanced__is_cloneable; exact Hn | balance].
  - apply balanced_bind; [apply balanced_clone_image | balance].
    destruct image_location; [exact Hn|exact I].
  - unfold copy_image_to_volume.
    apply balanced_bind; [balance|]. intros _.
    apply balanced_bind; [|intros _; apply balanced__resize].
    apply balanced_with_plain; [balance | balance |].
    intros tmp. apply balanced_bind; [balance|]. intros _.
    apply balanced_bind; [apply balanced_delete_volume|]. balance.
  - unfold backup_volume. balance.
  - unfold restore_backup. balance.
  - unfold extend_volume.
    apply balanced_try_except; [apply balanced__resize|].
    intros e h Hh. injection Hh as <-. apply balanced_raise.
Qed.

End Operations.
End BalanceFacts.


(** * Runs of the [with] blocks *)

Module RunFacts.
Section Facts.
Context {B : Type} `{Backend B}.

Lemma with_client_connect_raises {A} self pool (body : RADOSClient.t -> M B A)
      (s s1 : state B) e t1 :
  _connect_to_rados self pool s = (Err e, s1, t1) ->
  with_client self pool body s = (Err e, s1, t1).
Proof.
  intros H1. unfold with_client, with_, RADOSClient.__init__, bind.
  rewrite H1. reflexivity.
Qed.

Lemma with_client_run {A} self pool (body : RADOSClient.t -> M B A)
      (s s1 s2 : state B) c io t1 t2 r :
  _connect_to_rados self pool s = (Ok (c, io), s1, t1) ->
  body {| RADOSClient.driver_ := self; RADOSClient.cluster := c;
          RADOSClient.ioctx_ := io |} s1 = (r, s2, t2) ->
  with_client self pool body s
  = (r, with_backend s2 (rados_shutdown c (ioctx_close io (backend s2))),
     t1 ++ t2 ++ disconnect_trace c io).
Proof.
  intros H1 H2.
  unfold with_client, with_, RADOSClient.__init__, bind, try_finally, ret.
  rewrite H1. cbn [fst snd]. rewrite H2.
  unfold RADOSClient.__exit__. cbn [RADOSClient.driver_ RADOSClient.cluster
                                   RADOSClient.ioctx_].
  rewrite ConnectionFacts._disconnect_from_rados_run.
  rewrite app_nil_r. reflexivity.
Qed.

Lemma with_proxy_init_raises {A} self name pool snapshot read_only
      (body : RBDVolumeProxy.t -> M B A) (s s1 : state B) e t1 :
  RBDVolumeProxy.__init__ self name pool snapshot read_only s
  = (Err e, s1, t1) ->
  with_proxy self name pool snapshot read_only body s = (Err e, s1, t1).
Proof.
  intros H1. unfold with_proxy, with_, bind. rewrite H1. reflexivity.
Qed.

Lemma with_proxy_run {A} self name pool snapshot read_only
      (body : RBDVolumeProxy.t -> M B A) (s s1 s2 : state B) p t1 t2 r :
  RBDVolumeProxy.__init__ self name pool snapshot read_only s
  = (Ok p, s1, t1) ->
  body p s1 = (r, s2, t2) ->
  let rc := fst (rbd_Image_close (RBDVolumeProxy.volume p) (backend s2)) in
  outcome (with_proxy self name pool snapshot read_only body s)
  = after_close r rc
  /\ trace (with_proxy self name pool snapshot read_only body s)
     = t1 ++ t2 ++ proxy_exit_trace p rc.
Proof.
  intros H1 H2 rc. subst rc.
  unfold with_proxy, with_, bind, try_finally, outcome, trace.
  rewrite H1, H2, ConnectionFacts.proxy_exit_run.
  destruct (rbd_Image_close (RBDVolumeProxy.volume p) (backend s2))
    as [[[]|e] b]; cbn [fst snd lift_rbd after_close]; split; reflexivity.
Qed.

End Facts.
End RunFacts.


(** * The claims about connections and volumes *)

Module DriverFacts.
Section Facts.
Context {B : Type} `{Backend B}.

Lemma connect_events_only self pool (s : state B) :
  Forall (fun ev => is_connection_event ev = true)
         (trace (_connect_to_rados self pool s)).
Proof.
  destruct (ConnectionFacts._connect_to_rados_cases self pool s)
    as [[_ Ht]|[[_ Ht]|[[_ Ht]|[[_ Ht]|[_ [_ Ht]]]]]]; rewrite Ht;
    repeat constructor.
Qed.

(** What [_connect_to_rados] raises: a [rados.Error], or the error of
    [str()] on a pool name that does not convert. *)
Lemma connect_raises self pool (s s1 : state B) e t1 :
  _connect_to_rados self pool s = (Err e, s1, t1) ->
  e = RadosError \/ (converts_opt pool = false /\ e = UnicodeEncodeError).
Proof.
  intros Hc.
  destruct (ConnectionFacts._connect_to_rados_cases self pool s)
    as [[Ho _]|[[Ho _]|[[Ho _]|[[Ho _]|[Hp [Ho _]]]]]];
    rewrite Hc in Ho; cbn in Ho; [left|left|left|discriminate|right];
    try split; congruence.
Qed.

Lemma connect_raises_rados_only self pool (s s1 : state B) e t1 :
  converts_opt pool = true ->
  _connect_to_rados self pool s = (Err e, s1, t1) -> e = RadosError.
Proof.
  intros Hp Hc. destruct (connect_raises _ _ _ _ _ _ Hc) as [He|[Hn _]];
    [exact He | congruence].
Qed.


(** X28: every operation of the driver whose names convert shuts down
    each client exactly as often as it connected it, on every way out;
    when [open_ioctx] raises after [connect()] succeeded,
    [_connect_to_rados] shuts the client down and then raises; when
    opening the image raises in [RBDVolumeProxy.__init__], the pool
    handle and the client are closed and then the error is raised; and
    [RBDVolumeProxy.__exit__] closes the image, then the pool handle and
    the client, also when the image's [close()] raises. *)
Theorem connections_released_when_names_convert (self : driver) :
  (forall (op : operation) (s : state B),
      names_convert op = true ->
      balanced_trace (trace (run self op s)))
  /\ (forall pool (s : state B) b1 b2 b3,
         let c := next_client s in
         let pool_to_open := chars (text_or pool (rbd_pool (conf self))) in
         rados_Rados (rbd_user (conf self)) (rbd_ceph_conf (conf self))
                     (backend s) = (Ok tt, b1) ->
         rados_connect c b1 = (Ok tt, b2) ->
         converts_opt pool = true ->
         rados_open_ioctx c pool_to_open b2 = (Err Rados_Error, b3) ->
         _connect_to_rados self pool s
         = (Err RadosError,
            {| backend := rados_shutdown c b3; next_client := S c |},
            [EvConnect c true; EvOpenIoctx c pool_to_open false;
             EvShutdown c]))
  /\ (forall name pool snapshot read_only (s s1 : state B) c io t1 e b2,
         let img := {| image_ioctx := io; image_name := chars name;
                       image_snapshot := option_map chars snapshot;
                       image_read_only := read_only |} in
         _connect_to_rados self pool s = (Ok (c, io), s1, t1) ->
         converts name = true -> converts_opt snapshot = true ->
         rbd_Image img (backend s1) = (Err e, b2) ->
         RBDVolumeProxy.__init__ self name pool snapshot read_only s
         = (Err (RbdError e),
            with_backend s1 (rados_shutdown c (ioctx_close io b2)),
            t1 ++ [EvImageOpen img (Some e); EvIoctxClose io; EvShutdown c]))
  /\ (forall (p : RBDVolumeProxy.t) (s : state B),
         let r := rbd_Image_close (RBDVolumeProxy.volume p) (backend s) in
         RBDVolumeProxy.__exit__ p s
         = (lift_rbd (fst r),
            with_backend s
              (rados_shutdown (RBDVolumeProxy.client p)
                 (ioctx_close (RBDVolumeProxy.ioctx_ p) (snd r))),
            [EvImageClose (RBDVolumeProxy.volume p) (error_of (fst r));
             EvIoctxClose (RBDVolumeProxy.ioctx_ p);
             EvShutdown (RBDVolumeProxy.client p)])).
Proof.
  split; [|split; [|split]].
  - intros op s Hn. apply BalanceFacts.balanced_run. exact Hn.
  - intros pool s b1 b2 b3 c p.
    apply ConnectionFacts._connect_to_rados_open_ioctx_raises.
  - intros name pool snapshot read_only s s1 c io t1 e b2 img.
    apply ConnectionFacts.proxy_init_image_raises.
  - intros p s. apply ConnectionFacts.proxy_exit_run.
Qed.



End Facts.
End DriverFacts.


Module SnapshotFacts.
Section Facts.
Context {B : Type} `{Backend B}.

(** C7: once the image is open, [delete_snapshot] with layering
    unprotects first; if the backend answers busy, nothing else is
    called on the image and [SnapshotIsBusy] is raised; on any other
    unprotect error nothing is removed either; only after a successful
    unprotect is the snapshot removed.  Without layering the snapshot
    is removed with no unprotect call.  (The proxy is then closed; the
    outcome is as stated unless the image's [close()] itself raises.)
    When the image cannot be opened nothing is called on it. *)
Theorem delete_snapshot_unprotects_first (self : driver)
        (snapshot : snapshot_ref) (s : state B) :
  let x := delete_snapshot self snapshot s in
  let snap := snap_name snapshot in
  (forall p s1 t1 f,
      RBDVolumeProxy.__init__ self (snap_volume_name snapshot) None None
                              false s = (Ok p, s1, t1) ->
      RBD_FEATURE_LAYERING self = Some f ->
      let vol := RBDVolumeProxy.volume p in
      let u := rbd_Image_call vol (Unprotect_snap snap) (backend s1) in
      match fst u with
      | Err ImageBusy =>
          let rc := fst (rbd_Image_close vol (snd u)) in
          trace x = t1 ++ [EvImageCall vol (Unprotect_snap snap)
                                       (Some ImageBusy)]
                       ++ proxy_exit_trace p rc
          /\ outcome x = after_close (Err (SnapshotIsBusy snap)) rc
      | Err e =>
          let rc := fst (rbd_Image_close vol (snd u)) in
          trace x = t1 ++ [EvImageCall vol (Unprotect_snap snap) (Some e)]
                       ++ proxy_exit_trace p rc
          /\ outcome x = after_close (Err (RbdError e)) rc
      | Ok _ =>
          let r := rbd_Image_call vol (Remove_snap snap) (snd u) in
          let rc := fst (rbd_Image_close vol (snd r)) in
          trace x = t1 ++ [EvImageCall vol (Unprotect_snap snap) None;
                           EvImageCall vol (Remove_snap snap)
                                       (error_of (fst r))]
                       ++ proxy_exit_trace p rc
          /\ outcome x = after_close (lift_rbd (fst r)) rc
      end)
  /\ (forall p s1 t1,
         RBDVolumeProxy.__init__ self (snap_volume_name snapshot) None None
                                 false s = (Ok p, s1, t1) ->
         RBD_FEATURE_LAYERING self = None ->
         let vol := RBDVolumeProxy.volume p in
         let r := rbd_Image_call vol (Remove_snap snap) (backend s1) in
         let rc := fst (rbd_Image_close vol (snd r)) in
         trace x = t1 ++ [EvImageCall vol (Remove_snap snap)
                                      (error_of (fst r))]
                      ++ proxy_exit_trace p rc
         /\ outcome x = after_close (lift_rbd (fst r)) rc)
  /\ (forall e s1 t1,
         RBDVolumeProxy.__init__ self (snap_volume_name snapshot) None None
                                 false s = (Err e, s1, t1) ->
         delete_snapshot self snapshot s = (Err e, s1, t1)).
Proof.
  intros x snap. split; [|split].
  - intros p s1 t1 f Hp Hf vol u. subst x. unfold delete_snapshot.
    match goal with
    | |- context [with_proxy _ _ _ _ _ ?b] => set (body := b)
    end.
    destruct (body p s1) as [[r s2] t2] eqn:Hb.
    destruct (RunFacts.with_proxy_run _ _ _ _ _ _ _ _ _ _ _ _ _ Hp Hb)
      as [Ho Ht].
    rewrite Ho, Ht. clear Ho Ht.
    unfold body, _supports_layering, bind, try_except, RBDVolumeProxy.call,
      Image_call, raise in Hb.
    rewrite Hf in Hb. fold vol snap in Hb. fold u in Hb.
    destruct u as [[[]|e] b2]; cbn [fst snd].
    + cbn [lift_rbd error_of backend with_backend] in Hb.
      destruct (rbd_Image_call vol (Remove_snap snap) b2) as [rr b3] eqn:Er.
      rewrite ?Er in Hb. cbn in Hb. inversion Hb; subst.
      cbn [fst snd backend with_backend]. split; reflexivity.
    + destruct e; cbn in Hb; inversion Hb; subst;
        cbn [fst snd backend with_backend]; split; reflexivity.
  - intros p s1 t1 Hp Hf vol r rc. subst x. unfold delete_snapshot.
    match goal with
    | |- context [with_proxy _ _ _ _ _ ?b] => set (body := b)
    end.
    destruct (body p s1) as [[rb s2] t2] eqn:Hb.
    destruct (RunFacts.with_proxy_run _ _ _ _ _ _ _ _ _ _ _ _ _ Hp Hb)
      as [Ho Ht].
    rewrite Ho, Ht. clear Ho Ht.
    unfold body, _supports_layering, bind, ret, RBDVolumeProxy.call,
      Image_call in Hb.
    rewrite Hf in Hb. fold vol snap in Hb. subst rc. fold r in Hb.
    destruct r as [rr b2]. cbn in Hb. inversion Hb; subst.
    cbn [fst snd backend with_backend]. split; reflexivity.
  - intros e s1 t1 Hp. unfold delete_snapshot.
    apply RunFacts.with_proxy_init_raises. exact Hp.
Qed.

End Facts.
End SnapshotFacts.


Module CloneableFacts.
Section Facts.
Context {B : Type} `{Backend B}.

Lemma _get_fsid_raises_rados_only self (s s1 : state B) e t1 :
  _get_fsid self s = (Err e, s1, t1) -> e = RadosError.
Proof.
  unfold _get_fsid. intros Hrun.
  destruct (_connect_to_rados self None s) as [[[[c io]|e'] s0] t0] eqn:Hc.
  - match type of Hrun with
    | context [with_client self None ?b] => set (body := b) in Hrun
    end.
    destruct (body {| RADOSClient.driver_ := self; RADOSClient.cluster := c;
                      RADOSClient.ioctx_ := io |} s0) as [[r s2] t2] eqn:Hb.
    rewrite (RunFacts.with_client_run _ _ _ _ _ _ _ _ _ _ _ Hc Hb) in Hrun.
    inversion Hrun; subst.
    unfold body, get_fsid in Hb. cbn [RADOSClient.cluster] in Hb.
    destruct (rados_get_fsid c (backend s0)) as [[fsid|[]] b2];
      cbn in Hb; inversion Hb; reflexivity.
  - rewrite (RunFacts.with_client_connect_raises _ _ _ _ _ _ _ Hc) in Hrun.
    inversion Hrun; subst.
    exact (DriverFacts.connect_raises_rados_only _ None _ _ _ _ eq_refl Hc).
Qed.

(** What the proxy's constructor raises: a [rados.Error] of the
    connection, an [rbd.Error] of the image, or the error of [str()] on
    a name that does not convert. *)
Lemma proxy_init_raises self name pool snapshot read_only
      (s s1 : state B) e t1 :
  RBDVolumeProxy.__init__ self name pool snapshot read_only s
  = (Err e, s1, t1) ->
  e = RadosError \/ (exists k, e = RbdError k)
  \/ (converts_opt pool && (converts name && converts_opt snapshot) = false
      /\ e = UnicodeEncodeError).
Proof.
  intros Hrun.
  destruct (_connect_to_rados self pool s) as [[[[c io]|e'] s0] t0] eqn:Hc.
  - destruct (converts name && converts_opt snapshot) eqn:Hn.
    + apply andb_prop in Hn as [Hn Hs].
      destruct (rbd_Image {| image_ioctx := io; image_name := chars name;
                             image_snapshot := option_map chars snapshot;
                             image_read_only := read_only |} (backend s0))
        as [[[]|k] b2] eqn:Hi.
      * rewrite (ConnectionFacts.proxy_init_succeeds
                   _ _ _ _ _ _ _ _ _ _ _ Hc Hn Hs Hi) in Hrun. discriminate.
      * rewrite (ConnectionFacts.proxy_init_image_raises
                   _ _ _ _ _ _ _ _ _ _ _ _ Hc Hn Hs Hi) in Hrun.
        inversion Hrun. right. left. exists k. reflexivity.
    + rewrite (ConnectionFacts.proxy_init_str_raises
                 _ _ _ _ _ _ _ _ _ _ Hc Hn) in Hrun.
      inversion Hrun. right. right. split; [|reflexivity].
      apply andb_false_r.
  - rewrite (ConnectionFacts.proxy_init_connect_raises
               _ _ _ _ _ _ _ _ _ Hc) in Hrun.
    inversion Hrun; subst.
    destruct (DriverFacts.connect_raises _ _ _ _ _ _ Hc) as [He|[Hp He]];
      [left; exact He|].
    right. right. rewrite Hp. split; [reflexivity|exact He].
Qed.

Lemma proxy_init_raises_converts self name pool snapshot read_only
      (s s1 : state B) e t1 :
  converts name = true -> converts_opt pool = true ->
  converts_opt snapshot = true ->
  RBDVolumeProxy.__init__ self name pool snapshot read_only s
  = (Err e, s1, t1) ->
  e = RadosError \/ exists k, e = RbdError k.
Proof.
  intros Hn Hp Hs Hrun.
  destruct (proxy_init_raises _ _ _ _ _ _ _ _ _ Hrun) as [He|[He|[Hc _]]];
    [left; exact He | right; exact He |].
  rewrite Hn, Hp, Hs in Hc. discriminate.
Qed.

Lemma open_check_run self pool image snapshot (s : state B) :
  match RBDVolumeProxy.__init__ self image (Some pool) (Some snapshot)
                                true s with
  | (Ok p, s1, t1) =>
      let rc := fst (rbd_Image_close (RBDVolumeProxy.volume p)
                                     (backend s1)) in
      outcome (open_check self pool image snapshot s)
      = Ok (is_ok rc)
      /\ trace (open_check self pool image snapshot s)
         = t1 ++ proxy_exit_trace p rc
  | (Err (RbdError _), s1, t1) =>
      open_check self pool image snapshot s = (Ok false, s1, t1)
  | (Err e, s1, t1) =>
      open_check self pool image snapshot s = (Err e, s1, t1)
  end.
Proof.
  destruct (RBDVolumeProxy.__init__ self image (Some pool) (Some snapshot)
                                    true s) as [[[p|e] s1] t1] eqn:Hp.
  - pose proof (RunFacts.with_proxy_run self image (Some pool)
                  (Some snapshot) true (fun _ => ret true)
                  s s1 s1 p t1 [] (Ok true) Hp eq_refl) as [Ho Ht].
    cbv zeta in Ho, Ht. cbv zeta.
    unfold open_check, try_except, outcome, trace in *.
    destruct (with_proxy self image (Some pool) (Some snapshot) true
                (fun _ => ret true) s) as [[r s2] t2].
    cbn [fst snd] in Ho, Ht. subst r t2.
    destruct (fst (rbd_Image_close (RBDVolumeProxy.volume p) (backend s1)))
      as [[]|k]; cbn; rewrite ?app_nil_r; split; reflexivity.
  - destruct e; unfold open_check, try_except;
      rewrite (RunFacts.with_proxy_init_raises _ _ _ _ _ _ _ _ _ _ Hp);
      cbn; rewrite ?app_nil_r; reflexivity.
Qed.

(** [_parse_location] raises [ImageUnacceptable] or returns four
    pieces. *)
Lemma _parse_location_text_cases (location : text) :
  (exists image_id reason,
      _parse_location_text location = Err (ImageUnacceptable image_id reason))
  \/ (exists fsid pool image snapshot,
         _parse_location_text location = Ok [fsid; pool; image; snapshot]).
Proof.
  unfold _parse_location_text.
  destruct (LocationFacts._parse_location_cases (chars location))
    as [(_ & Hr)|[(_ & _ & Hr)|[(_ & _ & _ & Hr)|(_ & _ & Hlen & Hr)]]];
    rewrite Hr; [left; eauto | left; eauto | left; eauto |].
  right. destruct (LocationFacts.four_elements _ Hlen)
    as (fsid & pool & image & snapshot & Hcomp).
  rewrite Hcomp. cbn [map]. eauto.
Qed.

Lemma _is_cloneable_parsed self location fsid pool image snapshot
      (s : state B) :
  _parse_location_text location = Ok [fsid; pool; image; snapshot] ->
  _is_cloneable self location s
  = match _get_fsid self s with
    | (Err e, s1, t1) => (Err e, s1, t1)
    | (Ok own, s1, t1) =>
        if str_eqb own fsid then
          match open_check self pool image snapshot s1 with
          | (r, s2, t2) => (r, s2, t1 ++ t2)
          end
        else (Ok false, s1, t1)
    end.
Proof.
  intros Hparse. unfold _is_cloneable. rewrite Hparse. unfold bind.
  destruct (_get_fsid self s) as [[[own|e] s1] t1]; [|reflexivity].
  destruct (str_eqb own fsid); cbn [negb].
  - reflexivity.
  - unfold ret. rewrite app_nil_r. reflexivity.
Qed.

Lemma _is_cloneable_unparsed self location e (s : state B) :
  _parse_location_text location = Err e ->
  _is_cloneable self location s = (Ok false, s, []).
Proof.
  intros Hparse. unfold _is_cloneable.
  destruct (_parse_location_text_cases location)
    as [(image_id & reason & Hr)|(a & b & c & d & Hr)];
    rewrite Hr in *; [reflexivity|discriminate].
Qed.

(** A [str] equals a string of either kind only if the characters are
    the same. *)
Lemma str_eqb_chars (own : string) (t : text) :
  str_eqb own t = true -> own = chars t.
Proof.
  destruct t as [x|x]; cbn; intros Heq.
  - apply String.eqb_eq. exact Heq.
  - apply andb_prop in Heq as [_ Heq]. apply String.eqb_eq. exact Heq.
Qed.

(** C8 as the code has it: [_is_cloneable] returns [True] only when the
    location parses, the cluster's fsid equals the location's, and the
    image opens read-only; it returns [False] on a parse failure, on a
    different fsid, and when opening the image raises an [rbd.Error];
    a [rados.Error] raised while fetching the fsid or while connecting
    for the open is not caught and comes out; so does the error of
    [str()] on a pool, image or snapshot name that does not convert;
    nothing else is raised, and for a location whose pieces convert
    nothing but [rados.Error]. *)
Theorem _is_cloneable_false_or_rados_error (self : driver)
        (location : text) (s : state B) :
  let x := _is_cloneable self location s in
  (outcome x = Ok true ->
   exists fsid pool image snapshot s1 t1 p s2 t2,
     _parse_location_text location = Ok [fsid; pool; image; snapshot]
     /\ _get_fsid self s = (Ok (chars fsid), s1, t1)
     /\ str_eqb (chars fsid) fsid = true
     /\ RBDVolumeProxy.__init__ self image (Some pool) (Some snapshot)
                                true s1 = (Ok p, s2, t2))
  /\ (forall e, _parse_location_text location = Err e -> x = (Ok false, s, []))
  /\ (forall fsid pool image snapshot own s1 t1,
         _parse_location_text location = Ok [fsid; pool; image; snapshot] ->
         _get_fsid self s = (Ok own, s1, t1) ->
         str_eqb own fsid = false ->
         x = (Ok false, s1, t1))
  /\ (forall fsid pool image snapshot own s1 t1 k s2 t2,
         _parse_location_text location = Ok [fsid; pool; image; snapshot] ->
         _get_fsid self s = (Ok own, s1, t1) ->
         str_eqb own fsid = true ->
         RBDVolumeProxy.__init__ self image (Some pool) (Some snapshot)
                                 true s1 = (Err (RbdError k), s2, t2) ->
         x = (Ok false, s2, t1 ++ t2))
  /\ (forall fsid pool image snapshot e s1 t1,
         _parse_location_text location = Ok [fsid; pool; image; snapshot] ->
         _get_fsid self s = (Err e, s1, t1) ->
         x = (Err RadosError, s1, t1))
  /\ (forall fsid pool image snapshot own s1 t1 s2 t2,
         _parse_location_text location = Ok [fsid; pool; image; snapshot] ->
         _get_fsid self s = (Ok own, s1, t1) ->
         str_eqb own fsid = true ->
         RBDVolumeProxy.__init__ self image (Some pool) (Some snapshot)
                                 true s1 = (Err RadosError, s2, t2) ->
         x = (Err RadosError, s2, t1 ++ t2))
  /\ (forall e, outcome x = Err e ->
                e = RadosError
                \/ (location_converts location = false
                    /\ e = UnicodeEncodeError)).
Proof.
  intros x. subst x.
  split; [|split; [|split; [|split; [|split; [|split]]]]].
  - intros Htrue.
    destruct (_parse_location_text_cases location)
      as [(image_id & reason & Hr)|(fsid & pool & image & snapshot & Hr)].
    { rewrite (_is_cloneable_unparsed _ _ _ _ Hr) in Htrue. discriminate. }
    rewrite (_is_cloneable_parsed _ _ _ _ _ _ _ Hr) in Htrue.
    destruct (_get_fsid self s) as [[[own|e] s1] t1]; [|discriminate].
    destruct (str_eqb own fsid) eqn:Heq; [|discriminate].
    pose proof (str_eqb_chars _ _ Heq) as Hown. subst own.
    pose proof (open_check_run self pool image snapshot s1) as Hopen.
    destruct (RBDVolumeProxy.__init__ self image (Some pool) (Some snapshot)
                true s1) as [[[p|e] s2] t2] eqn:Hinit.
    + exists fsid, pool, image, snapshot, s1, t1, p, s2, t2. auto.
    + exfalso. destruct e; rewrite Hopen in Htrue; discriminate.
  - intros e Hparse. exact (_is_cloneable_unparsed _ _ _ _ Hparse).
  - intros fsid pool image snapshot own s1 t1 Hparse Hfsid Hne.
    rewrite (_is_cloneable_parsed _ _ _ _ _ _ _ Hparse), Hfsid, Hne.
    reflexivity.
  - intros fsid pool image snapshot own s1 t1 k s2 t2 Hparse Hfsid Heq Hinit.
    rewrite (_is_cloneable_parsed _ _ _ _ _ _ _ Hparse), Hfsid, Heq.
    pose proof (open_check_run self pool image snapshot s1) as Hopen.
    rewrite Hinit in Hopen. rewrite Hopen. reflexivity.
  - intros fsid pool image snapshot e s1 t1 Hparse Hfsid.
    rewrite (_is_cloneable_parsed _ _ _ _ _ _ _ Hparse), Hfsid.
    rewrite (_get_fsid_raises_rados_only _ _ _ _ _ Hfsid). reflexivity.
  - intros fsid pool image snapshot own s1 t1 s2 t2 Hparse Hfsid Heq Hinit.
    rewrite (_is_cloneable_parsed _ _ _ _ _ _ _ Hparse), Hfsid, Heq.
    pose proof (open_check_run self pool image snapshot s1) as Hopen.
    rewrite Hinit in Hopen. rewrite Hopen. reflexivity.
  - intros e Herr.
    destruct (_parse_location_text_cases location)
      as [(image_id & reason & Hr)|(fsid & pool & image & snapshot & Hr)].
    { rewrite (_is_cloneable_unparsed _ _ _ _ Hr) in Herr. discriminate. }
    rewrite (_is_cloneable_parsed _ _ _ _ _ _ _ Hr) in Herr.
    destruct (_get_fsid self s) as [[[own|e0] s1] t1] eqn:Hfsid.
    + destruct (str_eqb own fsid); [|discriminate].
      pose proof (open_check_run self pool image snapshot s1) as Hopen.
      destruct (RBDVolumeProxy.__init__ self image (Some pool)
                  (Some snapshot) true s1) as [[[p|e1] s2] t2] eqn:Hinit.
      * destruct Hopen as [Ho _]. unfold outcome in *.
        destruct (open_check self pool image snapshot s1) as [[r s3] t3].
        cbn [fst snd] in *. congruence.
      * destruct (proxy_init_raises _ _ _ _ _ _ _ _ _ Hinit)
          as [->|[[k ->]|[Hc ->]]]; rewrite Hopen in Herr; cbn in Herr.
        -- left. congruence.
        -- discriminate.
        -- right. split; [|congruence].
           unfold location_converts. rewrite Hr. cbn [forallb].
           cbn [converts_opt] in Hc.
           destruct (converts fsid), (converts pool), (converts image),
             (converts snapshot); cbn in *; congruence.
    + cbn in Herr. inversion Herr; subst. left.
      exact (_get_fsid_raises_rados_only _ _ _ _ _ Hfsid).
Qed.

End Facts.
End CloneableFacts.


(** * The claims on the in-memory cluster *)

Module ClusterRuns.

(** X28 on the demo cluster: a delete is balanced; a pool that does
    not exist makes [_connect_to_rados] shut the client down; an image
    that does not exist makes the proxy disconnect. *)
Lemma connections_released_when_names_convert_witness :
  balanced_trace
    (trace (run demo_driver (Delete_volume volume_1) (start demo_cluster)))
  /\ _connect_to_rados demo_driver (Some (Str "other")) (start demo_cluster)
     = (Err RadosError, connected 0,
        [EvConnect 0 true; EvOpenIoctx 0 "other" false; EvShutdown 0])
  /\ RBDVolumeProxy.__init__ demo_driver "volume-9" None None false
                             (start demo_cluster)
     = (Err (RbdError ImageNotFound), connected 0,
        connect_trace 0 "rbd"
        ++ [EvImageOpen {| image_ioctx := rbd_io 0; image_name := "volume-9";
                           image_snapshot := None; image_read_only := false |}
                        (Some ImageNotFound);
            EvIoctxClose (rbd_io 0); EvShutdown 0]).
Proof.
  destruct (DriverFacts.connections_released_when_names_convert
              (B:=cluster) demo_driver) as (Hall & Hpool & Himage & _).
  split; [apply Hall; reflexivity|]. split.
  - apply (Hpool (Some (Str "other")) (start demo_cluster)
                 demo_cluster demo_cluster demo_cluster); reflexivity.
  - apply (Himage (Str "volume-9") None None false (start demo_cluster)
                  (connected 0) 0%nat (rbd_io 0) (connect_trace 0 "rbd")
                  ImageNotFound demo_cluster); reflexivity.
Defined.

(** C1: a connection is left open when [str()] raises.  In
    [_connect_to_rados] the pool name is converted inside the [try],
    after [connect()], and in [RBDVolumeProxy.__init__] the image and
    snapshot names are converted after the connection was made; the
    handlers are for [rados.Error] and [rbd.Error], so the
    [UnicodeEncodeError] of a name that is not ASCII passes them and
    nothing is shut down.  On the demo cluster, [_is_cloneable] and
    [clone_image] on a [unicode] location of this cluster whose pool is
    [p%E9] connect client 1 and never shut it down; with the image
    [im%E9] the pool handle of client 1 is left open as well. *)
Theorem connection_left_open_when_str_raises :
  _parse_location_text odd_pool_location
  = Ok [Unicode "abc"; odd_pool; Unicode "volume-1"; Unicode "snap-1"]
  /\ str odd_pool = Err UnicodeEncodeError
  /\ _connect_to_rados demo_driver (Some odd_pool) (start demo_cluster)
     = (Err UnicodeEncodeError, connected 0, [EvConnect 0 true])
  /\ (let x := run demo_driver (Is_cloneable odd_pool_location)
                   (start demo_cluster) in
      outcome x = Err UnicodeEncodeError
      /\ trace x
         = connect_trace 0 "rbd" ++ [EvGetFsid 0 true]
           ++ disconnect_trace 0 (rbd_io 0) ++ [EvConnect 1 true]
      /\ acquired 1 (trace x) = 1%nat
      /\ released 1 (trace x) = 0%nat
      /\ ~ balanced_trace (trace x))
  /\ (let x := run demo_driver (Clone_image volume_9 (Some odd_pool_location))
                   (start demo_cluster) in
      outcome x = Err UnicodeEncodeError
      /\ acquired 1 (trace x) = 1%nat
      /\ released 1 (trace x) = 0%nat
      /\ ~ balanced_trace (trace x))
  /\ _parse_location_text odd_image_location
     = Ok [Unicode "abc"; Unicode "rbd"; odd_image; Unicode "snap-1"]
  /\ str odd_image = Err UnicodeEncodeError
  /\ RBDVolumeProxy.__init__ demo_driver odd_image None None true
                             (start demo_cluster)
     = (Err UnicodeEncodeError, connected 0, connect_trace 0 "rbd")
  /\ (let x := run demo_driver (Is_cloneable odd_image_location)
                   (start demo_cluster) in
      outcome x = Err UnicodeEncodeError
      /\ trace x
         = connect_trace 0 "rbd" ++ [EvGetFsid 0 true]
           ++ disconnect_trace 0 (rbd_io 0) ++ connect_trace 1 "rbd"
      /\ acquired 1 (trace x) = 1%nat
      /\ released 1 (trace x) = 0%nat
      /\ ~ balanced_trace (trace x)).
Proof.
  assert (Hopen : forall t : list event,
             acquired 1 t = 1%nat -> released 1 t = 0%nat ->
             ~ balanced_trace t).
  { intros t Ha Hr Hb. specialize (Hb 1%nat). congruence. }
  repeat match goal with
         | |- _ /\ _ => split
         | |- let x := _ in _ => intros x
         | |- ~ balanced_trace _ => apply Hopen
         end; reflexivity.
Qed.



(** C7 on the demo cluster: with layering, the protected snapshot with a
    clone is busy and is not removed. *)
Lemma delete_snapshot_unprotects_first_witness :
  trace (delete_snapshot demo_driver snap_1 (start demo_cluster))
  = (connect_trace 0 "rbd"
     ++ [EvImageOpen (RBDVolumeProxy.volume volume_1_proxy) None])
    ++ [EvImageCall (RBDVolumeProxy.volume volume_1_proxy)
                    (Unprotect_snap "snap-1") (Some ImageBusy)]
    ++ proxy_exit_trace volume_1_proxy (Ok tt)
  /\ outcome (delete_snapshot demo_driver snap_1 (start demo_cluster))
     = Err (SnapshotIsBusy "snap-1").
Proof.
  assert (Hp : RBDVolumeProxy.__init__ demo_driver "volume-1" None None false
                 (start demo_cluster)
               = (Ok volume_1_proxy, connected 0,
                  connect_trace 0 "rbd"
                  ++ [EvImageOpen (RBDVolumeProxy.volume volume_1_proxy) None]))
    by reflexivity.
  exact (proj1 (SnapshotFacts.delete_snapshot_unprotects_first
                  demo_driver snap_1 (start demo_cluster))
               volume_1_proxy (connected 0)
               (connect_trace 0 "rbd"
                ++ [EvImageOpen (RBDVolumeProxy.volume volume_1_proxy) None])
               1 Hp eq_refl).
Defined.

(** C8: the location names this cluster and an existing image, but a
    pool that cannot be opened: the location parses, the fsid matches,
    and [_is_cloneable] raises instead of returning [False]. *)
Lemma _is_cloneable_raises_on_unknown_pool :
  _parse_location "rbd://abc/other/volume-1/snap-1"
  = Ok ["abc"; "other"; "volume-1"; "snap-1"]
  /\ outcome (_get_fsid demo_driver (start demo_cluster)) = Ok "abc"
  /\ outcome (_is_cloneable demo_driver "rbd://abc/other/volume-1/snap-1"
                            (start demo_cluster)) = Err RadosError
  /\ ~ (exists b : bool,
           outcome (_is_cloneable demo_driver "rbd://abc/other/volume-1/snap-1"
                                  (start demo_cluster)) = Ok b).
Proof.
  repeat split. intros [b Hb]. discriminate Hb.
Qed.

(** C8 as amended, on the demo cluster: a location of another cluster
    and an image that does not exist are not cloneable. *)
Lemma _is_cloneable_false_or_rados_error_witness :
  _is_cloneable demo_driver "rbd://xyz/rbd/volume-1/snap-1" (start demo_cluster)
  = (Ok false, connected 0,
     connect_trace 0 "rbd" ++ [EvGetFsid 0 true] ++ disconnect_trace 0 (rbd_io 0))
  /\ outcome (_is_cloneable demo_driver "rbd://abc/rbd/volume-9/snap-1"
                            (start demo_cluster)) = Ok false.
Proof.
  pose proof (CloneableFacts._is_cloneable_false_or_rados_error
                demo_driver "rbd://xyz/rbd/volume-1/snap-1"
                (start demo_cluster)) as (_ & _ & Hmismatch & _).
  pose proof (CloneableFacts._is_cloneable_false_or_rados_error
                demo_driver "rbd://abc/rbd/volume-9/snap-1"
                (start demo_cluster)) as (_ & _ & _ & Hopen & _).
  split.
  - apply (Hmismatch (Str "xyz") (Str "rbd") (Str "volume-1") (Str "snap-1")
                     "abc").
    + reflexivity.
    + reflexivity.
    + reflexivity.
  - rewrite (Hopen (Str "abc") (Str "rbd") (Str "volume-9") (Str "snap-1")
                   "abc" (connected 0)
                   (connect_trace 0 "rbd" ++ [EvGetFsid 0 true]
                    ++ disconnect_trace 0 (rbd_io 0))
                   ImageNotFound (connected 1)
                   (connect_trace 1 "rbd"
                    ++ [EvImageOpen {| image_ioctx := rbd_io 1;
                                       image_name := "volume-9";
                                       image_snapshot := Some "snap-1";
                                       image_read_only := true |}
                                    (Some ImageNotFound);
                        EvIoctxClose (rbd_io 1); EvShutdown 1]));
      reflexivity.
Defined.

End ClusterRuns.


(** * Pool handles and images are closed *)

Lemma tally_app (w : event -> Z) (t1 t2 : list event) :
  tally w (t1 ++ t2) = tally w t1 + tally w t2.
Proof.
  induction t1 as [|ev t1 IH]; cbn [app tally fold_right].
  - reflexivity.
  - fold (tally w (t1 ++ t2)). fold (tally w t1). rewrite IH. lia.
Qed.

Module HandleFacts.
Section Combinators.
Context {B : Type} `{Backend B}.
Variable w : event -> Z.

Lemma settles_ret {A} (a : A) : settles w (ret (B:=B) a).
Proof. intros s. reflexivity. Qed.

Lemma settles_raise {A} (e : exn) : settles w (raise (B:=B) (A:=A) e).
Proof. intros s. reflexivity. Qed.

Lemma settles_bind {A C} (m : M B A) (f : A -> M B C) :
  settles w m -> (forall a, settles w (f a)) -> settles w (bind m f).
Proof.
  intros Hm Hf s. unfold bind, trace.
  pose proof (Hm s) as Hms. unfold trace in Hms.
  destruct (m s) as [[[a|e] s1] t1]; cbn [fst snd] in *; [|exact Hms].
  pose proof (Hf a s1) as Hfs. unfold trace in Hfs.
  destruct (f a s1) as [[r s2] t2]; cbn [fst snd] in *.
  rewrite tally_app. lia.
Qed.

Lemma settles_try_except {A} (m : M B A) (handler : exn -> option (M B A)) :
  settles w m ->
  (forall e h, handler e = Some h -> settles w h) ->
  settles w (try_except m handler).
Proof.
  intros Hm Hh s. unfold try_except, trace.
  pose proof (Hm s) as Hms. unfold trace in Hms.
  destruct (m s) as [[[a|e] s1] t1]; cbn [fst snd] in *; [exact Hms|].
  destruct (handler e) as [h|] eqn:He; cbn [fst snd]; [|exact Hms].
  pose proof (Hh e h He s1) as Hhs. unfold trace in Hhs.
  destruct (h s1) as [[r s2] t2]; cbn [fst snd] in *.
  rewrite tally_app. lia.
Qed.

Lemma settles_try_finally {A} (m : M B A) (fin : M B unit) :
  settles w m -> settles w fin -> settles w (try_finally m fin).
Proof.
  intros Hm Hf s. unfold try_finally, trace.
  pose proof (Hm s) as Hms. unfold trace in Hms.
  destruct (m s) as [[r s1] t1]; cbn [fst snd] in *.
  pose proof (Hf s1) as Hfs. unfold trace in Hfs.
  destruct (fin s1) as [[[[]|e] s2] t2]; cbn [fst snd] in *;
    rewrite tally_app; lia.
Qed.

(** A [with] block whose manager opens [k] handles and whose [__exit__]
    closes [k] settles when its body does. *)
Lemma settles_with {R A} (k : Z) (enter : M B R) (exit : R -> M B unit)
      (body : R -> M B A) :
  holds w k enter -> drops w k exit ->
  (forall r, settles w (body r)) ->
  settles w (with_ enter exit body).
Proof.
  intros Ho Hc Hb s. unfold with_, bind, try_finally, trace.
  pose proof (Ho s) as Hos. unfold outcome, trace in Hos.
  destruct (enter s) as [[[r|e] s1] t1]; cbn [fst snd] in *; [|exact Hos].
  pose proof (Hb r s1) as Hbs. unfold trace in Hbs.
  destruct (body r s1) as [[rb s2] t2]; cbn [fst snd] in *.
  pose proof (Hc r s2) as Hcs. unfold trace in Hcs.
  destruct (exit r s2) as [[[[]|e] s3] t3]; cbn [fst snd] in *;
    rewrite !tally_app; lia.
Qed.

Lemma settles_with_plain {R A} (enter : M B R) (exit : R -> M B unit)
      (body : R -> M B A) :
  settles w enter -> (forall r, settles w (exit r)) ->
  (forall r, settles w (body r)) ->
  settles w (with_ enter exit body).
Proof.
  intros He Hx Hb. unfold with_. apply settles_bind; [exact He|].
  intros r. apply settles_try_finally; auto.
Qed.

Lemma settles_ext op : settles w (ext (B:=B) op).
Proof.
  intros s. unfold ext, trace. destruct (external op (backend s)); reflexivity.
Qed.

End Combinators.

Section Calls.
Context {B : Type} `{Backend B}.

Lemma neutral_ioctx : neutral ioctx_weight.
Proof. repeat split. Qed.

Lemma neutral_image : neutral image_weight.
Proof. repeat split. Qed.

Lemma settles_get_fsid w c :
  neutral w -> settles w (get_fsid (B:=B) c).
Proof.
  intros (Hw & _) s. unfold get_fsid, trace.
  destruct (rados_get_fsid c (backend s)); cbn. rewrite Hw. reflexivity.
Qed.

Lemma settles_get_cluster_stats w c :
  neutral w -> settles w (get_cluster_stats (B:=B) c).
Proof.
  intros (_ & Hw & _) s. unfold get_cluster_stats, trace.
  destruct (rados_get_cluster_stats c (backend s)); cbn.
  rewrite Hw. reflexivity.
Qed.

Lemma settles_Image_call w img op :
  neutral w -> settles w (Image_call (B:=B) img op).
Proof.
  intros (_ & _ & Hw & _) s. unfold Image_call, trace.
  destruct (rbd_Image_call img op (backend s)); cbn.
  rewrite Hw. reflexivity.
Qed.

Lemma settles_proxy_call w p op :
  neutral w -> settles w (RBDVolumeProxy.call (B:=B) p op).
Proof. apply settles_Image_call. Qed.

Lemma settles_RBD_call w op :
  neutral w -> settles w (RBD_call (B:=B) op).
Proof.
  intros (_ & _ & _ & Hw) s. unfold RBD_call, trace.
  destruct (rbd_RBD_call op (backend s)); cbn. rewrite Hw. reflexivity.
Qed.

(** *** Pool handles *)

Lemma _connect_to_rados_holds_ioctx self pool :
  holds ioctx_weight 1 (_connect_to_rados (B:=B) self pool).
Proof.
  intros s.
  destruct (ConnectionFacts._connect_to_rados_cases self pool s)
    as [[Ho Ht]|[[Ho Ht]|[[Ho Ht]|[[Ho Ht]|[_ [Ho Ht]]]]]]; rewrite Ho, Ht;
    reflexivity.
Qed.

Lemma _connect_to_rados_holds_image self pool :
  holds image_weight 0 (_connect_to_rados (B:=B) self pool).
Proof.
  intros s.
  destruct (ConnectionFacts._connect_to_rados_cases self pool s)
    as [[Ho Ht]|[[Ho Ht]|[[Ho Ht]|[[Ho Ht]|[_ [Ho Ht]]]]]]; rewrite Ho, Ht;
    reflexivity.
Qed.

Lemma RADOSClient_holds w k self pool :
  holds w k (_connect_to_rados (B:=B) self pool) ->
  holds w k (RADOSClient.__init__ (B:=B) self pool).
Proof.
  intros Hc s. pose proof (Hc s) as Ho.
  unfold RADOSClient.__init__, bind, ret, outcome, trace in *.
  destruct (_connect_to_rados self pool s) as [[[[c io]|e] s1] t1];
    cbn [fst snd] in *; [|exact Ho].
  rewrite app_nil_r. exact Ho.
Qed.

Lemma RADOSClient_drops_ioctx :
  drops ioctx_weight 1 (RADOSClient.__exit__ (B:=B)).
Proof. intros r s. reflexivity. Qed.

Lemma RADOSClient_drops_image :
  drops image_weight 0 (RADOSClient.__exit__ (B:=B)).
Proof. intros r s. reflexivity. Qed.

Lemma RBDVolumeProxy_holds_ioctx self name pool snapshot read_only :
  converts name = true -> converts_opt snapshot = true ->
  holds ioctx_weight 1
        (RBDVolumeProxy.__init__ (B:=B) self name pool snapshot read_only).
Proof.
  intros Hn Hs s. pose proof (_connect_to_rados_holds_ioctx self pool s) as Ho.
  unfold outcome, trace in Ho.
  destruct (_connect_to_rados self pool s) as [[[[c io]|e] s1] t1] eqn:Hc;
    cbn [fst snd] in Ho.
  - destruct (rbd_Image {| image_ioctx := io; image_name := chars name;
                           image_snapshot := option_map chars snapshot;
                           image_read_only := read_only |} (backend s1))
      as [[[]|e] b2] eqn:Hi.
    + rewrite (ConnectionFacts.proxy_init_succeeds
                 _ _ _ _ _ _ _ _ _ _ _ Hc Hn Hs Hi).
      unfold outcome, trace. cbn [fst snd]. rewrite tally_app, Ho. reflexivity.
    + rewrite (ConnectionFacts.proxy_init_image_raises
                 _ _ _ _ _ _ _ _ _ _ _ _ Hc Hn Hs Hi).
      unfold outcome, trace. cbn [fst snd]. rewrite tally_app, Ho. reflexivity.
  - rewrite (ConnectionFacts.proxy_init_connect_raises _ _ _ _ _ _ _ _ _ Hc).
    exact Ho.
Qed.

Lemma RBDVolumeProxy_holds_image self name pool snapshot read_only :
  converts name = true -> converts_opt snapshot = true ->
  holds image_weight 1
        (RBDVolumeProxy.__init__ (B:=B) self name pool snapshot read_only).
Proof.
  intros Hn Hs s. pose proof (_connect_to_rados_holds_image self pool s) as Ho.
  unfold outcome, trace in Ho.
  destruct (_connect_to_rados self pool s) as [[[[c io]|e] s1] t1] eqn:Hc;
    cbn [fst snd] in Ho.
  - destruct (rbd_Image {| image_ioctx := io; image_name := chars name;
                           image_snapshot := option_map chars snapshot;
                           image_read_only := read_only |} (backend s1))
      as [[[]|e] b2] eqn:Hi.
    + rewrite (ConnectionFacts.proxy_init_succeeds
                 _ _ _ _ _ _ _ _ _ _ _ Hc Hn Hs Hi).
      unfold outcome, trace. cbn [fst snd]. rewrite tally_app, Ho. reflexivity.
    + rewrite (ConnectionFacts.proxy_init_image_raises
                 _ _ _ _ _ _ _ _ _ _ _ _ Hc Hn Hs Hi).
      unfold outcome, trace. cbn [fst snd]. rewrite tally_app, Ho. reflexivity.
  - rewrite (ConnectionFacts.proxy_init_connect_raises _ _ _ _ _ _ _ _ _ Hc).
    exact Ho.
Qed.

Lemma RBDVolumeProxy_drops_ioctx :
  drops ioctx_weight 1 (RBDVolumeProxy.__exit__ (B:=B)).
Proof. intros p s. rewrite ConnectionFacts.proxy_exit_run. reflexivity. Qed.

Lemma RBDVolumeProxy_drops_image :
  drops image_weight 1 (RBDVolumeProxy.__exit__ (B:=B)).
Proof. intros p s. rewrite ConnectionFacts.proxy_exit_run. reflexivity. Qed.

Lemma managed_ioctx : managed ioctx_weight.
Proof.
  split; [exact neutral_ioctx|]. split; exists 1; split.
  - intros. apply RADOSClient_holds, _connect_to_rados_holds_ioctx.
  - exact RADOSClient_drops_ioctx.
  - intros. apply RBDVolumeProxy_holds_ioctx; assumption.
  - exact RBDVolumeProxy_drops_ioctx.
Qed.

Lemma managed_image : managed image_weight.
Proof.
  split; [exact neutral_image|]. split; [exists 0|exists 1]; split.
  - intros. apply RADOSClient_holds, _connect_to_rados_holds_image.
  - exact RADOSClient_drops_image.
  - intros. apply RBDVolumeProxy_holds_image; assumption.
  - exact RBDVolumeProxy_drops_image.
Qed.

Lemma settles_with_client {A} w self pool (body : RADOSClient.t -> M B A) :
  managed w ->
  (forall r, settles w (body r)) -> settles w (with_client self pool body).
Proof.
  intros (_ & (k & Hh & Hd) & _) Hb. unfold with_client.
  apply (settles_with w k); auto.
Qed.

Lemma settles_with_proxy {A} w self name pool snapshot read_only
      (body : RBDVolumeProxy.t -> M B A) :
  converts name = true -> converts_opt snapshot = true ->
  managed w ->
  (forall r, settles w (body r)) ->
  settles w (with_proxy self name pool snapshot read_only body).
Proof.
  intros Hn Hs (_ & _ & (k & Hh & Hd)) Hb. unfold with_proxy.
  apply (settles_with w k); auto.
Qed.

Lemma settles_eval {A} w (r : result exn A) : settles w (eval (B:=B) r).
Proof. intros s. reflexivity. Qed.

End Calls.

Ltac settle_handler :=
  let e := fresh "e" in
  let h := fresh "h" in
  let Hh := fresh "Hh" in
  intros e h Hh;
  repeat match type of Hh with
         | context [match ?x with _ => _ end] => destruct x
         end;
  first [discriminate Hh | injection Hh as <-].

(** Peel an operation down to its calls, for a managed weight. *)
Ltac settle Hm :=
  repeat first
    [ assumption
    | match goal with
      | |- forall _, _ => intro
      | |- neutral _ => exact (proj1 Hm)
      | |- managed _ => exact Hm
      | |- settles _ (ret _) => apply settles_ret
      | |- settles _ (raise _) => apply settles_raise
      | |- settles _ (ext _) => apply settles_ext
      | |- settles _ (eval _) => apply settles_eval
      | |- settles _ (get_fsid _) => apply settles_get_fsid
      | |- settles _ (get_cluster_stats _) => apply settles_get_cluster_stats
      | |- settles _ (RBD_call _) => apply settles_RBD_call
      | |- settles _ (Image_call _ _) => apply settles_Image_call
      | |- settles _ (RBDVolumeProxy.call _ _) => apply settles_proxy_call
      | |- settles _ (with_client _ _ _) => apply settles_with_client
      | |- settles _ (with_proxy _ _ _ _ _ _) =>
          apply settles_with_proxy; [converts_ok|converts_ok| |]
      | |- settles _ (with_ _ _ _) => apply settles_with_plain
      | |- settles _ (bind _ _) => apply settles_bind
      | |- settles _ (try_finally _ _) => apply settles_try_finally
      | |- settles _ (try_except _ _) =>
          apply settles_try_except; [|settle_handler]
      | |- settles _ (if ?b then _ else _) => destruct b
      | |- settles _ (match ?x with _ => _ end) => destruct x
      end ].

Section Operations.
Context {B : Type} `{Backend B}.
Variable w : event -> Z.
Hypothesis Hm : managed (B:=B) w.

Lemma settles__resize self volume size :
  settles w (_resize (B:=B) self volume size).
Proof. unfold _resize. settle Hm. Qed.

Lemma settles__clone self volume pool img snap :
  settles w (_clone (B:=B) self volume pool img snap).
Proof. unfold _clone. settle Hm. Qed.

Lemma settles__flatten self pool name :
  settles w (_flatten (B:=B) self pool name).
Proof. unfold _flatten. settle Hm. Qed.

Lemma settles_delete_volume self volume :
  settles w (delete_volume (B:=B) self volume).
Proof. unfold delete_volume. settle Hm. Qed.

Lemma settles__get_fsid self : settles w (_get_fsid (B:=B) self).
Proof. unfold _get_fsid. settle Hm. Qed.

Lemma settles__is_cloneable self loc :
  location_converts loc = true ->
  settles w (_is_cloneable (B:=B) self loc).
Proof.
  unfold location_converts, _is_cloneable.
  destruct (_parse_location_text loc) as [[|a [|b [|c [|d [|x l]]]]]|e];
    try (intros _; apply settles_raise).
  - cbn [forallb]. intros Hall.
    apply andb_prop in Hall as [_ Hall]. apply andb_prop in Hall as [_ Hall].
    apply andb_prop in Hall as [Hc Hall]. apply andb_prop in Hall as [Hd _].
    apply settles_bind; [apply settles__get_fsid|]. settle Hm.
  - intros _. destruct e; settle Hm.
Qed.

Lemma settles_clone_image self volume loc :
  match loc with
  | Some location => location_converts location = true
  | None => True
  end ->
  settles w (clone_image (B:=B) self volume loc).
Proof.
  unfold clone_image. destruct loc as [loc|]; [|settle Hm].
  intros Hloc.
  apply settles_bind; [apply settles__is_cloneable; exact Hloc|].
  intros ok. destruct ok; cbn [negb]; [|settle Hm].
  destruct (_parse_location_text loc) as [[|a [|b [|c [|d [|x l]]]]]|e];
    try apply settles_raise.
  apply settles_bind; [apply settles__clone|]. intros _.
  apply settles_bind; [apply settles__resize|]. settle Hm.
Qed.

Lemma settles_run self (op : operation) :
  names_convert op = true -> settles w (run (B:=B) self op).
Proof.
  destruct op; cbn [run names_convert]; intros Hn.
  - unfold check_for_setup_error. settle Hm.
  - unfold _update_volume_stats. settle Hm.
  - unfold create_cloned_volume. settle Hm.
  - unfold create_volume. settle Hm.
  - apply settles__flatten.
  - apply settles__clone.
  - apply settles__resize.
  - unfold create_volume_from_snapshot.
    apply settles_bind; [apply settles__clone|]. intros _.
    apply settles_bind.
    + destruct (rbd_flatten_volume_from_snapshot (conf self));
        [apply settles__flatten | apply settles_ret].
    + intros _. destruct (vol_size volume =? 0);
        [apply settles_ret | apply settles__resize].
  - apply settles_delete_volume.
  - unfold create_snapshot. settle Hm.
  - unfold delete_snapshot. settle Hm.
  - apply settles_bind; [apply settles__get_fsid | settle Hm].
  - apply settles_bind; [apply settles__is_cloneable; exact Hn | settle Hm].
  - apply settles_bind; [apply settles_clone_image | settle Hm].
    destruct image_location; [exact Hn|exact I].
  - unfold copy_image_to_volume.
    apply settles_bind; [settle Hm|]. intros _.
    apply settles_bind; [|intros _; apply settles__resize].
    apply settles_with_plain; [settle Hm | settle Hm |].
    intros tmp. apply settles_bind; [settle Hm|]. intros _.
    apply settles_bind; [apply settles_delete_volume|]. settle Hm.
  - unfold backup_volume. settle Hm.
  - unfold restore_backup. settle Hm.
  - unfold extend_volume.
    apply settles_try_except; [apply settles__resize|].
    intros e h Hh. injection Hh as <-. apply settles_raise.
Qed.

End Operations.

(** X1: Every operation whose names convert closes each pool handle and
    each image it opened, on every way out: in its trace the successful
    [open_ioctx] calls are as many as the [ioctx.close()] calls, and the
    successful [rbd.Image] constructions as many as the [image.close()]
    calls.  The names are the pieces of an image location and the source
    pool of [_clone], which are handed to [str()]. *)
Theorem handles_closed_when_names_convert {B : Type} `{Backend B}
        (self : driver) (op : operation) (s : state B) :
  names_convert op = true ->
  tally ioctx_weight (trace (run self op s)) = 0
  /\ tally image_weight (trace (run self op s)) = 0.
Proof.
  intros Hn. split.
  - apply (settles_run ioctx_weight managed_ioctx); exact Hn.
  - apply (settles_run image_weight managed_image); exact Hn.
Qed.

End HandleFacts.

(** * What the operations call *)

Module CallFacts.
Section Combinators.
Context {B : Type} `{Backend B}.
Variable Q : event -> Prop.

Lemma emits_only_ret {A} (a : A) : emits_only Q (ret (B:=B) a).
Proof. intros s. constructor. Qed.

Lemma emits_only_raise {A} (e : exn) : emits_only Q (raise (B:=B) (A:=A) e).
Proof. intros s. constructor. Qed.

Lemma emits_only_ext op : emits_only Q (ext (B:=B) op).
Proof.
  intros s. unfold ext, trace. destruct (external op (backend s)).
  constructor.
Qed.

Lemma emits_only_eval {A} (r : result exn A) : emits_only Q (eval (B:=B) r).
Proof. intros s. constructor. Qed.

(** The continuation matters only at the values [m] can return. *)
Lemma emits_only_bind {A C} (P : A -> Prop) (m : M B A) (f : A -> M B C) :
  emits_only Q m -> returns_only P m ->
  (forall a, P a -> emits_only Q (f a)) ->
  emits_only Q (bind m f).
Proof.
  intros Hm Hr Hf s. unfold bind, trace.
  pose proof (Hm s) as Hms. pose proof (Hr s) as Hrs.
  unfold trace, outcome in Hms, Hrs.
  destruct (m s) as [[[a|e] s1] t1]; cbn [fst snd] in *; [|exact Hms].
  pose proof (Hf a (Hrs a eq_refl) s1) as Hfs. unfold trace in Hfs.
  destruct (f a s1) as [[r s2] t2]; cbn [fst snd] in *.
  apply Forall_app. split; assumption.
Qed.

Lemma emits_only_seq {A C} (m : M B A) (f : A -> M B C) :
  emits_only Q m -> (forall a, emits_only Q (f a)) ->
  emits_only Q (bind m f).
Proof.
  intros Hm Hf. apply (emits_only_bind (fun _ => True)); auto.
  intros s a _. exact I.
Qed.

Lemma emits_only_try_except {A} (m : M B A)
      (handler : exn -> option (M B A)) :
  emits_only Q m ->
  (forall e h, handler e = Some h -> emits_only Q h) ->
  emits_only Q (try_except m handler).
Proof.
  intros Hm Hh s. unfold try_except, trace.
  pose proof (Hm s) as Hms. unfold trace in Hms.
  destruct (m s) as [[[a|e] s1] t1]; cbn [fst snd] in *; [exact Hms|].
  destruct (handler e) as [h|] eqn:He; cbn [fst snd]; [|exact Hms].
  pose proof (Hh e h He s1) as Hhs. unfold trace in Hhs.
  destruct (h s1) as [[r s2] t2]; cbn [fst snd] in *.
  apply Forall_app. split; assumption.
Qed.

Lemma emits_only_try_finally {A} (m : M B A) (fin : M B unit) :
  emits_only Q m -> emits_only Q fin -> emits_only Q (try_finally m fin).
Proof.
  intros Hm Hf s. unfold try_finally, trace.
  pose proof (Hm s) as Hms. unfold trace in Hms.
  destruct (m s) as [[r s1] t1]; cbn [fst snd] in *.
  pose proof (Hf s1) as Hfs. unfold trace in Hfs.
  destruct (fin s1) as [[[[]|e] s2] t2]; cbn [fst snd] in *;
    apply Forall_app; split; assumption.
Qed.

Lemma emits_only_with {R A} (P : R -> Prop) (enter : M B R)
      (exit : R -> M B unit) (body : R -> M B A) :
  emits_only Q enter -> returns_only P enter ->
  (forall r, P r -> emits_only Q (exit r)) ->
  (forall r, P r -> emits_only Q (body r)) ->
  emits_only Q (with_ enter exit body).
Proof.
  intros He Hr Hx Hb. unfold with_.
  apply (emits_only_bind P); [exact He|exact Hr|].
  intros r Hp. apply emits_only_try_finally; auto.
Qed.

(** *** The calls themselves *)

Lemma emits_only_get_fsid c :
  (forall ok, Q (EvGetFsid c ok)) -> emits_only Q (get_fsid (B:=B) c).
Proof.
  intros Hq s. unfold get_fsid, trace.
  destruct (rados_get_fsid c (backend s)). repeat constructor. apply Hq.
Qed.

Lemma emits_only_get_cluster_stats c :
  (forall ok, Q (EvGetClusterStats c ok)) ->
  emits_only Q (get_cluster_stats (B:=B) c).
Proof.
  intros Hq s. unfold get_cluster_stats, trace.
  destruct (rados_get_cluster_stats c (backend s)).
  repeat constructor. apply Hq.
Qed.

Lemma emits_only_Image_call img op :
  (forall r, Q (EvImageCall img op r)) ->
  emits_only Q (Image_call (B:=B) img op).
Proof.
  intros Hq s. unfold Image_call, trace.
  destruct (rbd_Image_call img op (backend s)). repeat constructor. apply Hq.
Qed.

Lemma emits_only_RBD_call op :
  (forall r, Q (EvRBDCall op r)) -> emits_only Q (RBD_call (B:=B) op).
Proof.
  intros Hq s. unfold RBD_call, trace.
  destruct (rbd_RBD_call op (backend s)). repeat constructor. apply Hq.
Qed.

(** *** The two context managers *)

Hypothesis connection_calls : forall ev, is_connection_event ev = true -> Q ev.

Lemma emits_only__connect_to_rados self pool :
  emits_only Q (_connect_to_rados (B:=B) self pool).
Proof.
  intros s. eapply Forall_impl; [|apply DriverFacts.connect_events_only].
  exact connection_calls.
Qed.

Lemma emits_only__disconnect_from_rados self c io :
  emits_only Q (_disconnect_from_rados (B:=B) self c io).
Proof.
  intros s. rewrite ConnectionFacts._disconnect_from_rados_run.
  repeat constructor; apply connection_calls; reflexivity.
Qed.

Lemma _connect_to_rados_returns self pool :
  returns_only (fun p => ioctx_client (snd p) = fst p
                         /\ ioctx_pool (snd p)
                            = chars (text_or pool (rbd_pool (conf self))))
               (_connect_to_rados (B:=B) self pool).
Proof.
  intros s p Hp.
  destruct (ConnectionFacts._connect_to_rados_cases self pool s)
    as [[Ho _]|[[Ho _]|[[Ho _]|[[Ho _]|[_ [Ho _]]]]]]; rewrite Ho in Hp;
    inversion Hp; subst; split; reflexivity.
Qed.

Lemma RADOSClient_returns self pool :
  returns_only (client_for self pool) (RADOSClient.__init__ (B:=B) self pool).
Proof.
  intros s r Hr. pose proof (_connect_to_rados_returns self pool s) as Hc.
  unfold RADOSClient.__init__, bind, ret, outcome in *.
  destruct (_connect_to_rados self pool s) as [[[[c io]|e] s1] t1];
    cbn [fst snd] in *; [|discriminate].
  inversion Hr; subst. destruct (Hc _ eq_refl) as [Hcl Hpool].
  repeat split; assumption.
Qed.

Lemma emits_only_with_client {A} self pool (body : RADOSClient.t -> M B A) :
  (forall r, client_for self pool r -> emits_only Q (body r)) ->
  emits_only Q (with_client self pool body).
Proof.
  intros Hb. unfold with_client.
  apply (emits_only_with (client_for self pool)).
  - unfold RADOSClient.__init__. apply emits_only_seq.
    + apply emits_only__connect_to_rados.
    + intros p. apply emits_only_ret.
  - apply RADOSClient_returns.
  - intros r _. apply emits_only__disconnect_from_rados.
  - exact Hb.
Qed.

Lemma RBDVolumeProxy_returns self name pool snapshot read_only :
  returns_only (proxy_for self name pool snapshot read_only)
               (RBDVolumeProxy.__init__ (B:=B) self name pool snapshot
                                        read_only).
Proof.
  intros s p Hp. pose proof (_connect_to_rados_returns self pool s) as Hret.
  unfold outcome in Hret.
  destruct (_connect_to_rados self pool s) as [[[[c io]|e] s1] t1] eqn:Hc.
  - destruct (Hret _ eq_refl) as [Hcl Hpool]. cbn [fst snd] in Hcl, Hpool.
    destruct (converts name && converts_opt snapshot) eqn:Hn.
    2:{ rewrite (ConnectionFacts.proxy_init_str_raises
                   _ _ _ _ _ _ _ _ _ _ Hc Hn) in Hp. discriminate. }
    apply andb_prop in Hn as [Hn Hs].
    destruct (rbd_Image {| image_ioctx := io; image_name := chars name;
                           image_snapshot := option_map chars snapshot;
                           image_read_only := read_only |} (backend s1))
      as [[[]|e] b2] eqn:Hi.
    + rewrite (ConnectionFacts.proxy_init_succeeds
                 _ _ _ _ _ _ _ _ _ _ _ Hc Hn Hs Hi) in Hp.
      inversion Hp; subst. repeat split; assumption.
    + rewrite (ConnectionFacts.proxy_init_image_raises
                 _ _ _ _ _ _ _ _ _ _ _ _ Hc Hn Hs Hi) in Hp. discriminate.
  - rewrite (ConnectionFacts.proxy_init_connect_raises
               _ _ _ _ _ _ _ _ _ Hc) in Hp. discriminate.
Qed.

Lemma emits_only_proxy_init self name pool snapshot read_only :
  (forall img r,
      image_name img = chars name ->
      image_snapshot img = option_map chars snapshot ->
      image_read_only img = read_only ->
      ioctx_pool (image_ioctx img)
      = chars (text_or pool (rbd_pool (conf self))) ->
      Q (EvImageOpen img r)) ->
  emits_only Q (RBDVolumeProxy.__init__ (B:=B) self name pool snapshot
                                        read_only).
Proof.
  intros Hq s.
  pose proof (emits_only__connect_to_rados self pool s) as Hconn.
  pose proof (_connect_to_rados_returns self pool s) as Hret.
  unfold outcome, trace in Hconn, Hret.
  destruct (_connect_to_rados self pool s) as [[[[c io]|e] s1] t1] eqn:Hc;
    cbn [fst snd] in Hconn.
  - destruct (Hret _ eq_refl) as [_ Hpool]. cbn [snd] in Hpool.
    destruct (converts name && converts_opt snapshot) eqn:Hn.
    2:{ rewrite (ConnectionFacts.proxy_init_str_raises
                   _ _ _ _ _ _ _ _ _ _ Hc Hn). exact Hconn. }
    apply andb_prop in Hn as [Hn Hs].
    destruct (rbd_Image {| image_ioctx := io; image_name := chars name;
                           image_snapshot := option_map chars snapshot;
                           image_read_only := read_only |} (backend s1))
      as [[[]|e] b2] eqn:Hi.
    + rewrite (ConnectionFacts.proxy_init_succeeds
                 _ _ _ _ _ _ _ _ _ _ _ Hc Hn Hs Hi).
      unfold trace. cbn [snd]. apply Forall_app. split; [exact Hconn|].
      repeat constructor. apply Hq; auto.
    + rewrite (ConnectionFacts.proxy_init_image_raises
                 _ _ _ _ _ _ _ _ _ _ _ _ Hc Hn Hs Hi).
      unfold trace. cbn [snd]. apply Forall_app. split; [exact Hconn|].
      repeat constructor; try (apply connection_calls; reflexivity).
      apply Hq; auto.
  - rewrite (ConnectionFacts.proxy_init_connect_raises _ _ _ _ _ _ _ _ _ Hc).
    exact Hconn.
Qed.

Lemma emits_only_proxy_exit (p : RBDVolumeProxy.t) :
  (forall r, Q (EvImageClose (RBDVolumeProxy.volume p) r)) ->
  emits_only Q (RBDVolumeProxy.__exit__ (B:=B) p).
Proof.
  intros Hq s. rewrite ConnectionFacts.proxy_exit_run. unfold trace.
  cbn [snd]. repeat constructor; try (apply connection_calls; reflexivity).
  apply Hq.
Qed.

Lemma emits_only_with_proxy {A} self name pool snapshot read_only
      (body : RBDVolumeProxy.t -> M B A) :
  (forall img r,
      image_name img = chars name ->
      image_snapshot img = option_map chars snapshot ->
      image_read_only img = read_only ->
      ioctx_pool (image_ioctx img)
      = chars (text_or pool (rbd_pool (conf self))) ->
      Q (EvImageOpen img r) /\ Q (EvImageClose img r)) ->
  (forall p, proxy_for self name pool snapshot read_only p ->
             emits_only Q (body p)) ->
  emits_only Q (with_proxy self name pool snapshot read_only body).
Proof.
  intros Hq Hb. unfold with_proxy.
  apply (emits_only_with (proxy_for self name pool snapshot read_only)).
  - apply emits_only_proxy_init. intros img r H1 H2 H3 H4.
    apply (Hq img r H1 H2 H3 H4).
  - apply RBDVolumeProxy_returns.
  - intros p (H1 & H2 & H3 & H4 & H5 & _). apply emits_only_proxy_exit.
    intros r. apply (Hq _ r H1 H2 H3). rewrite H4. exact H5.
  - exact Hb.
Qed.

End Combinators.

Ltac connection_ok :=
  let ev := fresh "ev" in
  intros ev; destruct ev; cbn; intros; try discriminate; exact I.

Section Operations.
Context {B : Type} `{Backend B}.

(** X5: [create_volume] makes no call but connection management and
    [create] for the volume's name in the configured pool, in the legacy
    format with no features exactly when the binding has no
    [RBD_FEATURE_LAYERING], and otherwise in the new format with that
    feature. *)
Theorem create_volume_calls (self : driver) (volume : volume_ref)
        (s : state B) :
  Forall (create_volume_call self volume) (trace (create_volume self volume s)).
Proof.
  revert s. change (emits_only (create_volume_call self volume)
                               (create_volume (B:=B) self volume)).
  unfold create_volume. apply emits_only_with_client; [connection_ok|].
  intros r (Hpool & _). apply emits_only_RBD_call. intros res.
  cbn. rewrite Hpool. unfold _supports_layering.
  destruct (RBD_FEATURE_LAYERING self) as [f|]; repeat split;
    try discriminate; try congruence.
Qed.

Lemma _resize_emits self volume size bytes :
  bytes = match size with
          | Some n => if n =? 0 then vol_size volume * GiB else n
          | None => vol_size volume * GiB
          end ->
  emits_only (resize_call self volume bytes) (_resize (B:=B) self volume size).
Proof.
  intros ->. unfold _resize. apply emits_only_with_proxy.
  - connection_ok.
  - intros img r H1 H2 H3 H4. cbn. auto.
  - intros p (H1 & _). apply emits_only_Image_call. intros r. cbn. auto.
Qed.

(** Once connected, a [with RBDVolumeProxy(...)] block goes on to open
    the image. *)
Lemma with_proxy_opens_image {A} self name pool snapshot read_only
      (body : RBDVolumeProxy.t -> M B A) (s s0 : state B) c io t0 :
  _connect_to_rados self pool s = (Ok (c, io), s0, t0) ->
  converts name = true -> converts_opt snapshot = true ->
  let img := {| image_ioctx := io; image_name := chars name;
                image_snapshot := option_map chars snapshot;
                image_read_only := read_only |} in
  exists rest,
    trace (with_proxy self name pool snapshot read_only body s)
    = t0 ++ EvImageOpen img (error_of (fst (rbd_Image img (backend s0))))
         :: rest.
Proof.
  intros Hc Hn Hs img.
  destruct (rbd_Image img (backend s0)) as [[[]|e] b2] eqn:Hi.
  - pose proof (ConnectionFacts.proxy_init_succeeds
                  _ _ _ _ read_only _ _ _ _ _ _ Hc Hn Hs Hi) as Hp.
    fold img in Hp.
    match type of Hp with
    | _ = (Ok ?p, ?s1, _) =>
        destruct (body p s1) as [[rb s2] t2] eqn:Hb;
        destruct (RunFacts.with_proxy_run _ _ _ _ _ _ _ _ _ _ _ _ _ Hp Hb)
          as [_ Ht]
    end.
    rewrite Ht, <- app_assoc. cbn [fst error_of app]. eexists. reflexivity.
  - pose proof (ConnectionFacts.proxy_init_image_raises
                  _ _ _ _ read_only _ _ _ _ _ _ _ Hc Hn Hs Hi) as Hp.
    fold img in Hp.
    rewrite (RunFacts.with_proxy_init_raises _ _ _ _ _ body _ _ _ _ Hp).
    cbn [trace snd fst error_of app]. eexists. reflexivity.
Qed.

(** A [with RBDVolumeProxy(...)] block whose body is one call on the
    image: once the proxy is built the call is made, then the proxy is
    closed. *)
Lemma with_proxy_one_call self name pool snapshot read_only
      (op : RBDVolumeProxy.t -> image_op) (s s1 : state B) p t1 :
  RBDVolumeProxy.__init__ self name pool snapshot read_only s
  = (Ok p, s1, t1) ->
  let x := with_proxy self name pool snapshot read_only
             (fun vol => RBDVolumeProxy.call vol (op vol)) s in
  let vol := RBDVolumeProxy.volume p in
  let r := rbd_Image_call vol (op p) (backend s1) in
  let rc := fst (rbd_Image_close vol (snd r)) in
  trace x = t1 ++ [EvImageCall vol (op p) (error_of (fst r))]
               ++ proxy_exit_trace p rc
  /\ outcome x = after_close (lift_rbd (fst r)) rc.
Proof.
  intros Hp x vol r rc. subst x.
  destruct (RBDVolumeProxy.call p (op p) s1) as [[rb s2] t2] eqn:Hb.
  destruct (RunFacts.with_proxy_run
              _ _ _ _ _ (fun vol => RBDVolumeProxy.call vol (op vol))
              _ _ _ _ _ _ _ Hp Hb) as [Ho Ht].
  rewrite Ho, Ht. clear Ho Ht.
  unfold RBDVolumeProxy.call, Image_call in Hb. fold vol in Hb.
  subst rc. fold r in Hb. destruct r as [rr b2]. cbn in Hb.
  inversion Hb; subst. cbn [fst snd backend with_backend].
  split; reflexivity.
Qed.

(** X6: [_resize] opens the volume's image for writing in the configured
    pool and makes one kind of call on it: [resize] to the explicit size
    when one is given and is not zero, and otherwise to the volume's own
    size in GiB.  [extend_volume] does the same with [new_size] GiB, so
    extending to 0 resizes to the volume's recorded size. *)
Theorem _resize_calls (self : driver) (volume : volume_ref) (s : state B) :
  Forall (resize_call self volume (vol_size volume * GiB))
         (trace (_resize self volume None s))
  /\ Forall (resize_call self volume (vol_size volume * GiB))
            (trace (_resize self volume (Some 0) s))
  /\ (forall n, n <> 0 ->
                Forall (resize_call self volume n)
                       (trace (_resize self volume (Some n) s)))
  /\ (forall new_size, new_size <> 0 ->
                       Forall (resize_call self volume (new_size * GiB))
                              (trace (extend_volume self volume new_size s)))
  /\ Forall (resize_call self volume (vol_size volume * GiB))
            (trace (extend_volume self volume 0 s))
  /\ (forall size c io s0 t0,
         _connect_to_rados self None s = (Ok (c, io), s0, t0) ->
         let img := {| image_ioctx := io; image_name := vol_name volume;
                       image_snapshot := None; image_read_only := false |} in
         exists rest,
           trace (_resize self volume size s)
           = t0 ++ EvImageOpen img
                     (error_of (fst (rbd_Image img (backend s0)))) :: rest)
  /\ (forall size p s1 t1,
         RBDVolumeProxy.__init__ self (vol_name volume) None None false s
         = (Ok p, s1, t1) ->
         let bytes := match size with
                      | Some n => if n =? 0 then vol_size volume * GiB else n
                      | None => vol_size volume * GiB
                      end in
         let vol := RBDVolumeProxy.volume p in
         let r := rbd_Image_call vol (Resize bytes) (backend s1) in
         let rc := fst (rbd_Image_close vol (snd r)) in
         trace (_resize self volume size s)
         = t1 ++ [EvImageCall vol (Resize bytes) (error_of (fst r))]
              ++ proxy_exit_trace p rc
         /\ outcome (_resize self volume size s)
            = after_close (lift_rbd (fst r)) rc)
  /\ (forall new_size p s1 t1,
         RBDVolumeProxy.__init__ self (vol_name volume) None None false s
         = (Ok p, s1, t1) ->
         let bytes := if new_size =? 0 then vol_size volume * GiB
                      else new_size * GiB in
         let vol := RBDVolumeProxy.volume p in
         let r := rbd_Image_call vol (Resize bytes) (backend s1) in
         let rc := fst (rbd_Image_close vol (snd r)) in
         trace (extend_volume self volume new_size s)
         = t1 ++ [EvImageCall vol (Resize bytes) (error_of (fst r))]
              ++ proxy_exit_trace p rc).
Proof.
  assert (Hext : forall new_size bytes,
             bytes = (if new_size * GiB =? 0 then vol_size volume * GiB
                      else new_size * GiB) ->
             emits_only (resize_call self volume bytes)
                        (extend_volume (B:=B) self volume new_size)).
  { intros new_size bytes Hb. unfold extend_volume.
    apply emits_only_try_except.
    - apply _resize_emits. exact Hb.
    - intros e h Hh. injection Hh as <-. apply emits_only_raise. }
  assert (Hrun : forall size p s1 t1,
             RBDVolumeProxy.__init__ self (vol_name volume) None None false s
             = (Ok p, s1, t1) ->
             let bytes := match size with
                          | Some n =>
                              if n =? 0 then vol_size volume * GiB else n
                          | None => vol_size volume * GiB
                          end in
             let vol := RBDVolumeProxy.volume p in
             let r := rbd_Image_call vol (Resize bytes) (backend s1) in
             let rc := fst (rbd_Image_close vol (snd r)) in
             trace (_resize self volume size s)
             = t1 ++ [EvImageCall vol (Resize bytes) (error_of (fst r))]
                  ++ proxy_exit_trace p rc
             /\ outcome (_resize self volume size s)
                = after_close (lift_rbd (fst r)) rc).
  { intros size p s1 t1 Hp bytes. unfold _resize. fold bytes.
    exact (with_proxy_one_call self (vol_name volume) None None false
             (fun _ => Resize bytes) s s1 p t1 Hp). }
  split; [|split; [|split; [|split; [|split; [|split; [|split]]]]]].
  - apply (_resize_emits self volume None). reflexivity.
  - apply (_resize_emits self volume (Some 0)). reflexivity.
  - intros n Hn. apply (_resize_emits self volume (Some n)).
    apply Z.eqb_neq in Hn. rewrite Hn. reflexivity.
  - intros new_size Hn. apply Hext.
    assert (Hne : new_size * GiB <> 0) by (unfold GiB; lia).
    apply Z.eqb_neq in Hne. rewrite Hne. reflexivity.
  - apply Hext. reflexivity.
  - intros size c io s0 t0 Hc img. unfold _resize.
    exact (with_proxy_opens_image self (vol_name volume) None None false _
             s s0 c io t0 Hc eq_refl eq_refl).
  - exact Hrun.
  - intros new_size p s1 t1 Hp bytes vol r rc.
    assert (Hb : bytes = match Some (new_size * GiB) with
                         | Some n =>
                             if n =? 0 then vol_size volume * GiB else n
                         | None => vol_size volume * GiB
                         end).
    { subst bytes. destruct (new_size =? 0) eqn:E.
      - apply Z.eqb_eq in E. subst. reflexivity.
      - apply Z.eqb_neq in E.
        assert (Hne : new_size * GiB <> 0) by (unfold GiB; lia).
        apply Z.eqb_neq in Hne. rewrite Hne. reflexivity. }
    destruct (Hrun (Some (new_size * GiB)) p s1 t1 Hp) as [Ht _].
    rewrite <- Hb in Ht. fold vol r rc in Ht. rewrite <- Ht.
    unfold extend_volume, try_except, trace, raise.
    destruct (_resize self volume (Some (new_size * GiB)) s)
      as [[[[]|e] s2] t2]; cbn [fst snd]; rewrite ?app_nil_r; reflexivity.
Qed.

Lemma read_only_connection ev :
  is_connection_event ev = true -> read_only_call ev.
Proof. revert ev. connection_ok. Qed.

Lemma _get_fsid_read_only self :
  emits_only read_only_call (_get_fsid (B:=B) self).
Proof.
  unfold _get_fsid. apply emits_only_with_client;
    [exact read_only_connection|].
  intros r _. apply emits_only_get_fsid. intros ok. exact I.
Qed.

Lemma _is_cloneable_read_only self location :
  emits_only read_only_call (_is_cloneable (B:=B) self location).
Proof.
  unfold _is_cloneable.
  destruct (_parse_location_text location)
    as [[|a [|b [|c [|d [|x l]]]]]|e]; try apply emits_only_raise.
  - apply emits_only_seq; [apply _get_fsid_read_only|]. intros own.
    destruct (negb (str_eqb own a)); [apply emits_only_ret|].
    apply emits_only_try_except.
    + apply emits_only_with_proxy.
      * exact read_only_connection.
      * intros img r _ _ Hro _. cbn. auto.
      * intros p _. apply emits_only_ret.
    + intros e h Hh. destruct e; try discriminate.
      injection Hh as <-. apply emits_only_ret.
  - destruct e; first [apply emits_only_ret | apply emits_only_raise].
Qed.

(** X11: The operations that only look: [_get_fsid], [_is_cloneable],
    [check_for_setup_error] and [_update_volume_stats] make no
    [rbd.RBD()] call and no call on an image, and open images read-only
    only. *)
Theorem looking_changes_nothing (self : driver) (s : state B) :
  Forall read_only_call (trace (_get_fsid self s))
  /\ (forall location,
         Forall read_only_call (trace (_is_cloneable self location s)))
  /\ Forall read_only_call (trace (check_for_setup_error self s))
  /\ Forall read_only_call (trace (_update_volume_stats self s)).
Proof.
  split; [|split; [|split]].
  - apply _get_fsid_read_only.
  - intros location. apply _is_cloneable_read_only.
  - revert s. change (emits_only read_only_call
                                 (check_for_setup_error (B:=B) self)).
    unfold check_for_setup_error.
    destruct (negb (rados_imported self)); [apply emits_only_raise|].
    apply emits_only_try_except.
    + apply emits_only_with_client; [exact read_only_connection|].
      intros r _. apply emits_only_ret.
    + intros e h Hh. destruct e; try discriminate.
      injection Hh as <-. apply emits_only_raise.
  - revert s. change (emits_only read_only_call
                                 (_update_volume_stats (B:=B) self)).
    unfold _update_volume_stats. apply emits_only_try_except.
    + apply emits_only_seq.
      * apply emits_only_with_client; [exact read_only_connection|].
        intros r _. apply emits_only_get_cluster_stats. intros ok. exact I.
      * intros st. apply emits_only_ret.
    + intros e h Hh. destruct e; try discriminate.
      injection Hh as <-. apply emits_only_ret.
Qed.

(** X10: [create_cloned_volume] opens the source volume read-only and makes
    one kind of call on it: [copy] to the new volume's name through the
    pool handle of the same connection.  Once connected it goes on to
    open the source, and once the source is open it makes that call and
    closes the proxy; its outcome is the call's, unless the image's
    [close()] raises. *)
Theorem create_cloned_volume_calls (self : driver)
        (volume src_vref : volume_ref) (s : state B) :
  let x := create_cloned_volume self volume src_vref s in
  Forall (cloned_volume_call volume src_vref) (trace x)
  /\ (forall c io s0 t0,
         _connect_to_rados self None s = (Ok (c, io), s0, t0) ->
         let img := {| image_ioctx := io; image_name := vol_name src_vref;
                       image_snapshot := None; image_read_only := true |} in
         exists rest,
           trace x
           = t0 ++ EvImageOpen img
                     (error_of (fst (rbd_Image img (backend s0)))) :: rest)
  /\ (forall p s1 t1,
         RBDVolumeProxy.__init__ self (vol_name src_vref) None None true s
         = (Ok p, s1, t1) ->
         let vol := RBDVolumeProxy.volume p in
         let op := Copy (RBDVolumeProxy.ioctx_ p) (vol_name volume) in
         let r := rbd_Image_call vol op (backend s1) in
         let rc := fst (rbd_Image_close vol (snd r)) in
         trace x = t1 ++ [EvImageCall vol op (error_of (fst r))]
                      ++ proxy_exit_trace p rc
         /\ outcome x = after_close (lift_rbd (fst r)) rc)
  /\ (forall e s1 t1,
         RBDVolumeProxy.__init__ self (vol_name src_vref) None None true s
         = (Err e, s1, t1) ->
         x = (Err e, s1, t1)).
Proof.
  intros x. subst x. split; [|split; [|split]].
  - revert s. change (emits_only (cloned_volume_call volume src_vref)
                        (create_cloned_volume (B:=B) self volume src_vref)).
    unfold create_cloned_volume. apply emits_only_with_proxy.
    + connection_ok.
    + intros img r H1 _ H3 _. cbn. auto.
    + intros p (H1 & _ & _ & H4 & _). apply emits_only_Image_call.
      intros r. cbn. auto.
  - intros c io s0 t0 Hc img. unfold create_cloned_volume.
    exact (with_proxy_opens_image self (vol_name src_vref) None None true _
             s s0 c io t0 Hc eq_refl eq_refl).
  - intros p s1 t1 Hp. unfold create_cloned_volume.
    exact (with_proxy_one_call self (vol_name src_vref) None None true
             (fun vol => Copy (RBDVolumeProxy.ioctx_ vol) (vol_name volume))
             s s1 p t1 Hp).
  - intros e s1 t1 Hp. unfold create_cloned_volume.
    apply RunFacts.with_proxy_init_raises. exact Hp.
Qed.

Lemma keeps_connection ev :
  is_connection_event ev = true -> keeps_everything ev.
Proof. revert ev. connection_ok. Qed.

Lemma _clone_keeps self volume pool img snap :
  emits_only keeps_everything (_clone (B:=B) self volume pool img snap).
Proof.
  unfold _clone. apply emits_only_with_client; [exact keeps_connection|].
  intros r1 _. apply emits_only_with_client; [exact keeps_connection|].
  intros r2 _.
  apply emits_only_seq; [apply emits_only_eval|]. intros src_image.
  apply emits_only_seq; [apply emits_only_eval|]. intros src_snap.
  destruct (RBD_FEATURE_LAYERING self); [|apply emits_only_raise].
  apply emits_only_RBD_call. intros r. exact I.
Qed.

Lemma _flatten_keeps self pool name :
  emits_only keeps_everything (_flatten (B:=B) self pool name).
Proof.
  unfold _flatten. apply emits_only_with_proxy.
  - exact keeps_connection.
  - intros img r _ _ _ _. split; exact I.
  - intros p _. apply emits_only_Image_call. intros r. exact I.
Qed.

Lemma _resize_keeps self volume size :
  emits_only keeps_everything (_resize (B:=B) self volume size).
Proof.
  unfold _resize. apply emits_only_with_proxy.
  - exact keeps_connection.
  - intros img r _ _ _ _. split; exact I.
  - intros p _. apply emits_only_Image_call. intros r. exact I.
Qed.

(** X9: No rollback: [create_volume_from_snapshot] and [clone_image] never
    call [remove] or [remove_snap], so a clone that was made stays when a
    later flatten or resize raises; and when the clone itself raises,
    [create_volume_from_snapshot] stops there with that error. *)
Theorem no_rollback (self : driver) (volume : volume_ref) (s : state B) :
  (forall snapshot,
      Forall keeps_everything
             (trace (create_volume_from_snapshot self volume snapshot s)))
  /\ (forall image_location,
         Forall keeps_everything
                (trace (clone_image self volume image_location s)))
  /\ (forall snapshot e s1 t1,
         _clone self volume (Some (Str (rbd_pool (conf self))))
                (snap_volume_name snapshot) (snap_name snapshot) s
         = (Err e, s1, t1) ->
         create_volume_from_snapshot self volume snapshot s = (Err e, s1, t1)).
Proof.
  split; [|split].
  - intros snapshot. revert s.
    change (emits_only keeps_everything
              (create_volume_from_snapshot (B:=B) self volume snapshot)).
    unfold create_volume_from_snapshot.
    apply emits_only_seq; [apply _clone_keeps|]. intros _.
    apply emits_only_seq.
    + destruct (rbd_flatten_volume_from_snapshot (conf self));
        [apply _flatten_keeps | apply emits_only_ret].
    + intros _. destruct (vol_size volume =? 0);
        [apply emits_only_ret | apply _resize_keeps].
  - intros loc. revert s.
    change (emits_only keeps_everything (clone_image (B:=B) self volume loc)).
    unfold clone_image. destruct loc as [loc|]; [|apply emits_only_ret].
    apply emits_only_seq.
    + intros s. eapply Forall_impl; [|apply _is_cloneable_read_only].
      intros ev Hro. destruct ev; cbn in *; try exact I; contradiction.
    + intros ok. destruct (negb ok); [apply emits_only_ret|].
      destruct (_parse_location_text loc) as [[|a [|b [|c [|d [|x l]]]]]|e];
        try apply emits_only_raise.
      apply emits_only_seq; [apply _clone_keeps|]. intros _.
      apply emits_only_seq; [apply _resize_keeps|]. intros _.
      apply emits_only_ret.
  - intros snapshot e s1 t1 Hc. unfold create_volume_from_snapshot, bind.
    rewrite Hc. reflexivity.
Qed.

End Operations.
End CallFacts.

(** * What the operations raise *)

Module RaiseFacts.
Section Combinators.
Context {B : Type} `{Backend B}.


Lemma raises_only_ret {A} (P : exn -> Prop) (a : A) :
  raises_only P (ret (B:=B) a).
Proof. intros s e He. discriminate He. Qed.

Lemma raises_only_raise {A} (P : exn -> Prop) (e : exn) :
  P e -> raises_only P (raise (B:=B) (A:=A) e).
Proof. intros Hp s e' He. inversion He. subst. exact Hp. Qed.

Lemma raises_only_bind {A C} (P : exn -> Prop) (m : M B A) (f : A -> M B C) :
  raises_only P m -> (forall a, raises_only P (f a)) ->
  raises_only P (bind m f).
Proof.
  intros Hm Hf s e. unfold bind, outcome.
  pose proof (Hm s) as Hms. unfold outcome in Hms.
  destruct (m s) as [[[a|e0] s1] t1]; cbn [fst snd] in *.
  - pose proof (Hf a s1) as Hfs. unfold outcome in Hfs.
    destruct (f a s1) as [[r s2] t2]; cbn [fst snd] in *. apply Hfs.
  - intros Heq. inversion Heq. subst. apply Hms. reflexivity.
Qed.

Lemma raises_only_try_except {A} (P0 P : exn -> Prop) (m : M B A)
      (handler : exn -> option (M B A)) :
  raises_only P0 m ->
  (forall e, P0 e -> handler e = None -> P e) ->
  (forall e h, P0 e -> handler e = Some h -> raises_only P h) ->
  raises_only P (try_except m handler).
Proof.
  intros Hm Hnone Hsome s e. unfold try_except, outcome.
  pose proof (Hm s) as Hms. unfold outcome in Hms.
  destruct (m s) as [[[a|e0] s1] t1]; cbn [fst snd] in *; [discriminate|].
  pose proof (Hms e0 eq_refl) as Hp0.
  destruct (handler e0) as [h|] eqn:He0; cbn [fst snd].
  - pose proof (Hsome e0 h Hp0 He0 s1) as Hhs. unfold outcome in Hhs.
    destruct (h s1) as [[r s2] t2]; cbn [fst snd] in *. apply Hhs.
  - intros Heq. inversion Heq. subst. apply Hnone; assumption.
Qed.

Lemma raises_only_try_finally {A} (P : exn -> Prop) (m : M B A)
      (fin : M B unit) :
  raises_only P m -> raises_only P fin -> raises_only P (try_finally m fin).
Proof.
  intros Hm Hf s e. unfold try_finally, outcome.
  pose proof (Hm s) as Hms. unfold outcome in Hms.
  destruct (m s) as [[r s1] t1]; cbn [fst snd] in *.
  pose proof (Hf s1) as Hfs. unfold outcome in Hfs.
  destruct (fin s1) as [[[[]|e1] s2] t2]; cbn [fst snd] in *.
  - apply Hms.
  - intros Heq. inversion Heq. subst. apply Hfs. reflexivity.
Qed.

Lemma raises_only_with {R A} (P : exn -> Prop) (enter : M B R)
      (exit : R -> M B unit) (body : R -> M B A) :
  raises_only P enter -> (forall r, raises_only P (exit r)) ->
  (forall r, raises_only P (body r)) ->
  raises_only P (with_ enter exit body).
Proof.
  intros He Hx Hb. unfold with_. apply raises_only_bind; [exact He|].
  intros r. apply raises_only_try_finally; auto.
Qed.


Lemma raises_only_get_cluster_stats c :
  raises_only is_rados_error (get_cluster_stats (B:=B) c).
Proof.
  intros s e. unfold get_cluster_stats, outcome.
  destruct (rados_get_cluster_stats c (backend s)) as [[x|[]] b]; cbn;
    intros Heq; inversion Heq; reflexivity.
Qed.





Lemma raises_only__connect_to_rados (P : exn -> Prop) self pool :
  P RadosError ->
  (converts_opt pool = false -> P UnicodeEncodeError) ->
  raises_only P (_connect_to_rados (B:=B) self pool).
Proof.
  intros Hr Hu s e He. unfold outcome in He.
  destruct (_connect_to_rados self pool s) as [[r s1] t1] eqn:Hc.
  cbn [fst] in He. subst r.
  destruct (DriverFacts.connect_raises _ _ _ _ _ _ Hc) as [->|[Hp ->]];
    auto.
Qed.

Lemma raises_only__disconnect_from_rados (P : exn -> Prop) self c io :
  raises_only P (_disconnect_from_rados (B:=B) self c io).
Proof. intros s e He. discriminate He. Qed.

Lemma raises_only_with_client {A} (P : exn -> Prop) self pool
      (body : RADOSClient.t -> M B A) :
  P RadosError ->
  (converts_opt pool = false -> P UnicodeEncodeError) ->
  (forall r, raises_only P (body r)) ->
  raises_only P (with_client self pool body).
Proof.
  intros Hp Hu Hb. unfold with_client. apply raises_only_with.
  - unfold RADOSClient.__init__. apply raises_only_bind.
    + apply raises_only__connect_to_rados; assumption.
    + intros p. apply raises_only_ret.
  - intros r. apply raises_only__disconnect_from_rados.
  - exact Hb.
Qed.




End Combinators.


Section Operations.
Context {B : Type} `{Backend B}.








(** X7: [extend_volume] raises nothing but [VolumeBackendAPIException]: every
    error of the resize is replaced by it; it returns exactly when the
    resize does, and makes the same calls. *)
Theorem extend_volume_wraps_errors (self : driver) (volume : volume_ref)
        (new_size : Z) (s : state B) :
  let x := extend_volume self volume new_size s in
  let y := _resize self volume (Some (new_size * GiB)) s in
  (forall e, outcome x = Err e -> is_api_exception e)
  /\ (forall e, outcome y = Err e -> exists e', outcome x = Err e')
  /\ (outcome x = Ok tt <-> outcome y = Ok tt)
  /\ trace x = trace y
  /\ final x = final y.
Proof.
  cbv zeta. unfold extend_volume, try_except, raise, outcome, trace, final.
  destruct (_resize self volume (Some (new_size * GiB)) s)
    as [[[[]|e0] s1] t1]; cbn [fst snd].
  - repeat split; try discriminate; auto.
  - rewrite app_nil_r. repeat split; try discriminate; auto.
    + intros e He. inversion He. eexists. reflexivity.
    + intros e He. eexists. reflexivity.
Qed.

(** X13: [check_for_setup_error] raises [VolumeBackendAPIException] without
    touching the cluster when the [rados] module is missing; otherwise it
    connects and disconnects, returns when the connection was made, and
    raises [VolumeBackendAPIException] when it was not. *)
Theorem check_for_setup_error_outcomes (self : driver) (s : state B) :
  let x := check_for_setup_error self s in
  (rados_imported self = false ->
   x = (Err (VolumeBackendAPIException
               "rados and rbd python libraries not found"), s, []))
  /\ (forall c io s1 t1,
         rados_imported self = true ->
         _connect_to_rados self None s = (Ok (c, io), s1, t1) ->
         outcome x = Ok tt /\ trace x = t1 ++ disconnect_trace c io)
  /\ (forall e s1 t1,
         rados_imported self = true ->
         _connect_to_rados self None s = (Err e, s1, t1) ->
         x = (Err (VolumeBackendAPIException
                     "error connecting to ceph cluster"), s1, t1))
  /\ (forall e, outcome x = Err e -> is_api_exception e).
Proof.
  cbv zeta. unfold check_for_setup_error.
  split; [|split; [|split]].
  - intros ->. reflexivity.
  - intros c io s1 t1 -> Hc. cbn [negb]. unfold try_except.
    pose proof (RunFacts.with_client_run self None
                  (fun _ : RADOSClient.t => ret (B:=B) tt)
                  s s1 s1 c io t1 (@nil event) (Ok tt) Hc eq_refl) as Hrun.
    rewrite Hrun. split; reflexivity.
  - intros e s1 t1 -> Hc. cbn [negb]. unfold try_except.
    rewrite (RunFacts.with_client_connect_raises _ _ _ _ _ _ _ Hc).
    rewrite (DriverFacts.connect_raises_rados_only _ None _ _ _ _ eq_refl Hc).
    cbn. rewrite app_nil_r. reflexivity.
  - destruct (rados_imported self); cbn [negb].
    + revert s.
      change (raises_only is_api_exception
                (try_except (with_client (B:=B) self None (fun _ => ret tt))
                   (fun e =>
                      match e with
                      | RadosError =>
                          Some (raise (VolumeBackendAPIException
                                         "error connecting to ceph cluster"))
                      | _ => None
                      end))).
      apply (raises_only_try_except is_rados_error).
      * apply raises_only_with_client; [reflexivity|discriminate|].
        intros r. apply raises_only_ret.
      * intros e -> Hh. discriminate.
      * intros e h -> Hh. injection Hh as <-.
        apply raises_only_raise. eexists. reflexivity.
    + intros e He. inversion He. eexists. reflexivity.
Qed.


End Operations.
End RaiseFacts.

(** * Blocks, clones and snapshots, call by call *)

Module BlockFacts.
Section Facts.
Context {B : Type} `{Backend B}.

(** X2: [with RADOSClient(self, pool) as client: body]: when connecting
    raises, the body is not run and that error comes out; otherwise the
    block makes the connection's calls, the body's, then closes the pool
    handle and shuts the client down, and its outcome is the body's,
    whether the body returned or raised. *)
Theorem RADOSClient_block {A} (self : driver) (pool : option text)
        (body : RADOSClient.t -> M B A) (s : state B) :
  (forall e s1 t1,
      _connect_to_rados self pool s = (Err e, s1, t1) ->
      with_client self pool body s = (Err e, s1, t1))
  /\ (forall c io s1 t1 r s2 t2,
         _connect_to_rados self pool s = (Ok (c, io), s1, t1) ->
         body {| RADOSClient.driver_ := self; RADOSClient.cluster := c;
                 RADOSClient.ioctx_ := io |} s1 = (r, s2, t2) ->
         with_client self pool body s
         = (r,
            with_backend s2 (rados_shutdown c (ioctx_close io (backend s2))),
            t1 ++ t2 ++ disconnect_trace c io)).
Proof.
  split.
  - intros e s1 t1 Hc. apply RunFacts.with_client_connect_raises. exact Hc.
  - intros c io s1 t1 r s2 t2 Hc Hb.
    apply (RunFacts.with_client_run _ _ _ _ _ _ _ _ _ _ _ Hc Hb).
Qed.

(** X3: [with RBDVolumeProxy(...) as vol: body]: when the constructor raises,
    the body is not run; otherwise the block makes the constructor's
    calls, the body's, then [close()] on the image, [close()] on the pool
    handle and [shutdown()]; its outcome is the body's unless the image's
    [close()] raises, and then it is that [rbd.Error]. *)
Theorem RBDVolumeProxy_block {A} (self : driver) (name : text)
        (pool snapshot : option text) (read_only : bool)
        (body : RBDVolumeProxy.t -> M B A) (s : state B) :
  (forall e s1 t1,
      RBDVolumeProxy.__init__ self name pool snapshot read_only s
      = (Err e, s1, t1) ->
      with_proxy self name pool snapshot read_only body s = (Err e, s1, t1))
  /\ (forall p s1 t1 r s2 t2,
         RBDVolumeProxy.__init__ self name pool snapshot read_only s
         = (Ok p, s1, t1) ->
         body p s1 = (r, s2, t2) ->
         let rc := fst (rbd_Image_close (RBDVolumeProxy.volume p)
                                        (backend s2)) in
         outcome (with_proxy self name pool snapshot read_only body s)
         = after_close r rc
         /\ trace (with_proxy self name pool snapshot read_only body s)
            = t1 ++ t2 ++ proxy_exit_trace p rc).
Proof.
  split.
  - intros e s1 t1 Hp. apply RunFacts.with_proxy_init_raises. exact Hp.
  - intros p s1 t1 r s2 t2 Hp Hb.
    apply (RunFacts.with_proxy_run _ _ _ _ _ _ _ _ _ _ _ _ _ Hp Hb).
Qed.

(** X4: [_clone] connects to the source pool first and to the configured
    pool second, issues one [clone] from the source handle to the
    destination handle, and disconnects in the reverse order.  When the
    second connection cannot be made the first is still closed; when the
    binding has no [RBD_FEATURE_LAYERING] both connections are closed and
    [AttributeError] is raised without any [clone] call; and when the
    source image or snapshot name does not convert both connections are
    closed and the error of [str()] is raised without any [clone]
    call. *)
Theorem _clone_connections (self : driver) (volume : volume_ref)
        (src_pool : option text) (src_image src_snap : text)
        (s : state B) :
  let x := _clone self volume src_pool src_image src_snap s in
  (forall c1 io1 s1 t1 c2 io2 s2 t2 f,
      _connect_to_rados self src_pool s = (Ok (c1, io1), s1, t1) ->
      _connect_to_rados self None s1 = (Ok (c2, io2), s2, t2) ->
      converts src_image = true -> converts src_snap = true ->
      RBD_FEATURE_LAYERING self = Some f ->
      let call := Clone io1 (chars src_image) (chars src_snap) io2
                        (vol_name volume) f in
      let r := fst (rbd_RBD_call call (backend s2)) in
      trace x = t1 ++ (t2 ++ [EvRBDCall call (error_of r)]
                          ++ disconnect_trace c2 io2)
                   ++ disconnect_trace c1 io1
      /\ outcome x = lift_rbd r)
  /\ (forall c1 io1 s1 t1 c2 io2 s2 t2,
         _connect_to_rados self src_pool s = (Ok (c1, io1), s1, t1) ->
         _connect_to_rados self None s1 = (Ok (c2, io2), s2, t2) ->
         converts src_image = true -> converts src_snap = true ->
         RBD_FEATURE_LAYERING self = None ->
         trace x = t1 ++ (t2 ++ disconnect_trace c2 io2)
                      ++ disconnect_trace c1 io1
         /\ outcome x = Err (AttributeError "RBD_FEATURE_LAYERING"))
  /\ (forall c1 io1 s1 t1 e s2 t2,
         _connect_to_rados self src_pool s = (Ok (c1, io1), s1, t1) ->
         _connect_to_rados self None s1 = (Err e, s2, t2) ->
         trace x = t1 ++ t2 ++ disconnect_trace c1 io1
         /\ outcome x = Err e)
  /\ (forall e s1 t1,
         _connect_to_rados self src_pool s = (Err e, s1, t1) ->
         x = (Err e, s1, t1))
  /\ (forall c1 io1 s1 t1 c2 io2 s2 t2,
         _connect_to_rados self src_pool s = (Ok (c1, io1), s1, t1) ->
         _connect_to_rados self None s1 = (Ok (c2, io2), s2, t2) ->
         converts src_image && converts src_snap = false ->
         trace x = t1 ++ (t2 ++ disconnect_trace c2 io2)
                      ++ disconnect_trace c1 io1
         /\ outcome x = Err UnicodeEncodeError).
Proof.
  cbv zeta. unfold _clone.
  match goal with
  | |- context [with_client self src_pool ?b] => set (outer := b)
  end.
  assert (Hrun : forall c1 io1 s1 t1 c2 io2 s2 t2 r' s4 t4,
             _connect_to_rados self src_pool s = (Ok (c1, io1), s1, t1) ->
             _connect_to_rados self None s1 = (Ok (c2, io2), s2, t2) ->
             (src_image' <- eval (str src_image) ;;
              src_snap' <- eval (str src_snap) ;;
              match RBD_FEATURE_LAYERING self with
              | None => raise (AttributeError "RBD_FEATURE_LAYERING")
              | Some f =>
                  RBD_call (Clone io1 src_image' src_snap' io2
                                  (vol_name volume) f)
              end) s2 = (r', s4, t4) ->
             trace (with_client self src_pool outer s)
             = t1 ++ (t2 ++ t4 ++ disconnect_trace c2 io2)
                  ++ disconnect_trace c1 io1
             /\ outcome (with_client self src_pool outer s) = r').
  { intros c1 io1 s1 t1 c2 io2 s2 t2 r' s4 t4 Hc1 Hc2 Hi.
    set (src := {| RADOSClient.driver_ := self; RADOSClient.cluster := c1;
                   RADOSClient.ioctx_ := io1 |}).
    destruct (outer src s1) as [[r s3] t3] eqn:Ho.
    rewrite (RunFacts.with_client_run _ _ _ _ _ _ _ _ _ _ _ Hc1 Ho).
    unfold outer in Ho.
    match type of Ho with
    | context [with_client self None ?b] => set (inner := b) in Ho
    end.
    set (dst := {| RADOSClient.driver_ := self; RADOSClient.cluster := c2;
                   RADOSClient.ioctx_ := io2 |}).
    assert (Hi' : inner dst s2 = (r', s4, t4)) by exact Hi.
    rewrite (RunFacts.with_client_run _ _ _ _ _ _ _ _ _ _ _ Hc2 Hi') in Ho.
    inversion Ho; subst r s3 t3. unfold trace, outcome. cbn [fst snd].
    split; reflexivity. }
  split; [|split; [|split; [|split]]].
  - intros c1 io1 s1 t1 c2 io2 s2 t2 f Hc1 Hc2 Hn1 Hn2 Hf.
    destruct (rbd_RBD_call
                (Clone io1 (chars src_image) (chars src_snap) io2
                       (vol_name volume) f) (backend s2)) as [rr b3] eqn:Hcall.
    refine (Hrun c1 io1 s1 t1 c2 io2 s2 t2 (lift_rbd rr) (with_backend s2 b3)
              [EvRBDCall _ (error_of rr)] Hc1 Hc2 _).
    unfold bind, eval, RBD_call.
    rewrite (StrFacts.str_converts _ Hn1), (StrFacts.str_converts _ Hn2), Hf.
    rewrite Hcall. reflexivity.
  - intros c1 io1 s1 t1 c2 io2 s2 t2 Hc1 Hc2 Hn1 Hn2 Hf.
    refine (Hrun c1 io1 s1 t1 c2 io2 s2 t2 _ s2 [] Hc1 Hc2 _).
    unfold bind, eval, raise.
    rewrite (StrFacts.str_converts _ Hn1), (StrFacts.str_converts _ Hn2), Hf.
    reflexivity.
  - intros c1 io1 s1 t1 e s2 t2 Hc1 Hc2.
    set (src := {| RADOSClient.driver_ := self; RADOSClient.cluster := c1;
                   RADOSClient.ioctx_ := io1 |}).
    destruct (outer src s1) as [[r s3] t3] eqn:Ho.
    rewrite (RunFacts.with_client_run _ _ _ _ _ _ _ _ _ _ _ Hc1 Ho).
    unfold outer in Ho.
    rewrite (RunFacts.with_client_connect_raises _ _ _ _ _ _ _ Hc2) in Ho.
    inversion Ho; subst. unfold trace, outcome. cbn [fst snd].
    split; reflexivity.
  - intros e s1 t1 Hc1.
    apply RunFacts.with_client_connect_raises. exact Hc1.
  - intros c1 io1 s1 t1 c2 io2 s2 t2 Hc1 Hc2 Hn.
    refine (Hrun c1 io1 s1 t1 c2 io2 s2 t2 _ s2 [] Hc1 Hc2 _).
    unfold bind, eval.
    destruct (converts src_image) eqn:E1.
    + cbn in Hn. rewrite (StrFacts.str_converts _ E1),
        (StrFacts.str_fails _ Hn). reflexivity.
    + rewrite (StrFacts.str_fails _ E1). reflexivity.
Qed.

(** X8: Once the image is open, [create_snapshot] creates the snapshot
    first; when that raises nothing is protected; when it succeeds the
    snapshot is protected exactly when the binding has layering.  The
    proxy is closed on every path. *)
Theorem create_snapshot_protects (self : driver) (snapshot : snapshot_ref)
        (s : state B) :
  let x := create_snapshot self snapshot s in
  let snap := snap_name snapshot in
  (forall p s1 t1 e b2,
      RBDVolumeProxy.__init__ self (snap_volume_name snapshot) None None
                              false s = (Ok p, s1, t1) ->
      let vol := RBDVolumeProxy.volume p in
      rbd_Image_call vol (Create_snap snap) (backend s1) = (Err e, b2) ->
      let rc := fst (rbd_Image_close vol b2) in
      trace x = t1 ++ [EvImageCall vol (Create_snap snap) (Some e)]
                   ++ proxy_exit_trace p rc
      /\ outcome x = after_close (Err (RbdError e)) rc)
  /\ (forall p s1 t1 b2 f,
         RBDVolumeProxy.__init__ self (snap_volume_name snapshot) None None
                                 false s = (Ok p, s1, t1) ->
         let vol := RBDVolumeProxy.volume p in
         rbd_Image_call vol (Create_snap snap) (backend s1) = (Ok tt, b2) ->
         RBD_FEATURE_LAYERING self = Some f ->
         let r := rbd_Image_call vol (Protect_snap snap) b2 in
         let rc := fst (rbd_Image_close vol (snd r)) in
         trace x = t1 ++ [EvImageCall vol (Create_snap snap) None;
                          EvImageCall vol (Protect_snap snap)
                                      (error_of (fst r))]
                      ++ proxy_exit_trace p rc
         /\ outcome x = after_close (lift_rbd (fst r)) rc)
  /\ (forall p s1 t1 b2,
         RBDVolumeProxy.__init__ self (snap_volume_name snapshot) None None
                                 false s = (Ok p, s1, t1) ->
         let vol := RBDVolumeProxy.volume p in
         rbd_Image_call vol (Create_snap snap) (backend s1) = (Ok tt, b2) ->
         RBD_FEATURE_LAYERING self = None ->
         let rc := fst (rbd_Image_close vol b2) in
         trace x = t1 ++ [EvImageCall vol (Create_snap snap) None]
                      ++ proxy_exit_trace p rc
         /\ outcome x = after_close (Ok tt) rc).
Proof.
  cbv zeta. unfold create_snapshot.
  match goal with
  | |- context [with_proxy _ _ _ _ _ ?b] => set (body := b)
  end.
  split; [|split].
  - intros p s1 t1 e b2 Hp Hu.
    destruct (body p s1) as [[r s2] t2] eqn:Hb.
    destruct (RunFacts.with_proxy_run _ _ _ _ _ _ _ _ _ _ _ _ _ Hp Hb)
      as [Ho Ht].
    rewrite Ho, Ht. clear Ho Ht.
    unfold body, bind, RBDVolumeProxy.call, Image_call in Hb.
    rewrite Hu in Hb. cbn in Hb. inversion Hb; subst.
    cbn [backend with_backend]. split; reflexivity.
  - intros p s1 t1 b2 f Hp Hu Hf.
    destruct (body p s1) as [[r s2] t2] eqn:Hb.
    destruct (RunFacts.with_proxy_run _ _ _ _ _ _ _ _ _ _ _ _ _ Hp Hb)
      as [Ho Ht].
    rewrite Ho, Ht. clear Ho Ht.
    unfold body, bind, _supports_layering, RBDVolumeProxy.call,
      Image_call in Hb.
    rewrite Hu, Hf in Hb. cbn [lift_rbd error_of backend with_backend] in Hb.
    destruct (rbd_Image_call (RBDVolumeProxy.volume p)
                (Protect_snap (snap_name snapshot)) b2) as [rr b3] eqn:Er.
    rewrite ?Er in Hb. cbn in Hb. inversion Hb; subst.
    cbn [fst snd backend with_backend]. split; reflexivity.
  - intros p s1 t1 b2 Hp Hu Hf.
    destruct (body p s1) as [[r s2] t2] eqn:Hb.
    destruct (RunFacts.with_proxy_run _ _ _ _ _ _ _ _ _ _ _ _ _ Hp Hb)
      as [Ho Ht].
    rewrite Ho, Ht. clear Ho Ht.
    unfold body, bind, ret, _supports_layering, RBDVolumeProxy.call,
      Image_call in Hb.
    rewrite Hu, Hf in Hb. cbn in Hb. inversion Hb; subst.
    cbn [backend with_backend]. split; reflexivity.
Qed.

End Facts.
End BlockFacts.

(** * More of the stream wrapper *)

Module StreamMore.
Import RBDImageIOWrapper RBDImageIOWrapperCalls.

Section Reads.
Context {I : Type} `{ImageAPI I}.

Lemma read_request_bounds (self : t I) (length : option Z) (total n : Z) :
  image_size (rbd_image self) = Ok total ->
  0 <= _offset self <= total ->
  (forall l, length = Some l -> 0 <= l) ->
  read_request self length = Some n ->
  0 <= n /\ _offset self + n <= total.
Proof.
  intros Hsize Hoff Hlen. unfold read_request. rewrite Hsize.
  destruct (_offset self =? total) eqn:E; [discriminate|].
  apply Z.eqb_neq in E.
  destruct length as [l|].
  - specialize (Hlen l eq_refl).
    destruct (_offset self + l >? total) eqn:G; intros Heq; inversion Heq.
    + lia.
    + rewrite Z.gtb_ltb in G. apply Z.ltb_ge in G. lia.
  - destruct (_offset self + total >? total) eqn:G; intros Heq; inversion Heq.
    + lia.
    + rewrite Z.gtb_ltb in G. apply Z.ltb_ge in G. lia.
Qed.

Lemma read_cases (self : t I) (length : option Z) :
  (read_request self length = None /\ snd (read self length) = self)
  \/ (exists n, read_request self length = Some n
                /\ read self length
                   = (image_read (rbd_image self) (_offset self) n,
                      _inc_offset self n)).
Proof.
  destruct (read_request self length) as [n|] eqn:Hreq.
  - right. exists n. split; [reflexivity|].
    apply StreamFacts.read_moves_by_request. exact Hreq.
  - left. split; [reflexivity|]. unfold read_request, read in *.
    destruct (image_size (rbd_image self)) as [total|e]; [|reflexivity].
    destruct (_offset self =? total); [reflexivity|discriminate].
Qed.

(** X16: A read that starts inside the image, with no length or a
    non-negative one, asks the image only for bytes inside it, leaves the
    offset between where it was and the end, and keeps the image; and
    when the image returns as many bytes as it is asked for, the offset
    advances by the number of bytes returned. *)
Theorem read_inside_image (self : t I) (length : option Z) (total : Z) :
  image_size (rbd_image self) = Ok total ->
  0 <= _offset self <= total ->
  (forall l, length = Some l -> 0 <= l) ->
  let self' := snd (read self length) in
  (forall n, read_request self length = Some n ->
             0 <= n /\ _offset self + n <= total)
  /\ _offset self <= _offset self' <= total
  /\ rbd_image self' = rbd_image self
  /\ (forall data,
         (forall off len d, image_read (rbd_image self) off len = Ok d ->
                            Z.of_nat (String.length d) = len) ->
         fst (read self length) = Ok data ->
         _offset self' = _offset self + Z.of_nat (String.length data)).
Proof.
  intros Hsize Hoff Hlen self'. subst self'.
  pose proof (read_request_bounds self length total) as Hb.
  split; [intros n Hn; exact (Hb n Hsize Hoff Hlen Hn)|].
  destruct (read_cases self length) as [[Hreq Hs]|(n & Hreq & Hr)].
  - rewrite Hs. repeat split; try lia.
    intros data Hexact Hd.
    apply (StreamFacts.read_advances_by_returned self _ length total data
             Hexact Hsize Hoff).
    rewrite <- Hd, <- Hs at 1. rewrite Hs. destruct (read self length).
    cbn in *. subst. reflexivity.
  - destruct (Hb n Hsize Hoff Hlen Hreq) as [Hn0 Hn1].
    rewrite Hr. cbn [snd fst _inc_offset _offset rbd_image].
    repeat split; try lia.
    intros data Hexact Hd. apply Hexact in Hd. lia.
Qed.

(** X17: After [read()] with no length the stream is at the end of the image,
    and every further read returns the empty string without asking the
    image for anything. *)
Theorem read_to_end_then_empty (self : t I) (total : Z) :
  image_size (rbd_image self) = Ok total ->
  0 <= _offset self <= total ->
  let self' := snd (read self None) in
  _offset self' = total
  /\ (forall length,
         read self' length = (Ok "", self')
         /\ read_request self' length = None).
Proof.
  intros Hsize Hoff self'. subst self'.
  assert (Hend : _offset (snd (read self None)) = total
                 /\ rbd_image (snd (read self None)) = rbd_image self).
  { destruct (Z.eq_dec (_offset self) total) as [Heq|Hne].
    - rewrite (StreamFacts.read_at_end self None total Hsize Heq). auto.
    - assert (Hin : 0 <= _offset self < total) by lia.
      pose proof (StreamFacts.read_request_in_range self None total Hsize Hin)
        as Hreq.
      rewrite (StreamFacts.read_moves_by_request _ _ _ Hreq).
      cbn. split; [lia|reflexivity]. }
  destruct Hend as [Hoff' Himg]. split; [exact Hoff'|].
  intros length. split.
  - apply (StreamFacts.read_at_end _ length total); [rewrite Himg|]; assumption.
  - unfold read_request. rewrite Himg, Hsize, Hoff', Z.eqb_refl. reflexivity.
Qed.

(** X18: [seek(0)] and then [read()] asks the image for all of it, from 0, and
    leaves the stream at the end: whatever was read before, the whole
    content comes again. *)
Theorem rewind_reads_whole_image (self : t I) (total : Z) :
  image_size (rbd_image self) = Ok total ->
  total <> 0 ->
  seek self 0 0 = (Ok tt, set_offset self 0)
  /\ read (set_offset self 0) None
     = (image_read (rbd_image self) 0 total, set_offset self total).
Proof.
  intros Hsize Hne. split; [reflexivity|].
  unfold read. cbn [set_offset rbd_image _offset]. rewrite Hsize.
  apply Z.eqb_neq in Hne.
  assert (H0 : (0 =? total) = false).
  { rewrite Z.eqb_sym. exact Hne. }
  rewrite H0.
  assert (Hg : (0 + total >? total) = false).
  { rewrite Z.gtb_ltb. apply Z.ltb_ge. lia. }
  rewrite Hg. unfold _inc_offset, set_offset. cbn. reflexivity.
Qed.

(** X19: [write] that the image refuses leaves the stream as it was.  A
    [write] that succeeds advances the offset by the length of the data;
    seeking back to where it started and reading that many bytes asks the
    new image for exactly the range written, and ends where the write
    ended. *)
Theorem write_then_read_back (self : t I) (data : string) :
  (forall e, image_write (rbd_image self) data (_offset self) = Err e ->
             write self data = (Err e, self))
  /\ (forall img total,
         image_write (rbd_image self) data (_offset self) = Ok img ->
         image_size img = Ok total ->
         0 <= _offset self ->
         _offset self + Z.of_nat (String.length data) <= total ->
         data <> "" ->
         let len := Z.of_nat (String.length data) in
         let w1 := snd (write self data) in
         fst (write self data) = Ok tt
         /\ _offset w1 = _offset self + len
         /\ rbd_image w1 = img
         /\ seek w1 (_offset self) 0 = (Ok tt, set_offset w1 (_offset self))
         /\ read (set_offset w1 (_offset self)) (Some len)
            = (image_read img (_offset self) len, w1)).
Proof.
  split.
  - intros e He. unfold write. rewrite He. reflexivity.
  - intros img total Hw Hsize Hoff Hfit Hdata len w1. subst len w1.
    assert (Hlen : 0 < Z.of_nat (String.length data)).
    { destruct data; [contradiction|]. cbn [String.length]. lia. }
    unfold write. rewrite Hw. cbn [fst snd _inc_offset _offset rbd_image].
    repeat split.
    + apply StreamFacts.seek_start. exact Hoff.
    + unfold read. cbn [set_offset rbd_image _offset _inc_offset volume].
      rewrite Hsize.
      destruct (_offset self =? total) eqn:E; [apply Z.eqb_eq in E; lia|].
      destruct (_offset self + Z.of_nat (String.length data) >? total) eqn:G.
      * rewrite Z.gtb_ltb in G. apply Z.ltb_lt in G. lia.
      * reflexivity.
Qed.

Lemma step_keeps_offset_nonnegative (self : t I) (c : io_call) :
  (forall img n, image_size img = Ok n -> 0 <= n) ->
  sane c -> 0 <= _offset self -> 0 <= _offset (step self c).
Proof.
  intros Hsizes Hsane Hoff. destruct c as [length|data|offset whence];
    cbn [step].
  - unfold read.
    destruct (image_size (rbd_image self)) as [total|e] eqn:Hs;
      [|exact Hoff].
    apply Hsizes in Hs.
    destruct (_offset self =? total); [exact Hoff|].
    cbn [snd _inc_offset _offset].
    destruct length as [l|].
    + cbn [sane] in Hsane. destruct (_offset self + l >? total); lia.
    + destruct (_offset self + total >? total); lia.
  - unfold write.
    destruct (image_write (rbd_image self) data (_offset self));
      cbn [snd _inc_offset _offset]; lia.
  - unfold seek.
    destruct (new_offset self offset whence) as [n|e]; [|exact Hoff].
    destruct (n <? 0) eqn:E; [exact Hoff|].
    apply Z.ltb_ge in E. exact E.
Qed.

(** X20: Whatever a caller does with the stream, reading, writing and seeking
    in any order, with or without errors, the offset never becomes
    negative, as long as no read asks for a negative number of bytes and
    the image reports non-negative sizes. *)
Theorem offset_never_negative (self : t I) (calls : list io_call) :
  (forall img n, image_size img = Ok n -> 0 <= n) ->
  Forall sane calls ->
  0 <= _offset self ->
  0 <= _offset (run_calls self calls).
Proof.
  intros Hsizes Hsane. revert self.
  induction Hsane as [|c calls Hc _ IH]; intros self Hoff;
    cbn [run_calls fold_left].
  - exact Hoff.
  - apply IH. apply step_keeps_offset_nonnegative; assumption.
Qed.

(** X22: [flush()] on a binding without [flush] is a no-op and not an error,
    provided the [rbd] module was imported: the [AttributeError] is
    dropped.  When the module is missing the handler itself raises
    [AttributeError].  Every other error of the image's [flush] comes
    out, and the offset is never touched. *)
Theorem flush_outcomes {F : ImageFlush I} (self : t I) :
  (forall a, image_flush (rbd_image self) = Err (AttributeError a) ->
             flush true self = (Ok tt, self)
             /\ flush false self = (Err (AttributeError "RBD"), self))
  /\ (forall a, fst (flush true self) <> Err (AttributeError a))
  /\ (forall e imported,
         image_flush (rbd_image self) = Err e ->
         (forall a, e <> AttributeError a) ->
         flush imported self = (Err e, self))
  /\ (forall imported, _offset (snd (flush imported self)) = _offset self).
Proof.
  unfold flush. split; [|split; [|split]].
  - intros a Ha. rewrite Ha. split; reflexivity.
  - intros a. destruct (image_flush (rbd_image self)) as [img|e];
      [discriminate|]. destruct e; discriminate.
  - intros e imported He Hna. rewrite He.
    destruct e; try reflexivity. exfalso. exact (Hna _ eq_refl).
  - intros imported. destruct (image_flush (rbd_image self)) as [img|e];
      [reflexivity|]. destruct e; try reflexivity.
    destruct imported; reflexivity.
Qed.

End Reads.

(** On a ten-byte image at offset 4: [read(3)] asks for bytes inside the
    image and moves to 7. *)
Lemma read_inside_image_witness :
  (forall n, read_request (mk ten_bytes 4 None) (Some 3) = Some n ->
             0 <= n /\ 4 + n <= 10)
  /\ 4 <= _offset (snd (read (mk ten_bytes 4 None) (Some 3))) <= 10.
Proof.
  assert (Hlen : forall l, Some 3 = Some l -> 0 <= l).
  { intros l Hl. inversion Hl. lia. }
  assert (Hoff : 0 <= _offset (mk ten_bytes 4 None) <= 10) by (cbn; lia).
  assert (Hsize : image_size (rbd_image (mk ten_bytes 4 None)) = Ok 10)
    by reflexivity.
  destruct (read_inside_image (mk ten_bytes 4 None) (Some 3) 10
                              Hsize Hoff Hlen) as (Hreq & Hpos & _).
  split; [exact Hreq|exact Hpos].
Defined.

(** On a ten-byte image at offset 4: [read()] goes to 10 and the next
    read is empty. *)
Lemma read_to_end_then_empty_witness :
  _offset (snd (read (mk ten_bytes 4 None) None)) = 10
  /\ (forall length,
         read (snd (read (mk ten_bytes 4 None) None)) length
         = (Ok "", snd (read (mk ten_bytes 4 None) None))
         /\ read_request (snd (read (mk ten_bytes 4 None) None)) length
            = None).
Proof.
  assert (Hoff : 0 <= _offset (mk ten_bytes 4 None) <= 10) by (cbn; lia).
  assert (Hsize : image_size (rbd_image (mk ten_bytes 4 None)) = Ok 10)
    by reflexivity.
  exact (read_to_end_then_empty (mk ten_bytes 4 None) 10 Hsize Hoff).
Defined.

(** On a ten-byte image read to its end: after [seek(0)], [read()]
    returns the ten bytes again. *)
Lemma rewind_reads_whole_image_witness :
  seek (mk ten_bytes 10 None) 0 0 = (Ok tt, mk ten_bytes 0 None)
  /\ read (mk ten_bytes 0 None) None
     = (Ok "0123456789", mk ten_bytes 10 None).
Proof.
  assert (Hne : 10 <> 0) by lia.
  assert (Hsize : image_size (rbd_image (mk ten_bytes 10 None)) = Ok 10)
    by reflexivity.
  exact (rewind_reads_whole_image (mk ten_bytes 10 None) 10 Hsize Hne).
Defined.

(** On a ten-byte image at offset 2: writing ["XY"], seeking back to 2
    and reading 2 bytes returns ["XY"]. *)
Lemma write_then_read_back_witness :
  _offset (snd (write (mk ten_bytes 2 None) "XY")) = 4
  /\ read (set_offset (snd (write (mk ten_bytes 2 None) "XY")) 2) (Some 2)
     = (Ok "XY", snd (write (mk ten_bytes 2 None) "XY")).
Proof.
  assert (Hoff : 0 <= _offset (mk ten_bytes 2 None)) by (cbn; lia).
  assert (Hfit : _offset (mk ten_bytes 2 None)
                 + Z.of_nat (String.length "XY") <= 10) by (cbn; lia).
  assert (Hdata : "XY" <> "") by discriminate.
  assert (Hw : image_write (rbd_image (mk ten_bytes 2 None)) "XY"
                           (_offset (mk ten_bytes 2 None))
               = Ok {| mem_data := "01XY456789" |}) by reflexivity.
  assert (Hsize : image_size {| mem_data := "01XY456789" |} = Ok 10)
    by reflexivity.
  destruct (proj2 (write_then_read_back (mk ten_bytes 2 None) "XY")
                  {| mem_data := "01XY456789" |} 10
                  Hw Hsize Hoff Hfit Hdata)
    as (_ & Hadv & _ & _ & Hread).
  split; [exact Hadv|exact Hread].
Defined.

(** On the in-memory image: a read, a seek past the end, a refused
    write, a bad seek and another read leave a non-negative offset. *)
Lemma offset_never_negative_witness :
  0 <= _offset (run_calls (__init__ ten_bytes)
                          [Read (Some 4); Seek 50 0; Write "abc";
                           Seek (-100) 1; Read None]).
Proof.
  apply offset_never_negative.
  - intros img n Hn. cbn in Hn. inversion Hn. unfold mem_size. lia.
  - repeat constructor. cbn. lia.
  - cbn. lia.
Defined.

(** On a binding without [flush]: a no-op with the module, an
    [AttributeError] without it. *)
Lemma flush_outcomes_witness :
  flush (F:=old_librbd) true (__init__ ten_bytes)
  = (Ok tt, __init__ ten_bytes)
  /\ flush (F:=old_librbd) false (__init__ ten_bytes)
     = (Err (AttributeError "RBD"), __init__ ten_bytes).
Proof.
  assert (Hf : image_flush (ImageFlush:=old_librbd)
                           (rbd_image (__init__ ten_bytes))
               = Err (AttributeError "flush")) by reflexivity.
  exact (proj1 (flush_outcomes (F:=old_librbd) (__init__ ten_bytes))
               "flush" Hf).
Defined.

End StreamMore.

(** * Locations and monitor addresses *)

Module TextFacts.

Lemma split_no_sep (sep : ascii) (s : string) :
  has_char sep s = false -> split sep s = [s].
Proof.
  induction s as [|c s IH]; cbn [split has_char]; [reflexivity|].
  intros Hno. apply orb_false_iff in Hno as [Hc Hs].
  rewrite Hc, (IH Hs). reflexivity.
Qed.

Lemma unquote_no_percent (s : string) :
  has_char "%" s = false -> unquote s = s.
Proof.
  intros Hno. unfold unquote. rewrite (split_no_sep _ _ Hno). reflexivity.
Qed.

Lemma take_app_length (a b : string) :
  take (String.length a) (String.append a b) = a.
Proof.
  induction a as [|c a IH]; cbn; [destruct b; reflexivity|].
  rewrite IH. reflexivity.
Qed.

Lemma drop_app_length (a b : string) :
  drop (String.length a) (String.append a b) = b.
Proof. induction a as [|c a IH]; cbn; [reflexivity|exact IH]. Qed.

Lemma rindex_none (c : ascii) (s : string) :
  has_char c s = false -> rindex c s = None.
Proof.
  induction s as [|x s IH]; cbn [rindex has_char]; [reflexivity|].
  intros Hno. apply orb_false_iff in Hno as [Hx Hs].
  rewrite (IH Hs), Hx. reflexivity.
Qed.

Lemma rindex_app (c : ascii) (a n : string) :
  has_char c n = false ->
  rindex c (String.append a (String c n)) = Some (String.length a).
Proof.
  intros Hno. induction a as [|x a IH]; cbn [String.append rindex String.length].
  - rewrite (rindex_none _ _ Hno), Ascii.eqb_refl. reflexivity.
  - rewrite IH. reflexivity.
Qed.

Lemma rsplit1_app (c : ascii) (a n : string) :
  has_char c n = false ->
  rsplit1 c (String.append a (String c n)) = [a; n].
Proof.
  intros Hno. unfold rsplit1. rewrite (rindex_app _ _ _ Hno).
  rewrite take_app_length.
  change (drop (S (String.length a)) (String.append a (String c n)))
    with (drop (String.length (String.append a (String c EmptyString)))
               (String.append a (String c n))) || idtac.
  f_equal. f_equal.
  clear Hno. induction a as [|x a IH]; cbn; [reflexivity|exact IH].
Qed.

Lemma lstrip_clean (chars s : string) :
  (forall c, has_char c chars = true -> has_char c s = false) ->
  lstrip chars s = s.
Proof.
  intros Hclean. destruct s as [|x s]; cbn [lstrip]; [reflexivity|].
  destruct (has_char x chars) eqn:Hx; [|reflexivity].
  apply Hclean in Hx. cbn [has_char] in Hx. rewrite Ascii.eqb_refl in Hx. discriminate.
Qed.

Lemma rstrip_clean (chars s : string) :
  (forall c, has_char c chars = true -> has_char c s = false) ->
  rstrip chars s = s.
Proof.
  induction s as [|x s IH]; intros Hclean; cbn [rstrip]; [reflexivity|].
  assert (Hs : forall c, has_char c chars = true -> has_char c s = false).
  { intros c Hc. apply Hclean in Hc. cbn [has_char] in Hc.
    apply orb_false_iff in Hc as [_ Hc]. exact Hc. }
  rewrite (IH Hs). destruct s; [|reflexivity].
  destruct (has_char x chars) eqn:Hx; [|reflexivity].
  apply Hclean in Hx. cbn [has_char] in Hx. rewrite Ascii.eqb_refl in Hx. discriminate.
Qed.

Lemma rstrip_app_stripped (chars s : string) (x : ascii) :
  has_char x chars = true ->
  (forall c, has_char c chars = true -> has_char c s = false) ->
  rstrip chars (String.append s (String x EmptyString)) = s.
Proof.
  intros Hx. induction s as [|y s IH]; intros Hclean;
    cbn [String.append rstrip].
  - rewrite Hx. reflexivity.
  - assert (Hs : forall c, has_char c chars = true -> has_char c s = false).
    { intros c Hc. apply Hclean in Hc. cbn [has_char] in Hc.
      apply orb_false_iff in Hc as [_ Hc]. exact Hc. }
    rewrite (IH Hs). destruct s; [|reflexivity].
    destruct (has_char y chars) eqn:Hy; [|reflexivity].
    apply Hclean in Hy. cbn [has_char] in Hy. rewrite Ascii.eqb_refl in Hy. discriminate.
Qed.

Lemma no_brackets (h : string) :
  has_char "[" h = false -> has_char "]" h = false ->
  forall c, has_char c "[]" = true -> has_char c h = false.
Proof.
  intros Hl Hr c Hc. cbn [has_char] in Hc. rewrite orb_false_r in Hc.
  apply orb_true_iff in Hc as [Hc|Hc]; apply Ascii.eqb_eq in Hc; subst c;
    assumption.
Qed.

Lemma strip_plain (h : string) :
  has_char "[" h = false -> has_char "]" h = false -> strip "[]" h = h.
Proof.
  intros Hl Hr. unfold strip.
  rewrite (lstrip_clean _ _ (no_brackets h Hl Hr)).
  apply rstrip_clean, no_brackets; assumption.
Qed.

Lemma strip_bracketed (h : string) :
  has_char "[" h = false -> has_char "]" h = false ->
  strip "[]" (String "[" (String.append h "]")) = h.
Proof.
  intros Hl Hr. unfold strip. cbn [lstrip].
  change (has_char "[" "[]") with true. cbv iota.
  destruct h as [|x h].
  - reflexivity.
  - assert (Hx : has_char x "[]" = false).
    { cbn [has_char] in Hl, Hr. apply orb_false_iff in Hl as [Hl _].
      apply orb_false_iff in Hr as [Hr _].
      cbn [has_char]. rewrite orb_false_r. apply orb_false_iff.
      split; rewrite Ascii.eqb_sym; assumption. }
    cbn [String.append lstrip]. rewrite Hx.
    apply (rstrip_app_stripped "[]" (String x h) "]"); [reflexivity|].
    apply no_brackets; assumption.
Qed.

Lemma join_with_cons (sep : string) (c : ascii) (p : string)
      (ps : list string) :
  join_with sep (String c p :: ps) = String c (join_with sep (p :: ps)).
Proof. destruct ps; reflexivity. Qed.

(** Joining the lines of a text with the separator gives the text back. *)
Lemma join_split (sep : ascii) (s : string) :
  join_with (String sep EmptyString) (split sep s) = s.
Proof.
  induction s as [|c s IH]; cbn [split]; [reflexivity|].
  destruct (Ascii.eqb c sep) eqn:E.
  - apply Ascii.eqb_eq in E. subst c.
    destruct (split sep s) as [|p ps] eqn:Hs.
    + exfalso. exact (LocationFacts.split_not_nil _ _ Hs).
    + change (join_with (String sep EmptyString) (EmptyString :: p :: ps))
        with (String sep (join_with (String sep EmptyString) (p :: ps))).
      rewrite IH. reflexivity.
  - destruct (split sep s) as [|p ps] eqn:Hs.
    + exfalso. exact (LocationFacts.split_not_nil _ _ Hs).
    + rewrite join_with_cons, IH. reflexivity.
Qed.

(** A prefix without the separator is a prefix of the first line exactly
    when it is one of the text. *)
Lemma prefix_first_line (sep : ascii) (p s : string) :
  has_char sep p = false ->
  String.prefix p (hd EmptyString (split sep s)) = String.prefix p s.
Proof.
  revert p. induction s as [|c s IH]; intros p Hno; cbn [split];
    [reflexivity|].
  destruct (Ascii.eqb c sep) eqn:E.
  - apply Ascii.eqb_eq in E. subst c. cbn [hd].
    destruct p as [|a p]; [reflexivity|]. cbn [String.prefix].
    cbn [has_char] in Hno. apply orb_false_iff in Hno as [Ha _].
    destruct (ascii_dec a sep) as [->|Hne]; [|reflexivity].
    rewrite Ascii.eqb_refl in Ha. discriminate.
  - destruct (split sep s) as [|p0 ps] eqn:Hs.
    + exfalso. exact (LocationFacts.split_not_nil _ _ Hs).
    + cbn [hd]. destruct p as [|a p]; [reflexivity|]. cbn [String.prefix].
      destruct (ascii_dec a c); [|reflexivity].
      cbn [has_char] in Hno. apply orb_false_iff in Hno as [_ Hp].
      specialize (IH p Hp). cbn [hd] in IH. exact IH.
Qed.

(** X23: Four components without ['/'] or ['%'], none of them empty, joined
    after the prefix, come back unchanged from [_parse_location]. *)
Theorem _parse_location_round_trip (fsid pool image snapshot : string) :
  (forall x, In x [fsid; pool; image; snapshot] ->
             x <> "" /\ has_char "/" x = false /\ has_char "%" x = false) ->
  _parse_location
    (String.append "rbd://"
       (String.append fsid
          (String "/" (String.append pool
             (String "/" (String.append image (String "/" snapshot)))))))
  = Ok [fsid; pool; image; snapshot].
Proof.
  intros Hall.
  assert (Hf := Hall fsid (or_introl eq_refl)).
  assert (Hp := Hall pool (or_intror (or_introl eq_refl))).
  assert (Hi := Hall image (or_intror (or_intror (or_introl eq_refl)))).
  assert (Hs := Hall snapshot
                     (or_intror (or_intror (or_intror (or_introl eq_refl))))).
  destruct Hf as (Hf0 & Hf1 & Hf2). destruct Hp as (Hp0 & Hp1 & Hp2).
  destruct Hi as (Hi0 & Hi1 & Hi2). destruct Hs as (Hs0 & Hs1 & Hs2).
  set (location := String.append "rbd://" _).
  assert (Hcomp : components location = [fsid; pool; image; snapshot]).
  { unfold components, location. cbn [prefix String.length String.append drop].
    rewrite !LocationFacts.split_app.
    rewrite !split_no_sep by assumption. reflexivity. }
  destruct (LocationFacts._parse_location_cases location)
    as [(Hpre & _)|[(_ & Hin & _)|[(_ & _ & Hlen & _)|(_ & _ & _ & Hr)]]].
  - unfold location, startswith, prefix in Hpre. simpl in Hpre.
    clear - Hpre. destruct fsid; discriminate Hpre.
  - rewrite Hcomp in Hin.
    destruct Hin as [Hin|[Hin|[Hin|[Hin|[]]]]]; contradiction.
  - rewrite Hcomp in Hlen. contradiction Hlen. reflexivity.
  - rewrite Hr, Hcomp. cbn [map].
    rewrite !unquote_no_percent by assumption. reflexivity.
Qed.

(** X24: The host and the port of a monitor address [host:port/nonce]: the
    port is what follows the last [':'] before the last ['/'], and the
    host is what precedes it, without the brackets of an IPv6 literal. *)
Theorem mon_host_port_splits (host port nonce : string) :
  has_char ":" port = false ->
  has_char "/" nonce = false ->
  has_char "[" host = false -> has_char "]" host = false ->
  mon_host_port
    (String.append host (String ":" (String.append port (String "/" nonce))))
  = Ok (host, port)
  /\ mon_host_port
       (String "[" (String.append host
          (String "]" (String ":" (String.append port (String "/" nonce))))))
     = Ok (host, port).
Proof.
  intros Hport Hnonce Hl Hr.
  assert (Hgen : forall h,
             mon_host_port
               (String.append h
                  (String ":" (String.append port (String "/" nonce))))
             = Ok (strip "[]" h, port)).
  { intros h. unfold mon_host_port.
    replace (String.append h
               (String ":" (String.append port (String "/" nonce))))
      with (String.append (String.append h (String ":" port))
                          (String "/" nonce)).
    2:{ clear. induction h as [|x h IH]; cbn [String.append].
        - reflexivity.
        - rewrite IH. reflexivity. }
    rewrite (rindex_app _ _ _ Hnonce), take_app_length.
    rewrite (rsplit1_app _ _ _ Hport). reflexivity. }
  split.
  - rewrite Hgen, (strip_plain _ Hl Hr). reflexivity.
  - replace (String "[" (String.append host
               (String "]" (String ":" (String.append port
                                          (String "/" nonce))))))
      with (String.append (String "[" (String.append host "]"))
              (String ":" (String.append port (String "/" nonce)))).
    2:{ cbn [String.append]. f_equal. clear.
        induction host as [|x h IH]; cbn [String.append].
        - reflexivity.
        - rewrite IH. reflexivity. }
    rewrite Hgen, (strip_bracketed _ Hl Hr). reflexivity.
Qed.

(** X25: An address without ['/'] is rejected, and so is one with no [':']
    before its last ['/']: both raise [ValueError]. *)
Theorem mon_host_port_rejects (addr before nonce : string) :
  (has_char "/" addr = false -> mon_host_port addr = Err ValueError)
  /\ (has_char ":" before = false -> has_char "/" nonce = false ->
      mon_host_port (String.append before (String "/" nonce))
      = Err ValueError).
Proof.
  split.
  - intros Hno. unfold mon_host_port. rewrite (rindex_none _ _ Hno).
    reflexivity.
  - intros Hcolon Hnonce. unfold mon_host_port.
    rewrite (rindex_app _ _ _ Hnonce), take_app_length.
    unfold rsplit1. rewrite (rindex_none _ _ Hcolon). reflexivity.
Qed.

(** X26: A first line that starts with the banner is dropped from the
    monitor dump and the rest goes to the JSON parser as it is; a dump
    that does not start with the banner goes there unchanged. *)
Theorem monmap_text_drops_banner (out line rest : string) :
  (startswith banner out = false -> monmap_text out = out)
  /\ (startswith banner line = true -> has_char newline line = false ->
      monmap_text (String.append line (String newline rest)) = rest).
Proof.
  split.
  - intros Hno. unfold monmap_text, startswith in *.
    rewrite (prefix_first_line newline banner out) by reflexivity.
    rewrite Hno. apply join_split.
  - intros Hb Hline. unfold monmap_text.
    rewrite LocationFacts.split_app, (split_no_sep _ _ Hline).
    cbn [app hd tl]. rewrite Hb. apply join_split.
Qed.

Lemma mon_hosts_ports_pointwise (addrs hosts ports : list string) :
  mon_hosts_ports addrs = Ok (hosts, ports) ->
  List.length hosts = List.length addrs
  /\ List.length ports = List.length addrs
  /\ (forall i addr, nth_error addrs i = Some addr ->
        exists host port,
          nth_error hosts i = Some host /\ nth_error ports i = Some port
          /\ mon_host_port addr = Ok (host, port)).
Proof.
  revert hosts ports. induction addrs as [|a addrs IH]; intros hosts ports;
    cbn [mon_hosts_ports].
  - intros Heq. inversion Heq. repeat split.
    intros i addr Hnth. destruct i; discriminate.
  - destruct (mon_host_port a) as [[h p]|e] eqn:Ha; [|discriminate].
    destruct (mon_hosts_ports addrs) as [[hs ps]|e]; [|discriminate].
    intros Heq. inversion Heq. subst.
    destruct (IH hs ps eq_refl) as (Hl1 & Hl2 & Hnth).
    cbn [List.length]. repeat split; try congruence.
    intros i addr Hi. destruct i as [|i]; cbn [nth_error] in *.
    + inversion Hi. subst. exists h, p. auto.
    + apply Hnth. exact Hi.
Qed.

Lemma mon_hosts_ports_fails (addrs : list string) (e : exn) :
  mon_hosts_ports addrs = Err e ->
  exists addr, In addr addrs /\ mon_host_port addr = Err e.
Proof.
  induction addrs as [|a addrs IH]; cbn [mon_hosts_ports]; [discriminate|].
  destruct (mon_host_port a) as [[h p]|e'] eqn:Ha.
  - destruct (mon_hosts_ports addrs) as [[hs ps]|e'']; [discriminate|].
    intros Heq. inversion Heq. subst.
    destruct (IH eq_refl) as (addr & Hin & Hbad).
    exists addr. split; [right; exact Hin|exact Hbad].
  - intros Heq. inversion Heq. subst. exists a. split; [left|]; auto.
Qed.

Section MonAddrs.
Variable _execute : list string -> result exn (string * string).
Variable json_mon_addrs : string -> result exn (list string).

(** X27: [_get_mon_addrs] returns one host and one port per monitor, in the
    monitors' order, each the split of that monitor's address; it fails
    when the command or the JSON reader fails, with their error, or when
    one address does not split; and [initialize_connection] fails
    exactly when it does, and otherwise names the volume
    [pool/volume-name] with those hosts and ports. *)
Theorem _get_mon_addrs_per_monitor (self : driver) :
  let run := _get_mon_addrs _execute json_mon_addrs self in
  (forall hosts ports,
      run = Ok (hosts, ports) ->
      exists out err addrs,
        _execute (["ceph"; "mon"; "dump"; "--format=json"] ++ _ceph_args self)
        = Ok (out, err)
        /\ json_mon_addrs (monmap_text out) = Ok addrs
        /\ List.length hosts = List.length addrs
        /\ List.length ports = List.length addrs
        /\ (forall i addr, nth_error addrs i = Some addr ->
              exists host port,
                nth_error hosts i = Some host
                /\ nth_error ports i = Some port
                /\ mon_host_port addr = Ok (host, port)))
  /\ (forall e,
         _execute (["ceph"; "mon"; "dump"; "--format=json"] ++ _ceph_args self)
         = Err e -> run = Err e)
  /\ (forall out err e,
         _execute (["ceph"; "mon"; "dump"; "--format=json"] ++ _ceph_args self)
         = Ok (out, err) ->
         json_mon_addrs (monmap_text out) = Err e -> run = Err e)
  /\ (forall volume,
         (forall e, run = Err e ->
                    initialize_connection _execute json_mon_addrs self volume
                    = Err e)
         /\ (forall hosts ports,
                run = Ok (hosts, ports) ->
                exists data,
                  initialize_connection _execute json_mon_addrs self volume
                  = Ok ("rbd", data)
                  /\ cd_name data
                     = String.append (rbd_pool (conf self))
                         (String "/" (vol_name volume))
                  /\ cd_hosts data = hosts /\ cd_ports data = ports
                  /\ List.length (cd_hosts data)
                     = List.length (cd_ports data))).
Proof.
  cbv zeta. unfold initialize_connection, _get_mon_addrs.
  split; [|split; [|split]].
  - intros hosts ports Hrun.
    destruct (_execute _) as [[out err]|e]; [|discriminate].
    destruct (json_mon_addrs (monmap_text out)) as [addrs|e] eqn:Hj;
      [|discriminate].
    destruct (mon_hosts_ports_pointwise _ _ _ Hrun) as (H1 & H2 & H3).
    exists out, err, addrs.
    split; [reflexivity|]. split; [exact Hj|].
    split; [exact H1|]. split; [exact H2|exact H3].
  - intros e He. rewrite He. reflexivity.
  - intros out err e Hx Hj. rewrite Hx, Hj. reflexivity.
  - intros volume. split.
    + intros e He. rewrite He. reflexivity.
    + intros hosts ports Hrun. rewrite Hrun. eexists.
      split; [reflexivity|]. cbn. repeat split.
      destruct (_execute _) as [[out err]|e]; [|discriminate].
      destruct (json_mon_addrs (monmap_text out)) as [addrs|e];
        [|discriminate].
      destruct (mon_hosts_ports_pointwise _ _ _ Hrun) as (H1 & H2 & _).
      congruence.
Qed.

End MonAddrs.

(** The round trip on a location with a dotted fsid. *)
Lemma _parse_location_round_trip_witness :
  _parse_location "rbd://abc-1.2/rbd/volume-1/snap-1"
  = Ok ["abc-1.2"; "rbd"; "volume-1"; "snap-1"].
Proof.
  apply (_parse_location_round_trip "abc-1.2" "rbd" "volume-1" "snap-1").
  intros x [<-|[<-|[<-|[<-|[]]]]]; repeat split; discriminate.
Defined.

(** An IPv4 and an IPv6 monitor address. *)
Lemma mon_host_port_splits_witness :
  mon_host_port "10.0.0.1:6789/0" = Ok ("10.0.0.1", "6789")
  /\ mon_host_port "[::1]:6789/0" = Ok ("::1", "6789").
Proof.
  split.
  - apply (proj1 (mon_host_port_splits "10.0.0.1" "6789" "0"
                    eq_refl eq_refl eq_refl eq_refl)).
  - apply (proj2 (mon_host_port_splits "::1" "6789" "0"
                    eq_refl eq_refl eq_refl eq_refl)).
Defined.

(** An address without a nonce, and one without a port. *)
Lemma mon_host_port_rejects_witness :
  mon_host_port "10.0.0.1:6789" = Err ValueError
  /\ mon_host_port "monitor-a/0" = Err ValueError.
Proof.
  split.
  - apply (proj1 (mon_host_port_rejects "10.0.0.1:6789" "" "")). reflexivity.
  - apply (proj2 (mon_host_port_rejects "" "monitor-a" "0")); reflexivity.
Defined.

(** A dump with the banner, and one without. *)
Lemma monmap_text_drops_banner_witness :
  monmap_text "{}" = "{}" /\ monmap_text demo_dump = "{}".
Proof.
  split.
  - apply (proj1 (monmap_text_drops_banner "{}" "" "")). reflexivity.
  - apply (proj2 (monmap_text_drops_banner "" "dumped monmap epoch 1" "{}"));
      reflexivity.
Defined.

(** One IPv6 monitor behind a shell and a JSON reader that answer. *)
Lemma _get_mon_addrs_per_monitor_witness :
  _get_mon_addrs (fun _ => Ok (demo_dump, ""))
                 (fun _ => Ok ["[::1]:6789/0"]) demo_driver
  = Ok (["::1"], ["6789"])
  /\ exists out err addrs,
      Ok (E:=exn) (demo_dump, "") = Ok (out, err)
      /\ Ok (E:=exn) ["[::1]:6789/0"] = Ok addrs
      /\ List.length ["::1"] = List.length addrs
      /\ List.length ["6789"] = List.length addrs
      /\ (forall i addr, nth_error addrs i = Some addr ->
            exists host port,
              nth_error ["::1"] i = Some host
              /\ nth_error ["6789"] i = Some port
              /\ mon_host_port addr = Ok (host, port)).
Proof.
  assert (Hrun : _get_mon_addrs (fun _ => Ok (demo_dump, ""))
                                (fun _ => Ok ["[::1]:6789/0"]) demo_driver
                 = Ok (["::1"], ["6789"])) by reflexivity.
  split; [exact Hrun|].
  exact (proj1 (_get_mon_addrs_per_monitor
                  (fun _ => Ok (demo_dump, ""))
                  (fun _ => Ok ["[::1]:6789/0"]) demo_driver)
               ["::1"] ["6789"] Hrun).
Defined.

End TextFacts.

(** * More runs on the in-memory cluster *)

Module MoreFacts.
Import RBDImageIOWrapper.

Section Facts.
Context {B : Type} `{Backend B}.

(** X15: When fetching the image raises, [copy_image_to_volume] stops with
    that error having made no call to the cluster: the volume is neither
    removed nor resized. *)
Theorem copy_image_to_volume_fetch_fails (self : driver)
        (volume : volume_ref) (image_id : string) (s : state B) :
  forall r0 b1 tmp_name b2 e b3 r4 b4,
    external Ensure_tmp_exists (backend s) = (Ok r0, b1) ->
    external (Tmp_open (volume_tmp_dir (conf self))) b1 = (Ok tmp_name, b2) ->
    external (Fetch_to_raw image_id tmp_name) b2 = (Err e, b3) ->
    external Tmp_close b3 = (Ok r4, b4) ->
    copy_image_to_volume self volume image_id s
    = (Err e, with_backend s b4, []).
Proof.
  intros r0 b1 tmp_name b2 e b3 r4 b4 H0 H1 H2 H3.
  unfold copy_image_to_volume, with_, bind, try_finally, ext, ret.
  rewrite H0. cbn [backend with_backend]. rewrite H1.
  cbn [backend with_backend]. rewrite H2.
  cbn [backend with_backend]. rewrite H3. reflexivity.
Qed.

End Facts.

Section Seeks.
Context {I : Type} `{ImageAPI I}.

(** X21: Two relative seeks that both succeed are one relative seek by the
    sum, and an absolute seek to the current position changes nothing. *)
Theorem seek_current_composes (self : t I) (a b : Z) :
  0 <= _offset self + a ->
  0 <= _offset self + a + b ->
  seek (snd (seek self a 1)) b 1 = seek self (a + b) 1
  /\ (0 <= _offset self -> seek self (tell self) 0 = (Ok tt, self)).
Proof.
  intros Ha Hab. split.
  - rewrite (StreamFacts.seek_current self a Ha). cbn [snd].
    rewrite StreamFacts.seek_current by (cbn; lia).
    rewrite StreamFacts.seek_current by lia.
    unfold set_offset. cbn. f_equal. f_equal. lia.
  - intros Hoff. unfold tell. rewrite (StreamFacts.seek_start _ _ Hoff).
    destruct self; reflexivity.
Qed.

End Seeks.

Lemma seek_current_composes_witness :
  seek (snd (seek (mk ten_bytes 4 None) 3 1)) (-5) 1
  = seek (mk ten_bytes 4 None) (3 + -5) 1
  /\ seek (mk ten_bytes 4 None) (tell (mk ten_bytes 4 None)) 0
     = (Ok tt, mk ten_bytes 4 None).
Proof.
  assert (Ha : 0 <= _offset (mk ten_bytes 4 None) + 3) by (cbn; lia).
  assert (Hab : 0 <= _offset (mk ten_bytes 4 None) + 3 + -5) by (cbn; lia).
  assert (Hoff : 0 <= _offset (mk ten_bytes 4 None)) by (cbn; lia).
  destruct (seek_current_composes (mk ten_bytes 4 None) 3 (-5) Ha Hab)
    as [Hsum Hid].
  split; [exact Hsum|exact (Hid Hoff)].
Defined.

Lemma copy_image_to_volume_fetch_fails_witness :
  copy_image_to_volume (H:=failing_fetch) demo_driver volume_2 "image-1"
                       (start demo_cluster)
  = (Err (OtherException "ImageNotFound"), start demo_cluster, []).
Proof.
  apply (copy_image_to_volume_fetch_fails (H:=failing_fetch)
           demo_driver volume_2 "image-1" (start demo_cluster)
           "" demo_cluster "/tmp/tmpfile" demo_cluster
           (OtherException "ImageNotFound") demo_cluster "" demo_cluster);
    reflexivity.
Defined.

Lemma _resize_calls_witness :
  Forall (resize_call demo_driver volume_1 5)
         (trace (_resize demo_driver volume_1 (Some 5) (start demo_cluster)))
  /\ Forall (resize_call demo_driver volume_1 (2 * GiB))
            (trace (extend_volume demo_driver volume_1 2 (start demo_cluster)))
  /\ trace (_resize demo_driver volume_1 (Some 5) (start demo_cluster))
     = (connect_trace 0 "rbd"
        ++ [EvImageOpen (RBDVolumeProxy.volume volume_1_proxy) None])
       ++ [EvImageCall (RBDVolumeProxy.volume volume_1_proxy) (Resize 5) None]
       ++ proxy_exit_trace volume_1_proxy (Ok tt)
  /\ outcome (_resize demo_driver volume_1 (Some 5) (start demo_cluster))
     = Ok tt.
Proof.
  assert (Hp : RBDVolumeProxy.__init__ demo_driver "volume-1" None None false
                 (start demo_cluster)
               = (Ok volume_1_proxy, connected 0,
                  connect_trace 0 "rbd"
                  ++ [EvImageOpen (RBDVolumeProxy.volume volume_1_proxy) None]))
    by reflexivity.
  destruct (CallFacts._resize_calls demo_driver volume_1 (start demo_cluster))
    as (_ & _ & Hn & Hext & _ & _ & Hrun & _).
  destruct (Hrun (Some 5) volume_1_proxy (connected 0) _ Hp) as [Ht Ho].
  split; [apply Hn; discriminate|].
  split; [apply Hext; discriminate|].
  split; [exact Ht|exact Ho].
Defined.

(** A copy of volume-2 to volume-3 on the demo cluster. *)
Lemma create_cloned_volume_calls_witness :
  trace (create_cloned_volume demo_driver volume_3 volume_2
                              (start demo_cluster))
  = (connect_trace 0 "rbd"
     ++ [EvImageOpen (RBDVolumeProxy.volume volume_2_reader) None])
    ++ [EvImageCall (RBDVolumeProxy.volume volume_2_reader)
                    (Copy (rbd_io 0) "volume-3") None]
    ++ proxy_exit_trace volume_2_reader (Ok tt)
  /\ outcome (create_cloned_volume demo_driver volume_3 volume_2
                                   (start demo_cluster)) = Ok tt.
Proof.
  assert (Hp : RBDVolumeProxy.__init__ demo_driver "volume-2" None None true
                 (start demo_cluster)
               = (Ok volume_2_reader, connected 0,
                  connect_trace 0 "rbd"
                  ++ [EvImageOpen (RBDVolumeProxy.volume volume_2_reader)
                                  None]))
    by reflexivity.
  destruct (CallFacts.create_cloned_volume_calls
              demo_driver volume_3 volume_2 (start demo_cluster))
    as (_ & _ & Hrun & _).
  exact (Hrun volume_2_reader (connected 0) _ Hp).
Defined.

(** A check of a cloneable location and of one with a pool that does
    not exist: every handle is closed. *)
Lemma handles_closed_when_names_convert_witness :
  tally ioctx_weight
    (trace (run demo_driver (Is_cloneable "rbd://abc/rbd/volume-1/snap-1")
                (start demo_cluster))) = 0
  /\ tally image_weight
       (trace (run demo_driver (Is_cloneable "rbd://abc/rbd/volume-1/snap-1")
                   (start demo_cluster))) = 0.
Proof.
  apply (HandleFacts.handles_closed_when_names_convert demo_driver
           (Is_cloneable "rbd://abc/rbd/volume-1/snap-1")
           (start demo_cluster)).
  reflexivity.
Defined.

Lemma no_rollback_witness :
  create_volume_from_snapshot legacy_driver volume_3 snap_1
                              (start demo_cluster)
  = (Err (AttributeError "RBD_FEATURE_LAYERING"), connected 1,
     connect_trace 0 "rbd"
     ++ (connect_trace 1 "rbd" ++ disconnect_trace 1 (rbd_io 1))
     ++ disconnect_trace 0 (rbd_io 0)).
Proof.
  apply (proj2 (proj2 (CallFacts.no_rollback legacy_driver volume_3
                                             (start demo_cluster)))).
  reflexivity.
Defined.


Lemma extend_volume_wraps_errors_witness :
  outcome (_resize demo_driver volume_9 (Some (2 * GiB)) (start demo_cluster))
  = Err (RbdError ImageNotFound)
  /\ exists e',
      outcome (extend_volume demo_driver volume_9 2 (start demo_cluster))
      = Err e'.
Proof.
  assert (Hr : outcome (_resize demo_driver volume_9 (Some (2 * GiB))
                                (start demo_cluster))
               = Err (RbdError ImageNotFound)) by reflexivity.
  split; [exact Hr|].
  destruct (RaiseFacts.extend_volume_wraps_errors demo_driver volume_9 2
                                                  (start demo_cluster))
    as (_ & Hwrap & _).
  exact (Hwrap _ Hr).
Defined.

Lemma check_for_setup_error_outcomes_witness :
  outcome (check_for_setup_error demo_driver (start demo_cluster)) = Ok tt
  /\ trace (check_for_setup_error demo_driver (start demo_cluster))
     = connect_trace 0 "rbd" ++ disconnect_trace 0 (rbd_io 0).
Proof.
  assert (Hc : _connect_to_rados demo_driver None (start demo_cluster)
               = (Ok (0%nat, rbd_io 0), connected 0, connect_trace 0 "rbd"))
    by reflexivity.
  destruct (RaiseFacts.check_for_setup_error_outcomes demo_driver
                                                      (start demo_cluster))
    as (_ & Hok & _).
  exact (Hok 0%nat (rbd_io 0) (connected 0) (connect_trace 0 "rbd")
             eq_refl Hc).
Defined.


Lemma RADOSClient_block_witness :
  with_client demo_driver None
    (fun client => get_fsid (RADOSClient.cluster client)) (start demo_cluster)
  = (Ok "abc", connected 0,
     connect_trace 0 "rbd" ++ [EvGetFsid 0 true]
     ++ disconnect_trace 0 (rbd_io 0)).
Proof.
  assert (Hc : _connect_to_rados demo_driver None (start demo_cluster)
               = (Ok (0%nat, rbd_io 0), connected 0, connect_trace 0 "rbd"))
    by reflexivity.
  assert (Hb : get_fsid (RADOSClient.cluster client_0) (connected 0)
               = (Ok "abc", connected 0, [EvGetFsid 0 true])) by reflexivity.
  exact (proj2 (BlockFacts.RADOSClient_block demo_driver None
                  (fun client => get_fsid (RADOSClient.cluster client))
                  (start demo_cluster))
               _ _ _ _ _ _ _ Hc Hb).
Defined.

Lemma RBDVolumeProxy_block_witness :
  outcome (with_proxy demo_driver "volume-2" None None false
             (fun vol => RBDVolumeProxy.call vol Flatten) (start demo_cluster))
  = Ok tt
  /\ trace (with_proxy demo_driver "volume-2" None None false
              (fun vol => RBDVolumeProxy.call vol Flatten)
              (start demo_cluster))
     = (connect_trace 0 "rbd"
        ++ [EvImageOpen (RBDVolumeProxy.volume volume_2_proxy) None])
       ++ [EvImageCall (RBDVolumeProxy.volume volume_2_proxy) Flatten None]
       ++ proxy_exit_trace volume_2_proxy (Ok tt).
Proof.
  assert (Hp : RBDVolumeProxy.__init__ demo_driver "volume-2" None None false
                 (start demo_cluster)
               = (Ok volume_2_proxy, connected 0,
                  connect_trace 0 "rbd"
                  ++ [EvImageOpen (RBDVolumeProxy.volume volume_2_proxy) None]))
    by reflexivity.
  assert (Hb : RBDVolumeProxy.call volume_2_proxy Flatten (connected 0)
               = (Ok tt, connected 0,
                  [EvImageCall (RBDVolumeProxy.volume volume_2_proxy)
                               Flatten None])) by reflexivity.
  exact (proj2 (BlockFacts.RBDVolumeProxy_block demo_driver "volume-2" None
                  None false (fun vol => RBDVolumeProxy.call vol Flatten)
                  (start demo_cluster))
               _ _ _ _ _ _ Hp Hb).
Defined.

Lemma _clone_connections_witness :
  trace (_clone demo_driver volume_3 (Some (Str "rbd")) "volume-1" "snap-1"
                (start demo_cluster))
  = connect_trace 0 "rbd"
    ++ (connect_trace 1 "rbd"
        ++ [EvRBDCall (Clone (rbd_io 0) "volume-1" "snap-1" (rbd_io 1)
                             "volume-3" 1) None]
        ++ disconnect_trace 1 (rbd_io 1))
    ++ disconnect_trace 0 (rbd_io 0)
  /\ outcome (_clone demo_driver volume_3 (Some (Str "rbd")) "volume-1"
                     "snap-1" (start demo_cluster)) = Ok tt.
Proof.
  assert (Hc1 : _connect_to_rados demo_driver (Some (Str "rbd"))
                                  (start demo_cluster)
                = (Ok (0%nat, rbd_io 0), connected 0, connect_trace 0 "rbd"))
    by reflexivity.
  assert (Hc2 : _connect_to_rados demo_driver None (connected 0)
                = (Ok (1%nat, rbd_io 1), connected 1, connect_trace 1 "rbd"))
    by reflexivity.
  assert (Hn1 : converts (Str "volume-1") = true) by reflexivity.
  assert (Hn2 : converts (Str "snap-1") = true) by reflexivity.
  exact (proj1 (BlockFacts._clone_connections demo_driver volume_3
                  (Some (Str "rbd")) (Str "volume-1") (Str "snap-1")
                  (start demo_cluster))
               _ _ _ _ _ _ _ _ 1 Hc1 Hc2 Hn1 Hn2 eq_refl).
Defined.

Lemma create_snapshot_protects_witness :
  outcome (create_snapshot demo_driver snap_2 (start demo_cluster)) = Ok tt
  /\ exists rest,
      trace (create_snapshot demo_driver snap_2 (start demo_cluster))
      = (connect_trace 0 "rbd"
         ++ [EvImageOpen (RBDVolumeProxy.volume volume_2_proxy) None])
        ++ [EvImageCall (RBDVolumeProxy.volume volume_2_proxy)
                        (Create_snap "snap-2") None;
            EvImageCall (RBDVolumeProxy.volume volume_2_proxy)
                        (Protect_snap "snap-2") None]
        ++ rest.
Proof.
  assert (Hp : RBDVolumeProxy.__init__ demo_driver "volume-2" None None false
                 (start demo_cluster)
               = (Ok volume_2_proxy, connected 0,
                  connect_trace 0 "rbd"
                  ++ [EvImageOpen (RBDVolumeProxy.volume volume_2_proxy) None]))
    by reflexivity.
  destruct (rbd_Image_call (RBDVolumeProxy.volume volume_2_proxy)
              (Create_snap "snap-2") (backend (connected 0)))
    as [r b2] eqn:Hu.
  assert (Hr : r = Ok tt) by (vm_compute in Hu; congruence).
  subst r.
  destruct (proj1 (proj2 (BlockFacts.create_snapshot_protects
                            demo_driver snap_2 (start demo_cluster)))
                  volume_2_proxy (connected 0) _ b2 1 Hp Hu eq_refl)
    as [Ht Ho].
  assert (Hb2 : b2 = snd (rbd_Image_call
                            (RBDVolumeProxy.volume volume_2_proxy)
                            (Create_snap "snap-2") (backend (connected 0))))
    by (rewrite Hu; reflexivity).
  split.
  - rewrite Ho, Hb2. reflexivity.
  - eexists. rewrite Ht, Hb2. reflexivity.
Defined.

End MoreFacts.
